(** * Flow-field particle sketches of encre: lesson 07 and the capstone

    A shallow embedding of [lessons/07_flow_fields/flow_fields_py5.py] and
    [lessons/17_capstone/capstone_py5.py].

    Numbers.  The sketches mix Python [int]s (grid indices, canvas size,
    cell size, age) with Python [float]s (positions, velocities, angles).
    Integers are [Z].  Floats are kept behind the interface [Num], with
    three instances: exact rationals ([Q], executable), where only the
    order of numbers and exact sums and products matter; binary64 itself
    (the kernel's primitive floats, executable), the arithmetic the
    sketches run in; and the reals ([R]), exact arithmetic with the real
    cosine and sine, which is what the formulas mean and not what the
    sketch computes.

    Library.  The functions of py5 that the sketches call ([cos], [sin],
    [noise], [TWO_PI], the generator behind [random]) live behind the
    interface [Py5].  [py5.constrain] and [py5.random] are written out from
    their documented behaviour.

    Effects.  A raised Python exception is the [Raise] branch of [result];
    module-level globals are the fields of an explicit sketch record; a
    method that mutates [self] returns the new object. *)

From Stdlib Require Import String Ascii DecimalString DecimalPos DecimalZ ZArith QArith Qround Qabs Reals List Bool Lia Lqa Lra.
From Stdlib Require PrimFloat SpecFloat FloatOps.
Import ListNotations.

Local Open Scope Z_scope.

(** ** Exceptions *)

Inductive exn : Type :=
| ZeroDivisionError
| IndexError
| KeyError.

Inductive result (A : Type) : Type :=
| Ok (a : A)
| Raise (e : exn).

Arguments Ok {A} a.
Arguments Raise {A} e.

Definition bind {A B : Type} (m : result A) (k : A -> result B) : result B :=
  match m with
  | Ok a => k a
  | Raise e => Raise e
  end.

Declare Scope result_scope.
Delimit Scope result_scope with result.
Notation "x <- m ;; k" := (bind m (fun x => k))
  (at level 61, m at next level, right associativity) : result_scope.
Notation "' pat <- m ;; k" := (bind m (fun x => match x with pat => k end))
  (at level 61, pat pattern, m at next level, right associativity) : result_scope.

(** [for a in l: acc = body(acc, a)], stopping at the first exception. *)
Fixpoint for_each {A S : Type} (l : list A) (body : S -> A -> result S) (acc : S)
  : result S :=
  match l with
  | [] => Ok acc
  | a :: l' => bind (body acc a) (for_each l' body)
  end.

(** ** Python lists and ranges *)

(** [l[i]]: a negative index counts from the end, anything outside raises. *)
Definition getitem {A : Type} (l : list A) (i : Z) : result A :=
  let n := Z.of_nat (length l) in
  let k := if i <? 0 then i + n else i in
  if (k <? 0) || (n <=? k) then Raise IndexError
  else match nth_error l (Z.to_nat k) with
       | Some a => Ok a
       | None => Raise IndexError
       end.

Fixpoint replace_nth {A : Type} (l : list A) (k : nat) (a : A) : list A :=
  match l, k with
  | [], _ => []
  | _ :: l', O => a :: l'
  | b :: l', S k' => b :: replace_nth l' k' a
  end.

(** [l[i] = a] *)
Definition setitem {A : Type} (l : list A) (i : Z) (a : A) : result (list A) :=
  let n := Z.of_nat (length l) in
  let k := if i <? 0 then i + n else i in
  if (k <? 0) || (n <=? k) then Raise IndexError
  else Ok (replace_nth l (Z.to_nat k) a).

(** [range(n)] *)
Definition range (n : Z) : list Z :=
  map Z.of_nat (seq 0 (Z.to_nat n)).

(** [range(0, n, 2)] *)
Definition range_step2 (n : Z) : list Z :=
  map (fun k => 2 * Z.of_nat k) (seq 0 (Z.to_nat ((n + 1) / 2))).

(** [range(n - 1, -1, -1)] *)
Definition range_down (n : Z) : list Z :=
  rev (range n).

(** [d[key]] on a dict with string keys, kept as a list of bindings. *)
Fixpoint dict_get {A : Type} (d : list (string * A)) (key : string) : result A :=
  match d with
  | [] => Raise KeyError
  | (k, a) :: d' => if String.eqb k key then Ok a else dict_get d' key
  end.

(** [d[key] = a] *)
Fixpoint dict_set {A : Type} (d : list (string * A)) (key : string) (a : A)
  : list (string * A) :=
  match d with
  | [] => [(key, a)]
  | (k, b) :: d' =>
      if String.eqb k key then (k, a) :: d' else (k, b) :: dict_set d' key a
  end.

(** ** Numbers behind an interface *)

Class Num (F : Type) : Type := {
  of_int : Z -> F;            (* an int used where a float is expected *)
  to_int : F -> Z;            (* int(x): truncation toward zero *)
  fadd : F -> F -> F;
  fsub : F -> F -> F;
  fmul : F -> F -> F;
  fdiv : F -> F -> F;         (* the quotient, for a divisor that is not zero *)
  fis0 : F -> bool;           (* x == 0 *)
  fltb : F -> F -> bool       (* x < y *)
}.

(** What the sketches use of py5. *)
Class Py5 (F : Type) : Type := {
  py5_cos : F -> F;
  py5_sin : F -> F;
  py5_noise : F -> F -> F -> F;
  TWO_PI : F;
  py5_uniform : nat -> F      (* the k-th sample of the generator, in [0, 1) *)
}.

Section Library.
Context {F : Type} {num : Num F} {py5 : Py5 F}.

(** [a / b] *)
Definition pydiv (a b : F) : result F :=
  if fis0 b then Raise ZeroDivisionError else Ok (fdiv a b).

(** [a > b] *)
Definition fgtb (a b : F) : bool := fltb b a.

(** [a >= b] *)
Definition fgeb (a b : F) : bool := negb (fltb a b).

(** [py5.constrain(amt, low, high)] on ints. *)
Definition constrain (amt low high : Z) : Z :=
  if amt <? low then low else if high <? amt then high else amt.

(** [py5.random(high)], drawing sample [k]. *)
Definition random1 (k : nat) (high : F) : F * nat :=
  (fmul high (py5_uniform k), S k).

(** [py5.random(low, high)], drawing sample [k]. *)
Definition random2 (k : nat) (low high : F) : F * nat :=
  (fadd low (fmul (fsub high low) (py5_uniform k)), S k).

(** [[[0 for _ in range(rows)] for _ in range(cols)]] *)
Definition zero_field (cols rows : Z) : list (list F) :=
  map (fun _ => map (fun _ => of_int 0) (range rows)) (range cols).

(** One axis of the wrap-around in [update]: the two [if]s in turn, on the
    moved coordinate [c] and the stored previous one, for a canvas extent
    [w].  Both sketches write this out for [x] and again for [y]. *)
Definition wrap (w : Z) (c prev : F) : F * F :=
  let '(c, prev) :=
    if fltb c (of_int 0) then (of_int w, of_int w) else (c, prev) in
  if fgtb c (of_int w) then (of_int 0, of_int 0) else (c, prev).

End Library.

(** A colour, as [py5.color(r, g, b)] is given. *)
Definition color : Type := (Z * Z * Z)%type.

(** The draw requests a particle or the field overlay sends to the canvas:
    [py5.line] with the stroke set before it, [py5.point], [py5.ellipse],
    and one arrow of [draw_field]. *)
Inductive draw_cmd (F : Type) : Type :=
| Line (x0 y0 x1 y1 : F) (col : color) (alpha : F) (weight : F)
| Point (x y : F) (col : color) (weight : F)
| Ellipse (x y : F) (col : color) (alpha : F) (w h : F)
| Arrow (i j : Z) (angle : F).

Arguments Line {F}.
Arguments Point {F}.
Arguments Ellipse {F}.
Arguments Arrow {F}.

(** [[make() for _ in range(n)]], where [make] draws from the generator and
    may raise. *)
Fixpoint comprehension {A : Type} (n : nat) (make : nat -> result (A * nat))
  (k : nat) : result (list A * nat) :=
  match n with
  | O => Ok ([], k)
  | S n' =>
      match make k with
      | Raise e => Raise e
      | Ok (a, k') =>
          match comprehension n' make k' with
          | Raise e => Raise e
          | Ok (l, k'') => Ok (a :: l, k'')
          end
      end
  end.

Section Grid.
Context {F : Type}.
Local Open Scope result_scope.

(** [field[i][j]] *)
Definition getitem2 (field : list (list F)) (i j : Z) : result F :=
  column <- getitem field i ;;
  getitem column j.

(** [field[i][j] = a]: the inner list is fetched, then written in place. *)
Definition setitem2 (field : list (list F)) (i j : Z) (a : F)
  : result (list (list F)) :=
  column <- getitem field i ;;
  column' <- setitem column j a ;;
  setitem field i column'.

End Grid.

(** ** What a key press sends out *)

(** The effects of a key handler on the outside: [py5.background] with a
    colour or with a grey level, [py5.save], and [print]. *)
Inductive event : Type :=
| Background (c : color)
| BackgroundGray (level : Z)
| Save (filename : string)
| Print (line : string).

(** [str(n)] for an int, as an f-string formats it. *)
Definition py_str (n : Z) : string :=
  NilZero.string_of_int (Z.to_int n).

(** [s.replace(old, new)] for patterns of one character. *)
Fixpoint str_replace (old new : ascii) (s : string) : string :=
  match s with
  | EmptyString => EmptyString
  | String c s' =>
      String (if Ascii.eqb c old then new else c) (str_replace old new s')
  end.

(** ** Lesson 07: flow_fields_py5.py *)

Module FlowFields.
Section Sketch.
Context {F : Type} {num : Num F} {py5 : Py5 F}.
Local Open Scope result_scope.
Local Open Scope string_scope.
Local Open Scope list_scope.

Record FlowParticle : Type := {
  x : F; y : F;
  prev_x : F; prev_y : F;
  vx : F; vy : F;
  max_speed : F;
  col : color
}.

(** The module-level globals, the canvas size of py5 and the position of
    the random generator. *)
Record sketch : Type := {
  width : Z; height : Z;
  cols : Z; rows : Z;
  scale : Z;
  field : list (list F);
  particles : list FlowParticle;
  num_particles : Z;
  z_offset : F;
  show_field : bool;
  show_trails : bool;
  palette : list color;
  rng : nat
}.

(** The globals as the module body binds them. *)
Definition globals : sketch := {|
  width := 0; height := 0;
  cols := 0; rows := 0;
  scale := 20;
  field := [];
  particles := [];
  num_particles := 500;
  z_offset := of_int 0;
  show_field := false;
  show_trails := true;
  palette := [];
  rng := O
|}.

(** [FlowParticle.__init__]: [reset], then the colour. *)
Definition new_particle (s : sketch) (k : nat) : result (FlowParticle * nat) :=
  let '(x0, k) := random1 k (of_int (width s)) in
  let '(y0, k) := random1 k (of_int (height s)) in
  let '(speed, k) := random2 k (of_int 2) (of_int 4) in
  let '(r, k) := random1 k (of_int (Z.of_nat (length (palette s)))) in
  c <- getitem (palette s) (to_int r) ;;
  Ok ({| x := x0; y := y0; prev_x := x0; prev_y := y0;
         vx := of_int 0; vy := of_int 0; max_speed := speed; col := c |}, k).

Definition follow (s : sketch) (p : FlowParticle) (field : list (list F))
  : result FlowParticle :=
  qx <- pydiv (x p) (of_int (scale s)) ;;
  let col0 := to_int qx in
  qy <- pydiv (y p) (of_int (scale s)) ;;
  let row0 := to_int qy in
  let col1 := constrain col0 0 (cols s - 1) in
  let row1 := constrain row0 0 (rows s - 1) in
  angle <- getitem2 field col1 row1 ;;
  Ok {| x := x p; y := y p; prev_x := prev_x p; prev_y := prev_y p;
        vx := fmul (py5_cos angle) (max_speed p);
        vy := fmul (py5_sin angle) (max_speed p);
        max_speed := max_speed p; col := col p |}.

Definition update (s : sketch) (p : FlowParticle) : FlowParticle :=
  let px := x p in
  let py := y p in
  let x1 := fadd (x p) (vx p) in
  let y1 := fadd (y p) (vy p) in
  let '(x2, px) := wrap (width s) x1 px in
  let '(y2, py) := wrap (height s) y1 py in
  {| x := x2; y := y2; prev_x := px; prev_y := py;
     vx := vx p; vy := vy p; max_speed := max_speed p; col := col p |}.

Definition display (s : sketch) (p : FlowParticle) : draw_cmd F :=
  if show_trails s
  then Line (prev_x p) (prev_y p) (x p) (y p) (col p) (of_int 50) (of_int 1)
  else Point (x p) (y p) (col p) (of_int 2).

Definition the_palette : list color :=
  [ (142, 178, 197); (89, 112, 95); (216, 191, 161); (78, 91, 110);
    (168, 147, 120) ].

(** [setup], with the arguments of [py5.size] as parameters ([setup] itself
    calls [py5.size(800, 600)]); [py5.size] is taken to set [py5.width] and
    [py5.height] and nothing more. *)
Definition setup_size (w h : Z) (s : sketch) : result sketch :=
  let palette := the_palette in
  qc <- pydiv (of_int w) (of_int (scale s)) ;;
  let cols := to_int qc + 1 in
  qr <- pydiv (of_int h) (of_int (scale s)) ;;
  let rows := to_int qr + 1 in
  let field := zero_field cols rows in
  let s := {| width := w; height := h; cols := cols; rows := rows;
              scale := scale s; field := field; particles := particles s;
              num_particles := num_particles s; z_offset := z_offset s;
              show_field := show_field s; show_trails := show_trails s;
              palette := palette; rng := rng s |} in
  '(ps, k) <- comprehension (Z.to_nat (num_particles s)) (new_particle s) (rng s) ;;
  Ok {| width := w; height := h; cols := cols; rows := rows;
        scale := scale s; field := field; particles := ps;
        num_particles := num_particles s; z_offset := z_offset s;
        show_field := show_field s; show_trails := show_trails s;
        palette := palette; rng := k |}.

Definition setup : sketch -> result sketch := setup_size 800 600.

(** The angle [update_field] computes for cell [(i, j)]. *)
Definition cell_angle (z : F) (i j : Z) : F :=
  let noise_scale := fdiv (of_int 1) (of_int 10) in
  fmul (fmul (py5_noise (fmul (of_int i) noise_scale)
                        (fmul (of_int j) noise_scale) z)
             TWO_PI)
       (of_int 2).

Definition update_field (s : sketch) : result (list (list F)) :=
  for_each (range (cols s))
    (fun field i =>
       for_each (range (rows s))
         (fun field j => setitem2 field i j (cell_angle (z_offset s) i j))
         field)
    (field s).

Definition draw_field (s : sketch) : result (list (draw_cmd F)) :=
  for_each (range (cols s))
    (fun out i =>
       for_each (range (rows s))
         (fun out j =>
            angle <- getitem2 (field s) i j ;;
            Ok (out ++ [Arrow i j angle]))
         out)
    [].

(** One pass of [for p in particles: p.follow(field); p.update();
    p.display()] over the objects of the list. *)
Definition step_particle (s : sketch) (acc : list FlowParticle * list (draw_cmd F))
  (p : FlowParticle) : result (list FlowParticle * list (draw_cmd F)) :=
  p <- follow s p (field s) ;;
  let p := update s p in
  Ok (fst acc ++ [p], snd acc ++ [display s p]).

Definition with_field (s : sketch) (f : list (list F)) : sketch :=
  {| width := width s; height := height s; cols := cols s; rows := rows s;
     scale := scale s; field := f; particles := particles s;
     num_particles := num_particles s; z_offset := z_offset s;
     show_field := show_field s; show_trails := show_trails s;
     palette := palette s; rng := rng s |}.

(** [draw]: the new globals and the draw requests of the frame (the
    background fill and the text of [draw_ui] are left out). *)
Definition draw (s : sketch) : result (sketch * list (draw_cmd F)) :=
  f <- update_field s ;;
  let s := with_field s f in
  arrows <- (if show_field s then draw_field s else Ok []) ;;
  '(ps, out) <- for_each (particles s) (step_particle s) ([], arrows) ;;
  Ok ({| width := width s; height := height s; cols := cols s; rows := rows s;
         scale := scale s; field := field s; particles := ps;
         num_particles := num_particles s;
         z_offset := fadd (z_offset s) (fdiv (of_int 3) (of_int 1000));
         show_field := show_field s; show_trails := show_trails s;
         palette := palette s; rng := rng s |}, out).

(** [n] frames in a row, collecting the draw requests. *)
Fixpoint frames (n : nat) (s : sketch) : result (sketch * list (draw_cmd F)) :=
  match n with
  | O => Ok (s, [])
  | S n' =>
      '(s1, out1) <- draw s ;;
      '(s2, out2) <- frames n' s1 ;;
      Ok (s2, out1 ++ out2)
  end.

(** [key_pressed], for the key held in [py5.key] and the frame number held
    in [py5.frame_count]: the new globals and what goes out. *)
Definition key_pressed (key : string) (frame_count : Z) (s : sketch)
  : result (sketch * list event) :=
  if String.eqb key "f" then
    let show_field := negb (show_field s) in
    Ok ({| width := width s; height := height s; cols := cols s;
           rows := rows s; scale := scale s; field := field s;
           particles := particles s; num_particles := num_particles s;
           z_offset := z_offset s;
           show_field := show_field; show_trails := show_trails s;
           palette := palette s; rng := rng s |},
        [Print ("Field vectors: " ++ (if show_field then "ON" else "OFF"))%string])
  else if String.eqb key "t" then
    let show_trails := negb (show_trails s) in
    Ok ({| width := width s; height := height s; cols := cols s;
           rows := rows s; scale := scale s; field := field s;
           particles := particles s; num_particles := num_particles s;
           z_offset := z_offset s;
           show_field := show_field s; show_trails := show_trails;
           palette := palette s; rng := rng s |},
        [BackgroundGray 20;
         Print ("Trails: " ++ (if show_trails then "ON" else "OFF"))%string])
  else if String.eqb key "r" then
    '(ps, k) <- comprehension (Z.to_nat (num_particles s)) (new_particle s)
                  (rng s) ;;
    Ok ({| width := width s; height := height s; cols := cols s;
           rows := rows s; scale := scale s; field := field s;
           particles := ps; num_particles := num_particles s;
           z_offset := z_offset s;
           show_field := show_field s; show_trails := show_trails s;
           palette := palette s; rng := k |},
        [BackgroundGray 20; Print "Reset particles"])
  else if String.eqb key "s" then
    let filename := ("flowfield_" ++ py_str frame_count ++ ".png")%string in
    Ok (s, [Save filename; Print ("Saved: " ++ filename)%string])
  else Ok (s, []).

End Sketch.
Arguments FlowParticle F : clear implicits.
Arguments sketch F : clear implicits.
End FlowFields.

(** ** Lesson 17: capstone_py5.py *)

Module Capstone.
Section Sketch.
Context {F : Type} {num : Num F} {py5 : Py5 F}.
Local Open Scope result_scope.
Local Open Scope string_scope.
Local Open Scope list_scope.

(** An entry of [artists]; [speed_range] and [stroke_weight] are pairs. *)
Record profile : Type := {
  name : string;
  movement : string;
  palette : list color;
  background : color;
  speed_range : F * F;
  stroke_weight_range : F * F;
  opacity : F;
  flow_scale : F;
  flow_multiplier : F
}.

Record ArtParticle : Type := {
  x : F; y : F;
  prev_x : F; prev_y : F;
  vx : F; vy : F;
  col : color;
  max_speed : F;
  stroke_weight : F;
  lifespan : F;
  age : Z
}.

Record sketch : Type := {
  width : Z; height : Z;
  artists : list (string * profile);
  current_artist : string;
  cols : Z; rows : Z;
  scale : Z;
  field : list (list F);
  particles : list ArtParticle;
  max_particles : Z;
  t : F;
  z_offset : F;
  show_field : bool;
  show_trails : bool;
  show_info : bool;
  rng : nat
}.

(** The globals as the module body binds them. *)
Definition globals : sketch := {|
  width := 0; height := 0;
  artists := [];
  current_artist := "monet";
  cols := 0; rows := 0;
  scale := 15;
  field := [];
  particles := [];
  max_particles := 800;
  t := of_int 0;
  z_offset := of_int 0;
  show_field := false;
  show_trails := true;
  show_info := true;
  rng := O
|}.

(** A decimal literal [n / d]. *)
Definition dec (n d : Z) : F := fdiv (of_int n) (of_int d).

Definition monet : profile := {|
  name := "Claude Monet"; movement := "Impressionism";
  palette := [ (142, 178, 197); (176, 166, 198); (168, 199, 168);
               (216, 191, 161); (112, 145, 128) ];
  background := (210, 220, 230);
  speed_range := (dec 3 2, of_int 3);
  stroke_weight_range := (of_int 1, of_int 3);
  opacity := of_int 80;
  flow_scale := dec 3 1000;
  flow_multiplier := of_int 1
|}.

Definition vangogh : profile := {|
  name := "Vincent van Gogh"; movement := "Post-Impressionism";
  palette := [ (25, 55, 95); (60, 90, 140); (230, 200, 80); (40, 70, 50);
               (180, 150, 100) ];
  background := (25, 35, 55);
  speed_range := (of_int 2, of_int 4);
  stroke_weight_range := (of_int 2, of_int 5);
  opacity := of_int 150;
  flow_scale := dec 5 1000;
  flow_multiplier := of_int 3
|}.

Definition seurat : profile := {|
  name := "Georges Seurat"; movement := "Neo-Impressionism";
  palette := [ (180, 200, 220); (140, 170, 120); (200, 180, 140);
               (220, 190, 170); (80, 100, 140) ];
  background := (240, 235, 220);
  speed_range := (dec 1 2, dec 3 2);
  stroke_weight_range := (of_int 2, of_int 4);
  opacity := of_int 200;
  flow_scale := dec 2 1000;
  flow_multiplier := of_int 1
|}.

Definition kandinsky : profile := {|
  name := "Wassily Kandinsky"; movement := "Abstract Expressionism";
  palette := [ (200, 50, 50); (50, 100, 180); (240, 200, 50); (30, 30, 30);
               (220, 220, 220) ];
  background := (245, 240, 230);
  speed_range := (of_int 2, of_int 5);
  stroke_weight_range := (of_int 1, of_int 6);
  opacity := of_int 180;
  flow_scale := dec 8 1000;
  flow_multiplier := of_int 2
|}.

Definition init_artists (artists : list (string * profile))
  : list (string * profile) :=
  let artists := dict_set artists "monet" monet in
  let artists := dict_set artists "vangogh" vangogh in
  let artists := dict_set artists "seurat" seurat in
  dict_set artists "kandinsky" kandinsky.

(** [ArtParticle.__init__], that is [reset], on a canvas [w] by [h]. *)
Definition reset (w h : Z) (artist_profile : profile) (k : nat)
  : result (ArtParticle * nat) :=
  let '(x0, k) := random1 k (of_int w) in
  let '(y0, k) := random1 k (of_int h) in
  let palette := palette artist_profile in
  let '(r, k) := random1 k (of_int (Z.of_nat (length palette))) in
  c <- getitem palette (to_int r) ;;
  let '(speed, k) :=
    random2 k (fst (speed_range artist_profile))
              (snd (speed_range artist_profile)) in
  let '(weight, k) :=
    random2 k (fst (stroke_weight_range artist_profile))
              (snd (stroke_weight_range artist_profile)) in
  let '(life, k) := random2 k (of_int 100) (of_int 300) in
  Ok ({| x := x0; y := y0; prev_x := x0; prev_y := y0;
         vx := of_int 0; vy := of_int 0;
         col := c; max_speed := speed; stroke_weight := weight;
         lifespan := life; age := 0 |}, k).

Definition follow (s : sketch) (p : ArtParticle) (field : list (list F))
  : result ArtParticle :=
  qx <- pydiv (x p) (of_int (scale s)) ;;
  let col_idx := to_int qx in
  qy <- pydiv (y p) (of_int (scale s)) ;;
  let row_idx := to_int qy in
  let col_idx := constrain col_idx 0 (cols s - 1) in
  let row_idx := constrain row_idx 0 (rows s - 1) in
  angle <- getitem2 field col_idx row_idx ;;
  Ok {| x := x p; y := y p; prev_x := prev_x p; prev_y := prev_y p;
        vx := fmul (py5_cos angle) (max_speed p);
        vy := fmul (py5_sin angle) (max_speed p);
        col := col p; max_speed := max_speed p;
        stroke_weight := stroke_weight p;
        lifespan := lifespan p; age := age p |}.

Definition update (s : sketch) (p : ArtParticle) : ArtParticle :=
  let px := x p in
  let py := y p in
  let x1 := fadd (x p) (vx p) in
  let y1 := fadd (y p) (vy p) in
  let age1 := age p + 1 in
  let '(x2, px) := wrap (width s) x1 px in
  let '(y2, py) := wrap (height s) y1 py in
  {| x := x2; y := y2; prev_x := px; prev_y := py;
     vx := vx p; vy := vy p;
     col := col p; max_speed := max_speed p;
     stroke_weight := stroke_weight p;
     lifespan := lifespan p; age := age1 |}.

(** The [alpha] of [display]. *)
Definition alpha (p : ArtParticle) (artist_profile : profile) : result F :=
  q <- pydiv (of_int (age p)) (lifespan p) ;;
  let life_ratio := fsub (of_int 1) q in
  Ok (fmul life_ratio (opacity artist_profile)).

Definition display (s : sketch) (p : ArtParticle) (artist_profile : profile)
  : result (draw_cmd F) :=
  a <- alpha p artist_profile ;;
  if show_trails s
  then Ok (Line (prev_x p) (prev_y p) (x p) (y p) (col p) a (stroke_weight p))
  else Ok (Ellipse (x p) (y p) (col p) a
             (fmul (stroke_weight p) (of_int 2))
             (fmul (stroke_weight p) (of_int 2))).

Definition is_dead (p : ArtParticle) : bool :=
  fgeb (of_int (age p)) (lifespan p).

Definition with_canvas (s : sketch) (w h : Z) (a : list (string * profile))
  (c r : Z) (f : list (list F)) (ps : list ArtParticle) (k : nat) : sketch :=
  {| width := w; height := h; artists := a;
     current_artist := current_artist s;
     cols := c; rows := r; scale := scale s; field := f; particles := ps;
     max_particles := max_particles s; t := t s; z_offset := z_offset s;
     show_field := show_field s; show_trails := show_trails s;
     show_info := show_info s; rng := k |}.

(** The statements of [setup], with the arguments of [py5.size] as
    parameters ([setup] itself calls [py5.size(1200, 800)]).  Of
    [py5.size] only what the sketch reads back is kept, [py5.width] and
    [py5.height]; what py5 itself does with a size, the creation of the
    export directory and the lines printed are calls out of the sketch and
    are not part of this function.  [artists[current_artist]] is looked up
    for every particle of the pool, as the comprehension does. *)
Definition setup_size (w h : Z) (s : sketch) : result sketch :=
  let artists := init_artists (artists s) in
  qc <- pydiv (of_int w) (of_int (scale s)) ;;
  let cols := to_int qc + 1 in
  qr <- pydiv (of_int h) (of_int (scale s)) ;;
  let rows := to_int qr + 1 in
  let field := zero_field cols rows in
  '(ps, k) <- comprehension (Z.to_nat (max_particles s))
                (fun k =>
                   artist <- dict_get artists (current_artist s) ;;
                   reset w h artist k)
                (rng s) ;;
  Ok (with_canvas s w h artists cols rows field ps k).

Definition setup : sketch -> result sketch := setup_size 1200 800.

(** The angle [update_field] computes for cell [(i, j)]. *)
Definition cell_angle (artist : profile) (z : F) (i j : Z) : F :=
  let flow_scale := flow_scale artist in
  let multiplier := flow_multiplier artist in
  let angle :=
    py5_noise (fmul (fmul (of_int i) flow_scale) (of_int 10))
              (fmul (fmul (of_int j) flow_scale) (of_int 10)) z in
  fmul (fmul angle TWO_PI) multiplier.

Definition update_field (s : sketch) (artist : profile)
  : result (list (list F)) :=
  for_each (range (cols s))
    (fun field i =>
       for_each (range (rows s))
         (fun field j =>
            setitem2 field i j (cell_angle artist (z_offset s) i j))
         field)
    (field s).

Definition draw_field (s : sketch) : result (list (draw_cmd F)) :=
  for_each (range_step2 (cols s))
    (fun out i =>
       for_each (range_step2 (rows s))
         (fun out j =>
            angle <- getitem2 (field s) i j ;;
            Ok (out ++ [Arrow i j angle]))
         out)
    [].

(** The body of the particle loop of [draw] at index [i]: the pool, the
    draw requests so far and the generator go in and come out. *)
Definition step_particle (s : sketch) (artist : profile)
  (acc : list ArtParticle * list (draw_cmd F) * nat) (i : Z)
  : result (list ArtParticle * list (draw_cmd F) * nat) :=
  let '(particles, out, k) := acc in
  p <- getitem particles i ;;
  p <- follow s p (field s) ;;
  let p := update s p in
  cmd <- display s p artist ;;
  if is_dead p then
    '(fresh, k) <- reset (width s) (height s) artist k ;;
    particles <- setitem particles i fresh ;;
    Ok (particles, out ++ [cmd], k)
  else
    particles <- setitem particles i p ;;
    Ok (particles, out ++ [cmd], k).

(** [draw]: the new globals and the draw requests of the frame (the
    background fill and the info panel are left out). *)
Definition draw (s : sketch) : result (sketch * list (draw_cmd F)) :=
  artist <- dict_get (artists s) (current_artist s) ;;
  f <- update_field s artist ;;
  let s := with_canvas s (width s) (height s) (artists s) (cols s) (rows s)
             f (particles s) (rng s) in
  arrows <- (if show_field s then draw_field s else Ok []) ;;
  '(ps, out, k) <- for_each (range_down (Z.of_nat (length (particles s))))
                     (step_particle s artist) (particles s, arrows, rng s) ;;
  Ok ({| width := width s; height := height s; artists := artists s;
         current_artist := current_artist s;
         cols := cols s; rows := rows s; scale := scale s;
         field := field s; particles := ps;
         max_particles := max_particles s;
         t := fadd (t s) (dec 1 100);
         z_offset := fadd (z_offset s) (dec 2 1000);
         show_field := show_field s; show_trails := show_trails s;
         show_info := show_info s; rng := k |}, out).

(** [n] frames in a row, collecting the draw requests. *)
Fixpoint frames (n : nat) (s : sketch) : result (sketch * list (draw_cmd F)) :=
  match n with
  | O => Ok (s, [])
  | S n' =>
      '(s1, out1) <- draw s ;;
      '(s2, out2) <- frames n' s1 ;;
      Ok (s2, out1 ++ out2)
  end.

Definition with_pool (s : sketch) (key : string)
  (ps : list ArtParticle) (k : nat) : sketch :=
  {| width := width s; height := height s; artists := artists s;
     current_artist := key;
     cols := cols s; rows := rows s; scale := scale s; field := field s;
     particles := ps;
     max_particles := max_particles s; t := t s; z_offset := z_offset s;
     show_field := show_field s; show_trails := show_trails s;
     show_info := show_info s; rng := k |}.

Definition with_flags (s : sketch) (f tr i : bool) : sketch :=
  {| width := width s; height := height s; artists := artists s;
     current_artist := current_artist s;
     cols := cols s; rows := rows s; scale := scale s; field := field s;
     particles := particles s;
     max_particles := max_particles s; t := t s; z_offset := z_offset s;
     show_field := f; show_trails := tr; show_info := i; rng := rng s |}.

(** [switch_artist(artist_id)]; what an exception leaves behind in the
    globals is not kept. *)
Definition switch_artist (artist_id : string) (s : sketch)
  : result (sketch * list event) :=
  let current_artist := artist_id in
  artist <- dict_get (artists s) current_artist ;;
  '(ps, k) <- comprehension (Z.to_nat (max_particles s))
                (reset (width s) (height s) artist) (rng s) ;;
  Ok (with_pool s current_artist ps k,
      [Background (background artist);
       Print ("Artist: " ++ name artist)%string]).

(** [save_image], with [py5.millis()] as a parameter. *)
Definition save_image (millis : Z) (s : sketch) : result (list event) :=
  artist <- dict_get (artists s) (current_artist s) ;;
  let filename :=
    ("export/" ++ str_replace " " "_" (name artist) ++ "_" ++ py_str millis
     ++ ".png")%string in
  Ok [Save filename; Print ("Saved: " ++ filename)%string].

(** [key_pressed], for the key held in [py5.key] and the clock read by
    [py5.millis()]: the new globals and what goes out. *)
Definition key_pressed (key : string) (millis : Z) (s : sketch)
  : result (sketch * list event) :=
  if String.eqb key "1" then switch_artist "monet" s
  else if String.eqb key "2" then switch_artist "vangogh" s
  else if String.eqb key "3" then switch_artist "seurat" s
  else if String.eqb key "4" then switch_artist "kandinsky" s
  else if String.eqb key "f" then
    Ok (with_flags s (negb (show_field s)) (show_trails s) (show_info s), [])
  else if String.eqb key "t" then
    let s := with_flags s (show_field s) (negb (show_trails s)) (show_info s) in
    artist <- dict_get (artists s) (current_artist s) ;;
    Ok (s, [Background (background artist)])
  else if String.eqb key "i" then
    Ok (with_flags s (show_field s) (show_trails s) (negb (show_info s)), [])
  else if String.eqb key "r" then
    '(ps, k) <- comprehension (Z.to_nat (max_particles s))
                  (fun k =>
                     artist <- dict_get (artists s) (current_artist s) ;;
                     reset (width s) (height s) artist k)
                  (rng s) ;;
    Ok (with_pool s (current_artist s) ps k, [])
  else if String.eqb key " " then
    artist <- dict_get (artists s) (current_artist s) ;;
    Ok (s, [Background (background artist)])
  else if String.eqb key "s" then
    out <- save_image millis s ;;
    Ok (s, out)
  else Ok (s, []).

End Sketch.
Arguments profile F : clear implicits.
Arguments ArtParticle F : clear implicits.
Arguments sketch F : clear implicits.
End Capstone.

(** ** The number systems *)

(** Exact rationals: everything computes. *)
#[global] Instance Q_num : Num Q := {|
  of_int := inject_Z;
  to_int := fun q => Z.quot (Qnum q) (Zpos (Qden q));
  fadd := Qplus;
  fsub := Qminus;
  fmul := Qmult;
  fdiv := Qdiv;
  fis0 := fun q => Qnum q =? 0;
  fltb := fun a b => match (a ?= b)%Q with Lt => true | _ => false end
|}.

(** Truncation toward zero on the reals. *)
Definition Rtrunc (r : R) : Z :=
  if Rle_dec 0 r then Int_part r else - Int_part (- r).

(** The reals: exact arithmetic.  Nothing computes and nothing is
    rounded, so this is what the formulas of the sketches mean, not what a
    running sketch gets. *)
#[global] Instance R_num : Num R := {|
  of_int := IZR;
  to_int := Rtrunc;
  fadd := Rplus;
  fsub := Rminus;
  fmul := Rmult;
  fdiv := Rdiv;
  fis0 := fun r => if Req_dec_T r 0 then true else false;
  fltb := fun a b => if Rlt_dec a b then true else false
|}.

(** py5 over the reals, for a given noise function and generator: [cos]
    and [sin] are the real cosine and sine.  An idealisation, like [R_num]. *)
Definition R_py5 (noise : R -> R -> R -> R) (uniform : nat -> R) : Py5 R := {|
  py5_cos := cos;
  py5_sin := sin;
  py5_noise := noise;
  TWO_PI := (2 * PI)%R;
  py5_uniform := uniform
|}.

(** Binary64, the floats of Python, as the kernel's primitive floats: every
    operation rounds to nearest, ties to even, as the sketches' [+], [-],
    [*] and [/] do. *)

(** An int used where a float is expected: the nearest float. *)
Definition B64_of_int (z : Z) : PrimFloat.float :=
  FloatOps.SF2Prim
    (SpecFloat.binary_normalize FloatOps.prec FloatOps.emax z 0 false).

(** [int(x)] for a finite float: the digits before the point.  (Python
    raises on an infinity or a NaN; the interface has no place for that,
    and this instance is run on finite numbers only.) *)
Definition B64_to_int (x : PrimFloat.float) : Z :=
  match FloatOps.Prim2SF x with
  | SpecFloat.S754_finite sign m e =>
      let a := if 0 <=? e then Zpos m * 2 ^ e else Zpos m / 2 ^ (- e) in
      if sign then - a else a
  | _ => 0
  end.

#[global] Instance B64_num : Num PrimFloat.float := {|
  of_int := B64_of_int;
  to_int := B64_to_int;
  fadd := PrimFloat.add;
  fsub := PrimFloat.sub;
  fmul := PrimFloat.mul;
  fdiv := PrimFloat.div;
  fis0 := fun x => PrimFloat.eqb x (B64_of_int 0);
  fltb := PrimFloat.ltb
|}.

(** The rational number a finite float stands for. *)
Definition B64_value (x : PrimFloat.float) : Q :=
  match FloatOps.Prim2SF x with
  | SpecFloat.S754_finite sign m e =>
      let a := if 0 <=? e then inject_Z (Zpos m * 2 ^ e)
               else Qmake (Zpos m) (Z.to_pos (2 ^ (- e))) in
      if sign then Qopp a else a
  | _ => 0%Q
  end.

(** The float [m * 2^e], negated when [sign] is set. *)
Definition B64_literal (sign : bool) (m : positive) (e : Z) : PrimFloat.float :=
  FloatOps.SF2Prim (SpecFloat.S754_finite sign m e).

(** py5 over binary64, as far as it is known here: a table with one entry.
    At the angle [3.0], [cos] and [sin] return the doubles nearest to the
    cosine and sine of 3, [-0x1.fae04be85e5d2p-1] (-0.9899924966004454) and
    [0x1.210386db6d55bp-3] (0.1411200080598672), as the C library does.
    The table has no other angle, no noise and no generator: it answers
    NaN, and [0] for a sample. *)
Definition B64_py5_at_3 : Py5 PrimFloat.float := {|
  py5_cos := fun a =>
    if PrimFloat.eqb a (B64_of_int 3)
    then B64_literal true 8917059677578706 (-53) else PrimFloat.nan;
  py5_sin := fun a =>
    if PrimFloat.eqb a (B64_of_int 3)
    then B64_literal false 5084384125703515 (-55) else PrimFloat.nan;
  py5_noise := fun _ _ _ => PrimFloat.nan;
  TWO_PI := B64_literal false 7074237752028440 (-50);
  py5_uniform := fun _ => B64_of_int 0
|}.

(** A stand-in for py5 over the rationals, used to run the sketches on
    concrete inputs: every angle points along the x axis, the noise is flat
    at [n], and the generator always returns [u]. *)
Definition Q_py5_flat (n u : Q) : Py5 Q := {|
  py5_cos := fun _ => 1%Q;
  py5_sin := fun _ => 0%Q;
  py5_noise := fun _ _ _ => n;
  TWO_PI := (6283185307179586 # 1000000000000000)%Q;
  py5_uniform := fun _ => u
|}.

(** ** What the claims need of the specification *)

(** The grid is [cols] lists of [rows] cells each. *)
Definition well_shaped {F : Type} (cols rows : Z) (field : list (list F)) : Prop :=
  length field = Z.to_nat cols /\
  Forall (fun column => length column = Z.to_nat rows) field.

(** The grid size the specification asks for: [ceil(extent / cell_size)]. *)
Definition spec_cells (extent cell_size : Z) : Z :=
  Qceiling (inject_Z extent / inject_Z cell_size).

(** The grid of [setup] against the ceiling of the specification, on one
    axis: one more than the integer quotient, which is the ceiling unless
    the cell size divides the extent, and then one more than it. *)
Definition sized_by_quotient (extent cell_size cells : Z) : Prop :=
  cells = extent / cell_size + 1 /\
  (extent mod cell_size <> 0 -> cells = spec_cells extent cell_size) /\
  (extent mod cell_size = 0 -> cells = spec_cells extent cell_size + 1).

(** The [alpha] of a draw request, when it carries one. *)
Definition cmd_alpha {F : Type} (c : draw_cmd F) : option F :=
  match c with
  | Line _ _ _ _ _ a _ => Some a
  | Ellipse _ _ _ a _ _ => Some a
  | Point _ _ _ _ => None
  | Arrow _ _ _ => None
  end.

(** A draw request of the field overlay, as opposed to one of a particle. *)
Definition is_arrow {F : Type} (c : draw_cmd F) : bool :=
  match c with
  | Arrow _ _ _ => true
  | _ => false
  end.

Definition is_ok {A : Type} (r : result A) : bool :=
  match r with
  | Ok _ => true
  | Raise _ => false
  end.

(** What the no-streak rule asks of one axis of one [update]: [c] and [v]
    are the coordinate and the velocity before, [c'] and [prev'] the
    coordinate and the stored previous coordinate after, on a canvas of the
    given extent.  A wrap resets the previous coordinate; the trail segment
    is never longer than the step; and the test of the specification (one
    unit from the far edge, velocity [+10]) ends with both at [0]. *)
Definition no_streak (extent : Z) (c v c' prev' : Q) : Prop :=
  ((c + v < 0 \/ inject_Z extent < c + v)%Q -> prev' = c') /\
  (Qabs (c' - prev') <= Qabs v)%Q /\
  (0 < extent -> (c == inject_Z extent - 1)%Q -> (v == 10)%Q ->
   c' = 0%Q /\ prev' = 0%Q).

(** ** Invariants of a running sketch, over the rationals *)

(** The generator hands out samples of [[0, 1)]. *)
Definition unit_samples (py5 : Py5 Q) : Prop :=
  forall k, (0 <= @py5_uniform Q py5 k < 1)%Q.

(** The keys [init_artists] binds. *)
Definition builtin_artist (key : string) : Prop :=
  In key ["monet"; "vangogh"; "seurat"; "kandinsky"]%string.

Module FlowInv.
Import FlowFields.

(** On the closed canvas. *)
Definition on_canvas (w h : Z) (p : FlowParticle Q) : Prop :=
  (0 <= x p <= inject_Z w)%Q /\ (0 <= y p <= inject_Z h)%Q.

(** What [setup] leaves behind and [draw] keeps. *)
Definition ready (s : sketch Q) : Prop :=
  scale s <> 0 /\ 0 <= width s /\ 0 <= height s /\
  1 <= cols s /\ 1 <= rows s /\
  well_shaped (cols s) (rows s) (field s) /\
  Forall (on_canvas (width s) (height s)) (particles s).
End FlowInv.

Module CapstoneInv.
Import Capstone.

(** On the closed canvas. *)
Definition on_canvas (w h : Z) (p : ArtParticle Q) : Prop :=
  (0 <= x p <= inject_Z w)%Q /\ (0 <= y p <= inject_Z h)%Q.

(** Not yet dead, with a lifespan [reset] can have drawn. *)
Definition alive (p : ArtParticle Q) : Prop :=
  0 <= age p /\ (inject_Z (age p) < lifespan p)%Q /\ (100 <= lifespan p)%Q.

Definition good_particle (w h : Z) (p : ArtParticle Q) : Prop :=
  on_canvas w h p /\ alive p.

(** What [setup] leaves behind and [draw] keeps. *)
Definition ready (s : sketch Q) (artist : profile Q) : Prop :=
  scale s <> 0 /\ 0 <= width s /\ 0 <= height s /\
  1 <= cols s /\ 1 <= rows s /\
  well_shaped (cols s) (rows s) (field s) /\
  dict_get (artists s) (current_artist s) = Ok artist /\
  palette artist <> [] /\ (0 <= opacity artist)%Q /\
  Forall (good_particle (width s) (height s)) (particles s).

(** The alpha of a draw request stays within the fade of the profile,
    up to the overshoot of a last frame. *)
Definition faded (artist : profile Q) (c : draw_cmd Q) : Prop :=
  forall a, cmd_alpha c = Some a ->
    (- (opacity artist / 100) <= a <= opacity artist)%Q.
End CapstoneInv.

(** ** Small concrete sketches, to run the model on *)

Module Fixtures.
Local Open Scope Q_scope.

(** py5 with flat noise [1/2] and a generator stuck at [1/2]. *)
Definition flat : Py5 Q := Q_py5_flat (1 # 2) (1 # 2).

(** Lesson 07 on a 40 by 40 canvas: 3 by 3 cells, one particle about to
    leave through the right edge. *)
Definition flow : FlowFields.sketch Q := {|
  FlowFields.width := 40; FlowFields.height := 40;
  FlowFields.cols := 3; FlowFields.rows := 3;
  FlowFields.scale := 20;
  FlowFields.field := [[0; 0; 0]; [0; 0; 0]; [0; 0; 0]];
  FlowFields.particles :=
    [ {| FlowFields.x := 39; FlowFields.y := 10;
         FlowFields.prev_x := 39; FlowFields.prev_y := 10;
         FlowFields.vx := 10; FlowFields.vy := 0;
         FlowFields.max_speed := 3; FlowFields.col := (142, 178, 197)%Z |} ];
  FlowFields.num_particles := 1;
  FlowFields.z_offset := 0;
  FlowFields.show_field := false;
  FlowFields.show_trails := true;
  FlowFields.palette := FlowFields.the_palette;
  FlowFields.rng := O
|}.

Definition flow_particle : FlowFields.FlowParticle Q :=
  {| FlowFields.x := 39; FlowFields.y := 10;
     FlowFields.prev_x := 39; FlowFields.prev_y := 10;
     FlowFields.vx := 10; FlowFields.vy := 0;
     FlowFields.max_speed := 3; FlowFields.col := (142, 178, 197)%Z |}.

Definition art_particle : Capstone.ArtParticle Q :=
  {| Capstone.x := 29; Capstone.y := 10;
     Capstone.prev_x := 29; Capstone.prev_y := 10;
     Capstone.vx := 10; Capstone.vy := 0;
     Capstone.col := (142, 178, 197)%Z;
     Capstone.max_speed := 2; Capstone.stroke_weight := 1;
     Capstone.lifespan := 150; Capstone.age := 7 |}.

(** The capstone on a 30 by 30 canvas: 3 by 3 cells, one particle. *)
Definition capstone : Capstone.sketch Q := {|
  Capstone.width := 30; Capstone.height := 30;
  Capstone.artists := Capstone.init_artists [];
  Capstone.current_artist := "monet"%string;
  Capstone.cols := 3; Capstone.rows := 3;
  Capstone.scale := 15;
  Capstone.field := [[0; 0; 0]; [0; 0; 0]; [0; 0; 0]];
  Capstone.particles := [art_particle];
  Capstone.max_particles := 1;
  Capstone.t := 0;
  Capstone.z_offset := 0;
  Capstone.show_field := false;
  Capstone.show_trails := true;
  Capstone.show_info := true;
  Capstone.rng := O
|}.

(** A lesson 07 particle about to leave through the left edge. *)
Definition flow_particle_left : FlowFields.FlowParticle Q :=
  {| FlowFields.x := 1; FlowFields.y := 10;
     FlowFields.prev_x := 4; FlowFields.prev_y := 10;
     FlowFields.vx := -3; FlowFields.vy := 0;
     FlowFields.max_speed := 3; FlowFields.col := (142, 178, 197)%Z |}.

(** py5 with a generator stuck at [1/400]: every lifespan drawn is
    [100.5]. *)
Definition flat_short_lived : Py5 Q := Q_py5_flat (1 # 2) (1 # 400).

(** The globals of the capstone, with a pool of one particle. *)
Definition capstone_globals_one : Capstone.sketch Q := {|
  Capstone.width := 0; Capstone.height := 0;
  Capstone.artists := [];
  Capstone.current_artist := "monet"%string;
  Capstone.cols := 0; Capstone.rows := 0;
  Capstone.scale := 15;
  Capstone.field := [];
  Capstone.particles := [];
  Capstone.max_particles := 1;
  Capstone.t := 0;
  Capstone.z_offset := 0;
  Capstone.show_field := false;
  Capstone.show_trails := true;
  Capstone.show_info := true;
  Capstone.rng := O
|}.

(** The globals of lesson 07, with a pool of one particle. *)
Definition flow_globals_one : FlowFields.sketch Q := {|
  FlowFields.width := 0; FlowFields.height := 0;
  FlowFields.cols := 0; FlowFields.rows := 0;
  FlowFields.scale := 20;
  FlowFields.field := [];
  FlowFields.particles := [];
  FlowFields.num_particles := 1;
  FlowFields.z_offset := 0;
  FlowFields.show_field := false;
  FlowFields.show_trails := true;
  FlowFields.palette := [];
  FlowFields.rng := O
|}.

(** The same two sketches over the reals, with a grid of one cell holding
    the angle [1]. *)
Definition real_py5 : Py5 R := R_py5 (fun _ _ _ => 0%R) (fun _ => 0%R).

Definition real_flow_particle : FlowFields.FlowParticle R :=
  {| FlowFields.x := 5%R; FlowFields.y := 7%R;
     FlowFields.prev_x := 5%R; FlowFields.prev_y := 7%R;
     FlowFields.vx := 0%R; FlowFields.vy := 0%R;
     FlowFields.max_speed := 3%R; FlowFields.col := (142, 178, 197)%Z |}.

Definition real_flow : FlowFields.sketch R := {|
  FlowFields.width := 10; FlowFields.height := 10;
  FlowFields.cols := 1; FlowFields.rows := 1;
  FlowFields.scale := 20;
  FlowFields.field := [[1%R]];
  FlowFields.particles := [real_flow_particle];
  FlowFields.num_particles := 1;
  FlowFields.z_offset := 0%R;
  FlowFields.show_field := false;
  FlowFields.show_trails := true;
  FlowFields.palette := FlowFields.the_palette;
  FlowFields.rng := O
|}.

Definition real_art_particle : Capstone.ArtParticle R :=
  {| Capstone.x := 5%R; Capstone.y := 7%R;
     Capstone.prev_x := 5%R; Capstone.prev_y := 7%R;
     Capstone.vx := 0%R; Capstone.vy := 0%R;
     Capstone.col := (142, 178, 197)%Z;
     Capstone.max_speed := 2%R; Capstone.stroke_weight := 1%R;
     Capstone.lifespan := 150%R; Capstone.age := 7 |}.

Definition real_capstone : Capstone.sketch R := {|
  Capstone.width := 10; Capstone.height := 10;
  Capstone.artists := [];
  Capstone.current_artist := "monet"%string;
  Capstone.cols := 1; Capstone.rows := 1;
  Capstone.scale := 15;
  Capstone.field := [[1%R]];
  Capstone.particles := [real_art_particle];
  Capstone.max_particles := 1;
  Capstone.t := 0%R;
  Capstone.z_offset := 0%R;
  Capstone.show_field := false;
  Capstone.show_trails := true;
  Capstone.show_info := true;
  Capstone.rng := O
|}.

(** The same two sketches in binary64, with a grid of one cell holding
    the angle [3.0] and a particle of speed [2.0]. *)
Definition binary64_flow_particle : FlowFields.FlowParticle PrimFloat.float :=
  {| FlowFields.x := B64_of_int 5; FlowFields.y := B64_of_int 7;
     FlowFields.prev_x := B64_of_int 5; FlowFields.prev_y := B64_of_int 7;
     FlowFields.vx := B64_of_int 0; FlowFields.vy := B64_of_int 0;
     FlowFields.max_speed := B64_of_int 2;
     FlowFields.col := (142, 178, 197)%Z |}.

Definition binary64_flow : FlowFields.sketch PrimFloat.float := {|
  FlowFields.width := 10; FlowFields.height := 10;
  FlowFields.cols := 1; FlowFields.rows := 1;
  FlowFields.scale := 20;
  FlowFields.field := [[B64_of_int 3]];
  FlowFields.particles := [binary64_flow_particle];
  FlowFields.num_particles := 1;
  FlowFields.z_offset := B64_of_int 0;
  FlowFields.show_field := false;
  FlowFields.show_trails := true;
  FlowFields.palette := FlowFields.the_palette;
  FlowFields.rng := O
|}.

Definition binary64_art_particle : Capstone.ArtParticle PrimFloat.float :=
  {| Capstone.x := B64_of_int 5; Capstone.y := B64_of_int 7;
     Capstone.prev_x := B64_of_int 5; Capstone.prev_y := B64_of_int 7;
     Capstone.vx := B64_of_int 0; Capstone.vy := B64_of_int 0;
     Capstone.col := (142, 178, 197)%Z;
     Capstone.max_speed := B64_of_int 2;
     Capstone.stroke_weight := B64_of_int 1;
     Capstone.lifespan := B64_of_int 150; Capstone.age := 7 |}.

Definition binary64_capstone : Capstone.sketch PrimFloat.float := {|
  Capstone.width := 10; Capstone.height := 10;
  Capstone.artists := [];
  Capstone.current_artist := "monet"%string;
  Capstone.cols := 1; Capstone.rows := 1;
  Capstone.scale := 15;
  Capstone.field := [[B64_of_int 3]];
  Capstone.particles := [binary64_art_particle];
  Capstone.max_particles := 1;
  Capstone.t := B64_of_int 0;
  Capstone.z_offset := B64_of_int 0;
  Capstone.show_field := false;
  Capstone.show_trails := true;
  Capstone.show_info := true;
  Capstone.rng := O
|}.

End Fixtures.

(** ** The event loop, and what further properties speak about *)

(** What py5 asks of a running sketch: the next frame, or the handling of a
    key press (with the clock or frame number the handler may read). *)
Inductive input : Type :=
| Frame
| Key (key : string) (clock : Z).

Module CapstoneSession.
Import Capstone.
Section Loop.
Context {F : Type} {num : Num F} {py5 : Py5 F}.
Local Open Scope result_scope.

(** One call of py5 into the sketch. *)
Definition handle (i : input) (s : sketch F)
  : result (sketch F * list (draw_cmd F) * list event) :=
  match i with
  | Frame => '(s', out) <- draw s ;; Ok (s', out, [])
  | Key key clock => '(s', ev) <- key_pressed key clock s ;; Ok (s', [], ev)
  end.

(** The calls of a session, one after the other, until one raises. *)
Fixpoint session (inputs : list input) (s : sketch F)
  : result (sketch F * list (draw_cmd F) * list event) :=
  match inputs with
  | [] => Ok (s, [], [])
  | i :: rest =>
      '(s1, out1, ev1) <- handle i s ;;
      '(s2, out2, ev2) <- session rest s1 ;;
      Ok (s2, out1 ++ out2, ev1 ++ ev2)
  end.

End Loop.
End CapstoneSession.

Module FlowSession.
Import FlowFields.
Section Loop.
Context {F : Type} {num : Num F} {py5 : Py5 F}.
Local Open Scope result_scope.

(** One call of py5 into the sketch. *)
Definition handle (i : input) (s : sketch F)
  : result (sketch F * list (draw_cmd F) * list event) :=
  match i with
  | Frame => '(s', out) <- draw s ;; Ok (s', out, [])
  | Key key clock => '(s', ev) <- key_pressed key clock s ;; Ok (s', [], ev)
  end.

(** The calls of a session, one after the other, until one raises. *)
Fixpoint session (inputs : list input) (s : sketch F)
  : result (sketch F * list (draw_cmd F) * list event) :=
  match inputs with
  | [] => Ok (s, [], [])
  | i :: rest =>
      '(s1, out1, ev1) <- handle i s ;;
      '(s2, out2, ev2) <- session rest s1 ;;
      Ok (s2, out1 ++ out2, ev1 ++ ev2)
  end.

End Loop.
End FlowSession.

(** One axis of one [update], case by case: [c] and [v] are the coordinate
    and the velocity before, [c'] and [prev'] the coordinate and the stored
    previous coordinate after. *)
Definition moved_or_wrapped (extent : Z) (c v c' prev' : Q) : Prop :=
  ((c + v < 0)%Q -> c' = inject_Z extent /\ prev' = inject_Z extent) /\
  ((0 <= c + v)%Q -> (inject_Z extent < c + v)%Q -> c' = 0%Q /\ prev' = 0%Q) /\
  ((0 <= c + v)%Q -> (c + v <= inject_Z extent)%Q ->
   c' = (c + v)%Q /\ prev' = c).

(** The cell [(i, j)] of a grid, for reading where no index can be out of
    range. *)
Definition cell {F : Type} {num : Num F} (field : list (list F)) (i j : Z) : F :=
  nth (Z.to_nat j) (nth (Z.to_nat i) field []) (of_int 0).

(** No blank in a string. *)
Fixpoint no_space (s : string) : Prop :=
  match s with
  | EmptyString => True
  | String c s' => c <> " "%char /\ no_space s'
  end.

(** A capstone particle that carries what a profile allows. *)
Definition within_profile (artist : Capstone.profile Q)
  (p : Capstone.ArtParticle Q) : Prop :=
  In (Capstone.col p) (Capstone.palette artist) /\
  (fst (Capstone.speed_range artist) <= Capstone.max_speed p
   <= snd (Capstone.speed_range artist))%Q /\
  (fst (Capstone.stroke_weight_range artist) <= Capstone.stroke_weight p
   <= snd (Capstone.stroke_weight_range artist))%Q /\
  (Capstone.lifespan p < 300)%Q.

(** A profile [reset] can work with. *)
Definition usable_profile (artist : Capstone.profile Q) : Prop :=
  Capstone.palette artist <> [] /\
  (0 <= Capstone.opacity artist)%Q /\
  (fst (Capstone.speed_range artist) <= snd (Capstone.speed_range artist))%Q /\
  (fst (Capstone.stroke_weight_range artist)
   <= snd (Capstone.stroke_weight_range artist))%Q.

(** The four keys of [init_artists] are bound to usable profiles. *)
Definition stocked (artists : list (string * Capstone.profile Q)) : Prop :=
  forall key, builtin_artist key ->
    exists artist, dict_get artists key = Ok artist /\ usable_profile artist.

(** What holds of the capstone between any two calls of py5. *)
Definition steady (s : Capstone.sketch Q) : Prop :=
  stocked (Capstone.artists s) /\
  exists artist,
    CapstoneInv.ready s artist /\ usable_profile artist /\
    Forall (within_profile artist) (Capstone.particles s) /\
    length (Capstone.particles s) = Z.to_nat (Capstone.max_particles s).

(** A lesson 07 particle as the constructor makes it, for good. *)
Definition flow_within (pal : list color) (p : FlowFields.FlowParticle Q) : Prop :=
  In (FlowFields.col p) pal /\ (2 <= FlowFields.max_speed p < 4)%Q.

(** What holds of lesson 07 between any two calls of py5. *)
Definition flow_steady (s : FlowFields.sketch Q) : Prop :=
  FlowInv.ready s /\ FlowFields.palette s <> [] /\
  Forall (flow_within (FlowFields.palette s)) (FlowFields.particles s) /\
  length (FlowFields.particles s) = Z.to_nat (FlowFields.num_particles s).

(** The canvas, the grid dimensions and the pool size are the same in two
    states of the capstone. *)
Definition same_canvas (s s' : Capstone.sketch Q) : Prop :=
  Capstone.width s' = Capstone.width s /\
  Capstone.height s' = Capstone.height s /\
  Capstone.max_particles s' = Capstone.max_particles s /\
  Capstone.cols s' = Capstone.cols s /\ Capstone.rows s' = Capstone.rows s /\
  Capstone.scale s' = Capstone.scale s.

(** The same for lesson 07, with the palette. *)
Definition flow_same_canvas (s s' : FlowFields.sketch Q) : Prop :=
  FlowFields.width s' = FlowFields.width s /\
  FlowFields.height s' = FlowFields.height s /\
  FlowFields.num_particles s' = FlowFields.num_particles s /\
  FlowFields.cols s' = FlowFields.cols s /\
  FlowFields.rows s' = FlowFields.rows s /\
  FlowFields.scale s' = FlowFields.scale s /\
  FlowFields.palette s' = FlowFields.palette s.

(** What one frame of the capstone makes of the particle [p] in a slot of
    the pool, [q] being what the slot holds afterwards: the particle is
    steered and moved, and when that leaves it dead the slot gets a
    particle fresh from the constructor for the artist.  [s] carries the
    canvas and the grid of that frame. *)
Definition moved_or_replaced {F : Type} {num : Num F} {py5 : Py5 F}
  (s : Capstone.sketch F) (artist : Capstone.profile F)
  (p q : Capstone.ArtParticle F) : Prop :=
  exists p1,
    Capstone.follow s p (Capstone.field s) = Ok p1 /\
    if Capstone.is_dead (Capstone.update s p1)
    then exists k k',
           Capstone.reset (Capstone.width s) (Capstone.height s) artist k
           = Ok (q, k')
    else q = Capstone.update s p1.

(** ** More concrete inputs *)

Module Scenes.
Local Open Scope Q_scope.

(** A profile whose palette is empty. *)
Definition bare_profile : Capstone.profile Q := {|
  Capstone.name := "Nobody"; Capstone.movement := "None";
  Capstone.palette := [];
  Capstone.background := (0, 0, 0)%Z;
  Capstone.speed_range := (1, 2);
  Capstone.stroke_weight_range := (1, 2);
  Capstone.opacity := 100;
  Capstone.flow_scale := 1 # 100;
  Capstone.flow_multiplier := 1
|}.

(** The capstone fixture with that profile added under the key [bare]. *)
Definition with_bare : Capstone.sketch Q := {|
  Capstone.width := 30; Capstone.height := 30;
  Capstone.artists := dict_set (Capstone.init_artists []) "bare" bare_profile;
  Capstone.current_artist := "monet"%string;
  Capstone.cols := 3; Capstone.rows := 3;
  Capstone.scale := 15;
  Capstone.field := [[0; 0; 0]; [0; 0; 0]; [0; 0; 0]];
  Capstone.particles := [Fixtures.art_particle];
  Capstone.max_particles := 1;
  Capstone.t := 0;
  Capstone.z_offset := 0;
  Capstone.show_field := false;
  Capstone.show_trails := true;
  Capstone.show_info := true;
  Capstone.rng := O
|}.

(** Frames with key presses in between: a switch of artist, a reset, the
    overlay, a save, and a key without a meaning. *)
Definition inputs : list input :=
  [Frame; Key "2" 10; Frame; Key "r" 20; Key "f" 30; Frame; Key "s" 40;
   Key "x" 50; Key "t" 60; Frame].

End Scenes.

(** * Proofs *)

(** ** Lists, ranges and loops *)

Section ListFacts.
Context {A : Type}.

Lemma getitem_in_range (l : list A) (i : Z) :
  0 <= i < Z.of_nat (length l) ->
  exists a, getitem l i = Ok a /\ nth_error l (Z.to_nat i) = Some a.
Proof.
  intros Hi. unfold getitem.
  destruct (Z.ltb_spec i 0) as [Hneg | _]; [lia |].
  destruct (Z.ltb_spec i 0) as [Hneg | _]; [lia |].
  destruct (Z.leb_spec (Z.of_nat (length l)) i) as [Hbig | _]; [lia |].
  cbn [orb].
  destruct (nth_error l (Z.to_nat i)) eqn:E.
  - exists a. split; reflexivity.
  - apply nth_error_None in E. lia.
Qed.

Lemma getitem_nth_error (l : list A) (k : nat) (a : A) :
  nth_error l k = Some a -> getitem l (Z.of_nat k) = Ok a.
Proof.
  intros E.
  assert (Hk : (k < length l)%nat) by (apply nth_error_Some; congruence).
  destruct (getitem_in_range l (Z.of_nat k)) as [b [Hb Hn]]; [lia |].
  rewrite Nat2Z.id in Hn. congruence.
Qed.

Lemma replace_nth_length (l : list A) (k : nat) (a : A) :
  length (replace_nth l k a) = length l.
Proof.
  revert k. induction l as [| b l IH]; intros [| k]; cbn; auto.
Qed.

Lemma replace_nth_same (l : list A) (k : nat) (a : A) :
  (k < length l)%nat -> nth_error (replace_nth l k a) k = Some a.
Proof.
  revert k. induction l as [| b l IH]; intros [| k] Hk; cbn in *; try lia.
  - reflexivity.
  - apply IH. lia.
Qed.

Lemma replace_nth_other (l : list A) (k k' : nat) (a : A) :
  k <> k' -> nth_error (replace_nth l k a) k' = nth_error l k'.
Proof.
  revert k k'. induction l as [| b l IH]; intros [| k] [| k'] Hk; cbn;
    try reflexivity; try congruence.
  apply IH. congruence.
Qed.

Lemma replace_nth_app (pre post : list A) (b a : A) (k : nat) :
  length pre = k ->
  replace_nth (pre ++ b :: post) k a = pre ++ a :: post.
Proof.
  intros <-.
  induction pre as [| c pre IH]; cbn; [reflexivity | now rewrite IH].
Qed.

Lemma setitem_in_range (l : list A) (i : Z) (a : A) :
  0 <= i < Z.of_nat (length l) ->
  setitem l i a = Ok (replace_nth l (Z.to_nat i) a).
Proof.
  intros Hi. unfold setitem.
  destruct (Z.ltb_spec i 0) as [Hneg | _]; [lia |].
  destruct (Z.ltb_spec i 0) as [Hneg | _]; [lia |].
  destruct (Z.leb_spec (Z.of_nat (length l)) i) as [Hbig | _]; [lia |].
  reflexivity.
Qed.

Lemma setitem_length (l l' : list A) (i : Z) (a : A) :
  setitem l i a = Ok l' -> length l' = length l.
Proof.
  unfold setitem. destruct (_ || _); [discriminate |].
  intros E. injection E as <-. apply replace_nth_length.
Qed.

Lemma Forall_replace_nth (P : A -> Prop) (l : list A) (k : nat) (a : A) :
  Forall P l -> P a -> Forall P (replace_nth l k a).
Proof.
  intros Hl Ha. revert k.
  induction Hl as [| b l Hb Hl IH]; intros [| k]; cbn; auto.
Qed.

End ListFacts.

Lemma range_length (n : Z) : length (range n) = Z.to_nat n.
Proof. unfold range. now rewrite length_map, length_seq. Qed.

Lemma range_succ (n : Z) : 0 <= n -> range (n + 1) = range n ++ [n].
Proof.
  intros Hn. unfold range.
  replace (Z.to_nat (n + 1)) with (S (Z.to_nat n)) by lia.
  rewrite seq_S, map_app. cbn. now rewrite Z2Nat.id.
Qed.

Lemma range_nonpos (n : Z) : n <= 0 -> range n = [].
Proof.
  intros Hn. unfold range. now replace (Z.to_nat n) with O by lia.
Qed.

Lemma range_bounds (n i : Z) : In i (range n) -> 0 <= i < n.
Proof.
  unfold range. rewrite in_map_iff. intros [k [<- Hk]].
  apply in_seq in Hk. lia.
Qed.

Lemma range_step2_bounds (n i : Z) : In i (range_step2 n) -> 0 <= i < n.
Proof.
  unfold range_step2. rewrite in_map_iff. intros [k [<- Hk]].
  apply in_seq in Hk.
  assert (H : 0 < (n + 1) / 2) by lia.
  assert (Z.of_nat k < (n + 1) / 2) by lia.
  assert (2 * ((n + 1) / 2) <= n + 1) by (apply Z.mul_div_le; lia).
  lia.
Qed.

Lemma for_each_app {A S : Type} (l1 l2 : list A) (body : S -> A -> result S)
  (acc : S) :
  for_each (l1 ++ l2) body acc = bind (for_each l1 body acc) (for_each l2 body).
Proof.
  revert acc. induction l1 as [| a l1 IH]; intros acc; cbn; [reflexivity |].
  destruct (body acc a); cbn; [apply IH | reflexivity].
Qed.

Lemma for_each_single {A S : Type} (a : A) (body : S -> A -> result S) (acc : S) :
  for_each [a] body acc = body acc a.
Proof. cbn. now destruct (body acc a). Qed.

(** A loop keeps what every round keeps, when no round can raise. *)
Lemma for_each_invariant {A S : Type} (I : S -> Prop) (l : list A)
  (body : S -> A -> result S) (acc : S) :
  (forall acc a, In a l -> I acc -> exists acc', body acc a = Ok acc' /\ I acc') ->
  I acc ->
  exists acc', for_each l body acc = Ok acc' /\ I acc'.
Proof.
  revert acc. induction l as [| a l IH]; intros acc Hbody Hacc; cbn.
  - exists acc. auto.
  - destruct (Hbody acc a) as [acc1 [E1 H1]]; [now left | assumption |].
    rewrite E1. cbn. apply IH; [| assumption].
    intros acc0 a0 Hin. apply Hbody. now right.
Qed.

(** The same for a loop that may raise: whatever it returns is kept. *)
Lemma for_each_preserves {A S : Type} (I : S -> Prop) (l : list A)
  (body : S -> A -> result S) (acc acc' : S) :
  (forall acc a acc', I acc -> body acc a = Ok acc' -> I acc') ->
  I acc ->
  for_each l body acc = Ok acc' ->
  I acc'.
Proof.
  intros Hbody. revert acc. induction l as [| a l IH]; intros acc Hacc; cbn.
  - intros E. injection E as <-. assumption.
  - destruct (body acc a) as [acc1 |] eqn:E1; cbn; [| discriminate].
    apply IH. eapply Hbody; eassumption.
Qed.

(** ** Filling the grid in place *)

Section GridFacts.
Context {F : Type}.

Lemma skipn_nth_error (A : Type) (l : list A) (m : nat) (a : A) :
  nth_error l m = Some a -> skipn m l = a :: skipn (S m) l.
Proof.
  revert m. induction l as [| b l IH]; intros [| m] E; cbn in *;
    try discriminate.
  - now injection E as ->.
  - now apply IH.
Qed.

Lemma replace_nth_id (A : Type) (l : list A) (k : nat) (a : A) :
  nth_error l k = Some a -> replace_nth l k a = l.
Proof.
  revert k. induction l as [| b l IH]; intros [| k] E; cbn in *;
    try discriminate.
  - now injection E as ->.
  - now rewrite IH.
Qed.

Lemma replace_nth_twice (A : Type) (l : list A) (k : nat) (a b : A) :
  replace_nth (replace_nth l k a) k b = replace_nth l k b.
Proof.
  revert k. induction l as [| c l IH]; intros [| k]; cbn; auto.
  now rewrite IH.
Qed.

(** The inner loop [for j in range(rows): field[i][j] = g(j)] rewrites
    column [i], cell by cell from the front. *)
Lemma fill_column_prefix (g : Z -> F) (field : list (list F)) (i : nat)
  (column : list F) (m : nat) :
  nth_error field i = Some column ->
  (m <= length column)%nat ->
  for_each (range (Z.of_nat m))
    (fun field j => setitem2 field (Z.of_nat i) j (g j)) field
  = Ok (replace_nth field i (map g (range (Z.of_nat m)) ++ skipn m column)).
Proof.
  intros Hcol. induction m as [| m IH]; intros Hm.
  - cbn. now rewrite replace_nth_id.
  - replace (Z.of_nat (S m)) with (Z.of_nat m + 1) by lia.
    rewrite range_succ, for_each_app, IH by lia.
    cbn [bind]. rewrite for_each_single.
    assert (Hi : (i < length field)%nat) by (apply nth_error_Some; congruence).
    destruct (nth_error column m) as [b |] eqn:Eb;
      [| apply nth_error_None in Eb; lia].
    unfold setitem2.
    rewrite (getitem_nth_error _ i (map g (range (Z.of_nat m)) ++ skipn m column))
      by (apply replace_nth_same; exact Hi).
    cbn [bind].
    rewrite (skipn_nth_error _ _ _ _ Eb).
    assert (Hlen : length (map g (range (Z.of_nat m))) = m)
      by (rewrite length_map, range_length; lia).
    rewrite setitem_in_range
      by (rewrite length_app, Hlen; cbn [length]; lia).
    cbn [bind].
    rewrite setitem_in_range by (rewrite replace_nth_length; lia).
    rewrite !Nat2Z.id, replace_nth_twice.
    rewrite replace_nth_app by exact Hlen.
    rewrite map_app, <- app_assoc. reflexivity.
Qed.

Lemma fill_column (g : Z -> F) (field : list (list F)) (i : nat)
  (column : list F) (rows : nat) :
  nth_error field i = Some column ->
  length column = rows ->
  for_each (range (Z.of_nat rows))
    (fun field j => setitem2 field (Z.of_nat i) j (g j)) field
  = Ok (replace_nth field i (map g (range (Z.of_nat rows)))).
Proof.
  intros Hcol <-.
  rewrite (fill_column_prefix g field i column (length column) Hcol) by lia.
  now rewrite skipn_all, app_nil_r.
Qed.

(** The two nested loops of [update_field] on a well-shaped grid: every
    cell [(i, j)] ends up holding [g i j]. *)
Lemma fill_grid_prefix (g : Z -> Z -> F) (rows : nat) (field : list (list F))
  (m : nat) :
  Forall (fun column => length column = rows) field ->
  (m <= length field)%nat ->
  for_each (range (Z.of_nat m))
    (fun field i =>
       for_each (range (Z.of_nat rows))
         (fun field j => setitem2 field i j (g i j)) field)
    field
  = Ok (map (fun i => map (g i) (range (Z.of_nat rows))) (range (Z.of_nat m))
        ++ skipn m field).
Proof.
  intros Hshape. induction m as [| m IH]; intros Hm.
  - reflexivity.
  - replace (Z.of_nat (S m)) with (Z.of_nat m + 1) by lia.
    rewrite range_succ, for_each_app, IH by lia. cbn [bind].
    destruct (nth_error field m) as [column |] eqn:Ecol;
      [| apply nth_error_None in Ecol; lia].
    assert (Hrows : length column = rows).
    { rewrite Forall_forall in Hshape. apply Hshape.
      eapply nth_error_In; eassumption. }
    rewrite (skipn_nth_error _ _ _ _ Ecol).
    set (pre := map _ (range (Z.of_nat m))).
    assert (Hlen : length pre = m)
      by (unfold pre; rewrite length_map, range_length; lia).
    assert (Hnth : nth_error (pre ++ column :: skipn (S m) field) m = Some column)
      by (rewrite nth_error_app2, Hlen, Nat.sub_diag by lia; reflexivity).
    rewrite for_each_single.
    rewrite (fill_column (g (Z.of_nat m)) _ m column rows Hnth Hrows).
    rewrite replace_nth_app by exact Hlen.
    rewrite map_app, <- app_assoc. reflexivity.
Qed.

Lemma fill_grid (g : Z -> Z -> F) (cols rows : Z) (field : list (list F)) :
  well_shaped cols rows field ->
  for_each (range cols)
    (fun field i =>
       for_each (range rows)
         (fun field j => setitem2 field i j (g i j)) field)
    field
  = Ok (map (fun i => map (g i) (range rows)) (range cols)).
Proof.
  intros [Hlen Hshape].
  assert (Hr : range rows = range (Z.of_nat (Z.to_nat rows)))
    by (unfold range; now rewrite Nat2Z.id).
  assert (Hc : range cols = range (Z.of_nat (Z.to_nat cols)))
    by (unfold range; now rewrite Nat2Z.id).
  rewrite Hr, Hc.
  rewrite (fill_grid_prefix g (Z.to_nat rows) field (Z.to_nat cols) Hshape)
    by lia.
  now rewrite <- Hlen, skipn_all, app_nil_r.
Qed.

Lemma well_shaped_map (g : Z -> Z -> F) (cols rows : Z) :
  well_shaped cols rows (map (fun i => map (g i) (range rows)) (range cols)).
Proof.
  split.
  - now rewrite length_map, range_length.
  - apply Forall_forall. intros column Hin.
    apply in_map_iff in Hin. destruct Hin as [i [<- _]].
    now rewrite length_map, range_length.
Qed.

Lemma range_nth_error (n i : Z) :
  0 <= i < n -> nth_error (range n) (Z.to_nat i) = Some i.
Proof.
  intros Hi. unfold range.
  rewrite nth_error_map, nth_error_seq.
  destruct (Nat.ltb_spec (Z.to_nat i) (Z.to_nat n)); [| lia].
  cbn. f_equal. lia.
Qed.

(** Reading a cell of a grid built cell by cell. *)
Lemma getitem2_map (g : Z -> Z -> F) (cols rows i j : Z) :
  0 <= i < cols -> 0 <= j < rows ->
  getitem2 (map (fun i => map (g i) (range rows)) (range cols)) i j
  = Ok (g i j).
Proof.
  intros Hi Hj. unfold getitem2.
  replace i with (Z.of_nat (Z.to_nat i)) at 1 by lia.
  erewrite getitem_nth_error
    by (rewrite nth_error_map, range_nth_error by lia; reflexivity).
  cbn [bind].
  replace j with (Z.of_nat (Z.to_nat j)) at 1 by lia.
  erewrite getitem_nth_error
    by (rewrite nth_error_map, range_nth_error by lia; reflexivity).
  reflexivity.
Qed.

(** Reading any cell inside a well-shaped grid succeeds. *)
Lemma getitem2_in_range (cols rows : Z) (field : list (list F)) (i j : Z) :
  well_shaped cols rows field ->
  0 <= i < cols -> 0 <= j < rows ->
  exists column a,
    nth_error field (Z.to_nat i) = Some column /\
    nth_error column (Z.to_nat j) = Some a /\
    getitem2 field i j = Ok a.
Proof.
  intros [Hlen Hshape] Hi Hj.
  destruct (getitem_in_range field i) as [column [Ec Hc]]; [lia |].
  assert (Hrows : length column = Z.to_nat rows).
  { rewrite Forall_forall in Hshape. apply Hshape.
    eapply nth_error_In; eassumption. }
  destruct (getitem_in_range column j) as [a [Ea Ha]]; [lia |].
  exists column, a. unfold getitem2. rewrite Ec. cbn [bind]. auto.
Qed.

Lemma constrain_bounds (amt low high : Z) :
  low <= high -> low <= constrain amt low high <= high.
Proof.
  intros H. unfold constrain.
  destruct (Z.ltb_spec amt low); [lia |].
  destruct (Z.ltb_spec high amt); lia.
Qed.

Lemma constrain_inside (amt low high : Z) :
  low <= amt <= high -> constrain amt low high = amt.
Proof.
  intros H. unfold constrain.
  destruct (Z.ltb_spec amt low); [lia |].
  destruct (Z.ltb_spec high amt); lia.
Qed.

End GridFacts.

(** ** The flow grid, for any number system *)

Section FlowGrid.
Context {F : Type} {num : Num F} {py5 : Py5 F}.

(** C1.  [update_field] runs to completion on a well-shaped grid, keeps its
    shape, and leaves in every cell [(i, j)] the angle
    [noise(i * noise_scale, j * noise_scale, z_offset) * TWO_PI * multiplier]:
    in lesson 07 with [noise_scale = 0.1] and [multiplier = 2], in the
    capstone with [i * flow_scale * 10] as the sketch writes it and the
    profile's [flow_multiplier]. *)
Theorem update_field_sets_every_cell
  (sf : FlowFields.sketch F) (sc : Capstone.sketch F)
  (artist : Capstone.profile F) :
  well_shaped (FlowFields.cols sf) (FlowFields.rows sf) (FlowFields.field sf) ->
  well_shaped (Capstone.cols sc) (Capstone.rows sc) (Capstone.field sc) ->
  (exists field',
      FlowFields.update_field sf = Ok field' /\
      well_shaped (FlowFields.cols sf) (FlowFields.rows sf) field' /\
      forall i j, 0 <= i < FlowFields.cols sf -> 0 <= j < FlowFields.rows sf ->
        let noise_scale := fdiv (of_int 1) (of_int 10) in
        getitem2 field' i j =
        Ok (fmul (fmul (py5_noise (fmul (of_int i) noise_scale)
                                  (fmul (of_int j) noise_scale)
                                  (FlowFields.z_offset sf))
                       TWO_PI)
                 (of_int 2)))
  /\
  (exists field',
      Capstone.update_field sc artist = Ok field' /\
      well_shaped (Capstone.cols sc) (Capstone.rows sc) field' /\
      forall i j, 0 <= i < Capstone.cols sc -> 0 <= j < Capstone.rows sc ->
        getitem2 field' i j =
        Ok (fmul (fmul (py5_noise
                          (fmul (fmul (of_int i) (Capstone.flow_scale artist))
                                (of_int 10))
                          (fmul (fmul (of_int j) (Capstone.flow_scale artist))
                                (of_int 10))
                          (Capstone.z_offset sc))
                       TWO_PI)
                 (Capstone.flow_multiplier artist))).
Proof.
  intros Hf Hc. split.
  - eexists. split; [| split].
    + unfold FlowFields.update_field.
      apply (fill_grid (FlowFields.cell_angle (FlowFields.z_offset sf))).
      exact Hf.
    + apply well_shaped_map.
    + intros i j Hi Hj. cbv zeta.
      rewrite getitem2_map by assumption. reflexivity.
  - eexists. split; [| split].
    + unfold Capstone.update_field.
      apply (fill_grid (Capstone.cell_angle artist (Capstone.z_offset sc))).
      exact Hc.
    + apply well_shaped_map.
    + intros i j Hi Hj.
      rewrite getitem2_map by assumption. reflexivity.
Qed.

(** The cell that [follow] reads, for any pair of raw indices. *)
Lemma clamped_cell (cols rows : Z) (field : list (list F)) (a b : Z) :
  well_shaped cols rows field -> 1 <= cols -> 1 <= rows ->
  let ci := constrain a 0 (cols - 1) in
  let ri := constrain b 0 (rows - 1) in
  0 <= ci <= cols - 1 /\ 0 <= ri <= rows - 1 /\
  exists column angle,
    nth_error field (Z.to_nat ci) = Some column /\
    nth_error column (Z.to_nat ri) = Some angle /\
    getitem2 field ci ri = Ok angle.
Proof.
  intros Hshape Hc Hr ci ri.
  assert (Hci : 0 <= ci <= cols - 1) by (apply constrain_bounds; lia).
  assert (Hri : 0 <= ri <= rows - 1) by (apply constrain_bounds; lia).
  split; [exact Hci | split; [exact Hri |]].
  apply (getitem2_in_range cols rows); [assumption | lia | lia].
Qed.

Lemma flow_follow_total
  (sf : FlowFields.sketch F) (pf : FlowFields.FlowParticle F)
  (ff : list (list F)) :
  fis0 (of_int (FlowFields.scale sf)) = false ->
  1 <= FlowFields.cols sf -> 1 <= FlowFields.rows sf ->
  well_shaped (FlowFields.cols sf) (FlowFields.rows sf) ff ->
  let ci := constrain (to_int (fdiv (FlowFields.x pf)
                                    (of_int (FlowFields.scale sf))))
              0 (FlowFields.cols sf - 1) in
  let ri := constrain (to_int (fdiv (FlowFields.y pf)
                                    (of_int (FlowFields.scale sf))))
              0 (FlowFields.rows sf - 1) in
  0 <= ci <= FlowFields.cols sf - 1 /\ 0 <= ri <= FlowFields.rows sf - 1 /\
  exists column angle,
    nth_error ff (Z.to_nat ci) = Some column /\
    nth_error column (Z.to_nat ri) = Some angle /\
    FlowFields.follow sf pf ff =
    Ok {| FlowFields.x := FlowFields.x pf; FlowFields.y := FlowFields.y pf;
          FlowFields.prev_x := FlowFields.prev_x pf;
          FlowFields.prev_y := FlowFields.prev_y pf;
          FlowFields.vx := fmul (py5_cos angle) (FlowFields.max_speed pf);
          FlowFields.vy := fmul (py5_sin angle) (FlowFields.max_speed pf);
          FlowFields.max_speed := FlowFields.max_speed pf;
          FlowFields.col := FlowFields.col pf |}.
Proof.
  intros Hs Hc Hr Hsh. cbv zeta.
  destruct (clamped_cell _ _ ff
              (to_int (fdiv (FlowFields.x pf) (of_int (FlowFields.scale sf))))
              (to_int (fdiv (FlowFields.y pf) (of_int (FlowFields.scale sf))))
              Hsh Hc Hr)
    as [Hci [Hri [column [angle [Hn1 [Hn2 Hget]]]]]].
  split; [exact Hci | split; [exact Hri |]].
  exists column, angle.
  split; [exact Hn1 | split; [exact Hn2 |]].
  unfold FlowFields.follow, pydiv. rewrite Hs. cbn [bind].
  rewrite Hget. reflexivity.
Qed.

Lemma capstone_follow_total
  (sc : Capstone.sketch F) (pc : Capstone.ArtParticle F)
  (fc : list (list F)) :
  fis0 (of_int (Capstone.scale sc)) = false ->
  1 <= Capstone.cols sc -> 1 <= Capstone.rows sc ->
  well_shaped (Capstone.cols sc) (Capstone.rows sc) fc ->
  let ci := constrain (to_int (fdiv (Capstone.x pc)
                                    (of_int (Capstone.scale sc))))
              0 (Capstone.cols sc - 1) in
  let ri := constrain (to_int (fdiv (Capstone.y pc)
                                    (of_int (Capstone.scale sc))))
              0 (Capstone.rows sc - 1) in
  0 <= ci <= Capstone.cols sc - 1 /\ 0 <= ri <= Capstone.rows sc - 1 /\
  exists column angle,
    nth_error fc (Z.to_nat ci) = Some column /\
    nth_error column (Z.to_nat ri) = Some angle /\
    Capstone.follow sc pc fc =
    Ok {| Capstone.x := Capstone.x pc; Capstone.y := Capstone.y pc;
          Capstone.prev_x := Capstone.prev_x pc;
          Capstone.prev_y := Capstone.prev_y pc;
          Capstone.vx := fmul (py5_cos angle) (Capstone.max_speed pc);
          Capstone.vy := fmul (py5_sin angle) (Capstone.max_speed pc);
          Capstone.col := Capstone.col pc;
          Capstone.max_speed := Capstone.max_speed pc;
          Capstone.stroke_weight := Capstone.stroke_weight pc;
          Capstone.lifespan := Capstone.lifespan pc;
          Capstone.age := Capstone.age pc |}.
Proof.
  intros Hs Hc Hr Hsh. cbv zeta.
  destruct (clamped_cell _ _ fc
              (to_int (fdiv (Capstone.x pc) (of_int (Capstone.scale sc))))
              (to_int (fdiv (Capstone.y pc) (of_int (Capstone.scale sc))))
              Hsh Hc Hr)
    as [Hci [Hri [column [angle [Hn1 [Hn2 Hget]]]]]].
  split; [exact Hci | split; [exact Hri |]].
  exists column, angle.
  split; [exact Hn1 | split; [exact Hn2 |]].
  unfold Capstone.follow, pydiv. rewrite Hs. cbn [bind].
  rewrite Hget. reflexivity.
Qed.

(** C3.  Whatever the position of the particle, [follow] divides by the
    cell size, truncates, clamps the indices into [0, cols-1] and
    [0, rows-1], finds the cell of a well-shaped grid there without an
    [IndexError], and steers the particle by the angle stored in it. *)
Theorem follow_reads_clamped_cell
  (sf : FlowFields.sketch F) (pf : FlowFields.FlowParticle F)
  (sc : Capstone.sketch F) (pc : Capstone.ArtParticle F)
  (ff fc : list (list F)) :
  fis0 (of_int (FlowFields.scale sf)) = false ->
  1 <= FlowFields.cols sf -> 1 <= FlowFields.rows sf ->
  well_shaped (FlowFields.cols sf) (FlowFields.rows sf) ff ->
  fis0 (of_int (Capstone.scale sc)) = false ->
  1 <= Capstone.cols sc -> 1 <= Capstone.rows sc ->
  well_shaped (Capstone.cols sc) (Capstone.rows sc) fc ->
  (let ci := constrain (to_int (fdiv (FlowFields.x pf)
                                     (of_int (FlowFields.scale sf))))
               0 (FlowFields.cols sf - 1) in
   let ri := constrain (to_int (fdiv (FlowFields.y pf)
                                     (of_int (FlowFields.scale sf))))
               0 (FlowFields.rows sf - 1) in
   0 <= ci <= FlowFields.cols sf - 1 /\ 0 <= ri <= FlowFields.rows sf - 1 /\
   exists column angle p',
     nth_error ff (Z.to_nat ci) = Some column /\
     nth_error column (Z.to_nat ri) = Some angle /\
     FlowFields.follow sf pf ff = Ok p' /\
     FlowFields.vx p' = fmul (py5_cos angle) (FlowFields.max_speed pf) /\
     FlowFields.vy p' = fmul (py5_sin angle) (FlowFields.max_speed pf) /\
     FlowFields.x p' = FlowFields.x pf /\ FlowFields.y p' = FlowFields.y pf)
  /\
  (let ci := constrain (to_int (fdiv (Capstone.x pc)
                                     (of_int (Capstone.scale sc))))
               0 (Capstone.cols sc - 1) in
   let ri := constrain (to_int (fdiv (Capstone.y pc)
                                     (of_int (Capstone.scale sc))))
               0 (Capstone.rows sc - 1) in
   0 <= ci <= Capstone.cols sc - 1 /\ 0 <= ri <= Capstone.rows sc - 1 /\
   exists column angle p',
     nth_error fc (Z.to_nat ci) = Some column /\
     nth_error column (Z.to_nat ri) = Some angle /\
     Capstone.follow sc pc fc = Ok p' /\
     Capstone.vx p' = fmul (py5_cos angle) (Capstone.max_speed pc) /\
     Capstone.vy p' = fmul (py5_sin angle) (Capstone.max_speed pc) /\
     Capstone.x p' = Capstone.x pc /\ Capstone.y p' = Capstone.y pc).
Proof.
  intros Hsf Hcf Hrf Hshf Hsc Hcc Hrc Hshc. split.
  - destruct (flow_follow_total sf pf ff Hsf Hcf Hrf Hshf)
      as [Hci [Hri [column [angle [Hn1 [Hn2 Hfollow]]]]]].
    cbv zeta. split; [exact Hci | split; [exact Hri |]].
    exists column, angle. eexists.
    split; [exact Hn1 | split; [exact Hn2 | split; [exact Hfollow |]]].
    repeat split; reflexivity.
  - destruct (capstone_follow_total sc pc fc Hsc Hcc Hrc Hshc)
      as [Hci [Hri [column [angle [Hn1 [Hn2 Hfollow]]]]]].
    cbv zeta. split; [exact Hci | split; [exact Hri |]].
    exists column, angle. eexists.
    split; [exact Hn1 | split; [exact Hn2 | split; [exact Hfollow |]]].
    repeat split; reflexivity.
Qed.

End FlowGrid.

Lemma well_shaped_flow_fixture :
  well_shaped 3 3 (FlowFields.field Fixtures.flow).
Proof. split; [reflexivity | repeat constructor]. Qed.

Lemma well_shaped_capstone_fixture :
  well_shaped 3 3 (Capstone.field Fixtures.capstone).
Proof. split; [reflexivity | repeat constructor]. Qed.

Lemma update_field_sets_every_cell_witness :
  well_shaped 3 3 (FlowFields.field Fixtures.flow) /\
  well_shaped 3 3 (Capstone.field Fixtures.capstone) /\
  (exists field',
      @FlowFields.update_field Q Q_num Fixtures.flat Fixtures.flow = Ok field' /\
      getitem2 field' 2 1 = Ok ((1 # 2) * @TWO_PI Q Fixtures.flat * 2)%Q) /\
  (exists field',
      @Capstone.update_field Q Q_num Fixtures.flat Fixtures.capstone
        Capstone.monet = Ok field' /\
      getitem2 field' 2 1 = Ok ((1 # 2) * @TWO_PI Q Fixtures.flat * 1)%Q).
Proof.
  split; [exact well_shaped_flow_fixture |].
  split; [exact well_shaped_capstone_fixture |].
  destruct (@update_field_sets_every_cell Q Q_num Fixtures.flat
              Fixtures.flow Fixtures.capstone Capstone.monet
              well_shaped_flow_fixture well_shaped_capstone_fixture)
    as [[ff [Hff [_ Hcell]]] [fc [Hfc [_ Hcellc]]]].
  split.
  - exists ff. split; [exact Hff |]. apply (Hcell 2 1); cbn; lia.
  - exists fc. split; [exact Hfc |]. apply (Hcellc 2 1); cbn; lia.
Defined.

Lemma follow_reads_clamped_cell_witness :
  exists p' q',
    @FlowFields.follow Q Q_num Fixtures.flat Fixtures.flow
      Fixtures.flow_particle (FlowFields.field Fixtures.flow) = Ok p' /\
    @Capstone.follow Q Q_num Fixtures.flat Fixtures.capstone
      Fixtures.art_particle (Capstone.field Fixtures.capstone) = Ok q'.
Proof.
  destruct (@follow_reads_clamped_cell Q Q_num Fixtures.flat
              Fixtures.flow Fixtures.flow_particle
              Fixtures.capstone Fixtures.art_particle
              (FlowFields.field Fixtures.flow)
              (Capstone.field Fixtures.capstone))
    as [[_ [_ [_ [_ [p' [_ [_ [Hp _]]]]]]]] [_ [_ [_ [_ [q' [_ [_ [Hq _]]]]]]]]].
  - reflexivity.
  - cbn; lia.
  - cbn; lia.
  - exact well_shaped_flow_fixture.
  - reflexivity.
  - cbn; lia.
  - cbn; lia.
  - exact well_shaped_capstone_fixture.
  - exists p', q'. split; assumption.
Defined.

(** ** The wrap-around, for any number system *)

Section Wrap.
Context {F : Type} {num : Num F}.

(** Either neither [if] fires and nothing changes, or the coordinate and
    the previous coordinate leave equal, at [0] or at the extent. *)
Lemma wrap_cases (w : Z) (c prev : F) :
  (fltb c (of_int 0) = false /\ fgtb c (of_int w) = false /\
   wrap w c prev = (c, prev)) \/
  (exists v, wrap w c prev = (v, v) /\ (v = of_int 0 \/ v = of_int w)).
Proof.
  unfold wrap.
  destruct (fltb c (of_int 0)) eqn:E0.
  - right. destruct (fgtb (of_int w) (of_int w)); eauto.
  - destruct (fgtb c (of_int w)) eqn:E1.
    + right. eauto.
    + left. auto.
Qed.

Lemma wrap_fired (w : Z) (c prev : F) :
  fltb c (of_int 0) = true \/ fgtb c (of_int w) = true ->
  snd (wrap w c prev) = fst (wrap w c prev).
Proof.
  intros Hfire.
  destruct (wrap_cases w c prev) as [[E0 [E1 _]] | [v [E _]]].
  - destruct Hfire; congruence.
  - now rewrite E.
Qed.

End Wrap.

(** ** Rational arithmetic behind the interface *)

Section Rationals.
Local Open Scope Q_scope.

Lemma Q_fltb_true (a b : Q) : fltb a b = true <-> a < b.
Proof.
  cbn. rewrite Qlt_alt. destruct (a ?= b); split; congruence.
Qed.

Lemma Q_fltb_false (a b : Q) : fltb a b = false <-> b <= a.
Proof.
  rewrite <- Bool.not_true_iff_false, Q_fltb_true. split.
  - apply Qnot_lt_le.
  - apply Qle_not_lt.
Qed.

Lemma Q_fis0_true (q : Q) : fis0 q = true <-> q == 0.
Proof.
  cbn. rewrite Z.eqb_eq. unfold Qeq. cbn. lia.
Qed.

Lemma Q_fis0_false (q : Q) : fis0 q = false <-> ~ q == 0.
Proof.
  rewrite <- Bool.not_true_iff_false, Q_fis0_true. tauto.
Qed.

Lemma Q_fis0_of_int (z : Z) : fis0 (of_int z : Q) = (z =? 0)%Z.
Proof. reflexivity. Qed.

(** [int(q)] is the floor on the non-negative side. *)
Lemma Q_to_int_floor (q : Q) : 0 <= q -> to_int q = Qfloor q.
Proof.
  destruct q as [n d]. unfold Qle. cbn. intros Hq.
  apply Z.quot_div_nonneg; lia.
Qed.

Lemma Q_to_int_nonneg (q : Q) : 0 <= q -> (0 <= to_int q)%Z.
Proof.
  intros Hq. rewrite Q_to_int_floor by assumption.
  rewrite <- (Qfloor_Z 0). now apply Qfloor_resp_le.
Qed.

Lemma Q_to_int_mono (a b : Q) : 0 <= a -> a <= b -> (to_int a <= to_int b)%Z.
Proof.
  intros Ha Hab.
  rewrite !Q_to_int_floor by (try assumption; eapply Qle_trans; eassumption).
  now apply Qfloor_resp_le.
Qed.

(** [int(w / s)] on two ints is the integer quotient. *)
Lemma Q_to_int_div (w s : Z) :
  (0 <= w)%Z -> (0 < s)%Z ->
  to_int (fdiv (of_int w) (of_int s) : Q) = (w / s)%Z.
Proof.
  intros Hw Hs.
  rewrite Q_to_int_floor.
  - symmetry. apply Zdiv_Qdiv.
  - cbn. apply Qle_shift_div_l.
    + change 0 with (inject_Z 0). rewrite <- Zlt_Qlt. exact Hs.
    + rewrite Qmult_0_l. change 0 with (inject_Z 0). now rewrite <- Zle_Qle.
Qed.

(** One axis of the wrap keeps the coordinate on the closed canvas. *)
Lemma wrap_in_closed_box (w : Z) (c prev : Q) :
  (0 <= w)%Z ->
  0 <= fst (wrap w c prev) <= inject_Z w.
Proof.
  intros Hw.
  assert (Hw' : 0 <= inject_Z w)
    by (change 0 with (inject_Z 0); now rewrite <- Zle_Qle).
  destruct (wrap_cases w c prev) as [[E0 [E1 E]] | [v [E [-> | ->]]]];
    rewrite E; cbn [fst].
  - apply Q_fltb_false in E0. apply Q_fltb_false in E1. split; assumption.
  - split; [apply Qle_refl | exact Hw'].
  - split; [exact Hw' | apply Qle_refl].
Qed.

Lemma wrap_no_streak (w : Z) (c v : Q) :
  no_streak w c v (fst (wrap w (c + v) c)) (snd (wrap w (c + v) c)).
Proof.
  unfold no_streak. split; [| split].
  - intros Hout. apply (wrap_fired w (c + v) c).
    destruct Hout as [H | H]; [left | right]; now apply Q_fltb_true.
  - destruct (wrap_cases w (c + v) c) as [[_ [_ E]] | [u [E _]]];
      rewrite E; cbn [fst snd].
    + setoid_replace (c + v - c) with v by ring. apply Qle_refl.
    + setoid_replace (u - u) with 0 by ring. apply Qabs_nonneg.
  - intros Hw Hc Hv. unfold wrap.
    assert (Hcv : c + v == inject_Z w + 9) by (rewrite Hc, Hv; ring).
    assert (Hpos : 0 < inject_Z w)
      by (change 0 with (inject_Z 0); now rewrite <- Zlt_Qlt).
    assert (E0 : fltb (c + v) (of_int 0) = false).
    { apply Q_fltb_false. change (of_int 0) with 0. rewrite Hcv.
      revert Hpos. generalize (inject_Z w). intros W HW. Lqa.lra. }
    assert (E1 : fgtb (c + v) (of_int w) = true).
    { apply Q_fltb_true. change (of_int w) with (inject_Z w). rewrite Hcv.
      generalize (inject_Z w). intros W. Lqa.lra. }
    rewrite E0, E1. split; reflexivity.
Qed.

(** C2.  In both sketches and on both axes, [update] resets the previous
    coordinate to the wrapped one whenever the moved coordinate left the
    canvas, so the trail segment is never longer than the step; a particle
    one unit from the right (or bottom) edge moving at [+10] ends with
    both coordinates at [0]. *)
Theorem wrap_resets_previous_position
  (sf : FlowFields.sketch Q) (pf : FlowFields.FlowParticle Q)
  (sc : Capstone.sketch Q) (pc : Capstone.ArtParticle Q) :
  no_streak (FlowFields.width sf) (FlowFields.x pf) (FlowFields.vx pf)
    (FlowFields.x (FlowFields.update sf pf))
    (FlowFields.prev_x (FlowFields.update sf pf)) /\
  no_streak (FlowFields.height sf) (FlowFields.y pf) (FlowFields.vy pf)
    (FlowFields.y (FlowFields.update sf pf))
    (FlowFields.prev_y (FlowFields.update sf pf)) /\
  no_streak (Capstone.width sc) (Capstone.x pc) (Capstone.vx pc)
    (Capstone.x (Capstone.update sc pc))
    (Capstone.prev_x (Capstone.update sc pc)) /\
  no_streak (Capstone.height sc) (Capstone.y pc) (Capstone.vy pc)
    (Capstone.y (Capstone.update sc pc))
    (Capstone.prev_y (Capstone.update sc pc)).
Proof.
  pose proof (wrap_no_streak (FlowFields.width sf) (FlowFields.x pf)
                (FlowFields.vx pf)) as H1.
  pose proof (wrap_no_streak (FlowFields.height sf) (FlowFields.y pf)
                (FlowFields.vy pf)) as H2.
  pose proof (wrap_no_streak (Capstone.width sc) (Capstone.x pc)
                (Capstone.vx pc)) as H3.
  pose proof (wrap_no_streak (Capstone.height sc) (Capstone.y pc)
                (Capstone.vy pc)) as H4.
  unfold FlowFields.update, Capstone.update.
  cbn [fadd Q_num] in *.
  destruct (wrap (FlowFields.width sf) _ _), (wrap (FlowFields.height sf) _ _),
    (wrap (Capstone.width sc) _ _), (wrap (Capstone.height sc) _ _).
  cbn in *. auto.
Qed.

End Rationals.

(** ** Dicts and comprehensions *)

Lemma dict_get_set_same {A : Type} (d : list (string * A)) (key : string) (a : A) :
  dict_get (dict_set d key a) key = Ok a.
Proof.
  induction d as [| [k b] d IH]; cbn.
  - now rewrite String.eqb_refl.
  - destruct (String.eqb k key) eqn:E; cbn; rewrite E; [reflexivity | exact IH].
Qed.

Lemma dict_get_set_other {A : Type} (d : list (string * A)) (key key' : string)
  (a : A) :
  key <> key' -> dict_get (dict_set d key a) key' = dict_get d key'.
Proof.
  intros Hne. induction d as [| [k b] d IH]; cbn.
  - apply String.eqb_neq in Hne. now rewrite Hne.
  - destruct (String.eqb k key) eqn:E; cbn.
    + apply String.eqb_eq in E. subst k.
      apply String.eqb_neq in Hne. now rewrite Hne.
    + destruct (String.eqb k key'); [reflexivity | exact IH].
Qed.

Lemma comprehension_all {A : Type} (P : A -> Prop)
  (make : nat -> result (A * nat)) (n k : nat) :
  (forall k, exists a k', make k = Ok (a, k') /\ P a) ->
  exists l k', comprehension n make k = Ok (l, k') /\
               length l = n /\ Forall P l.
Proof.
  intros Hmake. revert k. induction n as [| n IH]; intros k; cbn.
  - exists [], k. repeat split. constructor.
  - destruct (Hmake k) as [a [k1 [E1 Ha]]]. rewrite E1.
    destruct (IH k1) as [l [k2 [E2 [Hlen Hl]]]]. rewrite E2.
    exists (a :: l), k2. cbn. repeat split; [congruence | now constructor].
Qed.

(** ** Samples of the generator *)

Section Samples.
Local Open Scope Q_scope.

Lemma Q_of_nonneg (z : Z) : (0 <= z)%Z -> 0 <= inject_Z z.
Proof. intros H. change 0 with (inject_Z 0). now rewrite <- Zle_Qle. Qed.

(** [py5.random(w)] lands on the canvas. *)
Lemma Q_scaled_sample (w : Z) (u : Q) :
  (0 <= w)%Z -> 0 <= u < 1 -> 0 <= inject_Z w * u <= inject_Z w.
Proof.
  intros Hw [Hu0 Hu1]. apply Q_of_nonneg in Hw.
  revert Hw. generalize (inject_Z w). intros W HW. split; Lqa.nra.
Qed.

(** [int(py5.random(len(palette)))] is an index of the palette. *)
Lemma Q_index_in_range (n : nat) (u : Q) :
  0 <= u < 1 -> n <> O ->
  (0 <= to_int (inject_Z (Z.of_nat n) * u)%Q < Z.of_nat n)%Z.
Proof.
  intros [Hu0 Hu1] Hn.
  assert (HN : 0 < inject_Z (Z.of_nat n))
    by (change 0 with (inject_Z 0); rewrite <- Zlt_Qlt; lia).
  assert (Hq0 : 0 <= inject_Z (Z.of_nat n) * u).
  { revert HN. generalize (inject_Z (Z.of_nat n)). intros N HN. Lqa.nra. }
  assert (Hq1 : inject_Z (Z.of_nat n) * u < inject_Z (Z.of_nat n)).
  { revert HN. generalize (inject_Z (Z.of_nat n)). intros N HN. Lqa.nra. }
  split; [now apply Q_to_int_nonneg |].
  rewrite Q_to_int_floor by assumption.
  rewrite Zlt_Qlt. eapply Qle_lt_trans; [apply Qfloor_le | exact Hq1].
Qed.

(** [py5.random(100, 300)] *)
Lemma Q_lifespan_sample (u : Q) :
  0 <= u < 1 -> 100 <= 100 + (300 - 100) * u < 300.
Proof. intros [Hu0 Hu1]. split; Lqa.lra. Qed.

End Samples.

(** ** The capstone, frame after frame *)

Section CapstoneRun.
Import Capstone CapstoneInv.
Context {py5 : Py5 Q}.
Hypothesis Hsamples : unit_samples py5.
Local Open Scope Q_scope.

(** A fresh particle is a good one. *)
Lemma reset_good (w h : Z) (artist : profile Q) (k : nat) :
  (0 <= w)%Z -> (0 <= h)%Z -> palette artist <> [] ->
  exists p k', reset w h artist k = Ok (p, k') /\ good_particle w h p.
Proof.
  intros Hw Hh Hpal. unfold reset, random1, random2.
  destruct (getitem_in_range (palette artist)
              (to_int (fmul (of_int (Z.of_nat (length (palette artist))))
                            (py5_uniform (S (S k))))))
    as [c [Ec _]].
  { apply Q_index_in_range; [apply Hsamples |].
    destruct (palette artist); [congruence | discriminate]. }
  rewrite Ec. cbn [bind]. eexists. eexists. split; [reflexivity |].
  repeat split; cbn.
  - apply Q_scaled_sample; [assumption | apply Hsamples].
  - apply Q_scaled_sample; [assumption | apply Hsamples].
  - apply Q_scaled_sample; [assumption | apply Hsamples].
  - apply Q_scaled_sample; [assumption | apply Hsamples].
  - lia.
  - pose proof (Q_lifespan_sample _ (Hsamples (S (S (S (S (S k))))))) as H.
    change (inject_Z 0) with 0. change (inject_Z 100) with 100.
    change (inject_Z 300) with 300. Lqa.lra.
  - pose proof (Q_lifespan_sample _ (Hsamples (S (S (S (S (S k))))))) as H.
    change (inject_Z 100) with 100. change (inject_Z 300) with 300.
    Lqa.lra.
Qed.

(** [update] always lands on the closed canvas, and ages by one. *)
Lemma update_on_canvas (s : sketch Q) (p : ArtParticle Q) :
  (0 <= width s)%Z -> (0 <= height s)%Z ->
  on_canvas (width s) (height s) (update s p) /\
  age (update s p) = (age p + 1)%Z /\
  lifespan (update s p) = lifespan p.
Proof.
  intros Hw Hh.
  pose proof (wrap_in_closed_box (width s) (fadd (x p) (vx p)) (x p) Hw) as Hx.
  pose proof (wrap_in_closed_box (height s) (fadd (y p) (vy p)) (y p) Hh) as Hy.
  unfold update, on_canvas.
  destruct (wrap (width s) _ _), (wrap (height s) _ _). cbn in *.
  repeat split; tauto.
Qed.

Lemma alpha_value (p : ArtParticle Q) (artist : profile Q) :
  ~ lifespan p == 0 ->
  alpha p artist =
  Ok ((1 - inject_Z (age p) / lifespan p) * opacity artist).
Proof.
  intros HL. unfold alpha, pydiv.
  apply Q_fis0_false in HL. rewrite HL. reflexivity.
Qed.

(** The fade between the first frame of a particle and the frame on which
    its age passes its lifespan. *)
Lemma alpha_bounds (a : Z) (L op : Q) :
  (1 <= a)%Z -> inject_Z a < L + 1 -> 100 <= L -> 0 <= op ->
  - (op / 100) <= (1 - inject_Z a / L) * op <= op.
Proof.
  intros Ha HaL HL Hop.
  assert (Ha' : 1 <= inject_Z a)
    by (change 1 with (inject_Z 1); now rewrite <- Zle_Qle).
  revert Ha' HaL. generalize (inject_Z a). intros A HA HAL.
  assert (HLpos : 0 < L) by Lqa.lra.
  assert (Hr0 : 0 <= A / L).
  { apply Qle_shift_div_l; [exact HLpos | Lqa.lra]. }
  assert (Hr1 : A / L <= (101 # 100)).
  { apply Qle_shift_div_r; [exact HLpos | Lqa.lra]. }
  revert Hr0 Hr1. generalize (A / L). intros r Hr0 Hr1.
  split.
  - setoid_replace (op / 100) with ((1 # 100) * op) by field. Lqa.nra.
  - Lqa.nra.
Qed.

Lemma display_faded (s : sketch Q) (p : ArtParticle Q) (artist : profile Q) :
  (1 <= age p)%Z -> inject_Z (age p) < lifespan p + 1 -> 100 <= lifespan p ->
  0 <= opacity artist ->
  exists cmd, display s p artist = Ok cmd /\
              faded artist cmd /\ is_arrow cmd = false.
Proof.
  intros Ha HaL HL Hop. unfold display.
  rewrite alpha_value by Lqa.lra. cbn [bind].
  pose proof (alpha_bounds (age p) (lifespan p) (opacity artist) Ha HaL HL Hop)
    as Hb.
  destruct (show_trails s); eexists; (split; [reflexivity |]);
    (split; [| reflexivity]); intros a E; cbn in E; injection E as <-;
    exact Hb.
Qed.

Lemma step_particle_good (s : sketch Q) (artist : profile Q)
  (ps : list (ArtParticle Q)) (out : list (draw_cmd Q)) (k : nat) (i : Z) :
  scale s <> 0%Z -> (0 <= width s)%Z -> (0 <= height s)%Z ->
  (1 <= cols s)%Z -> (1 <= rows s)%Z ->
  well_shaped (cols s) (rows s) (field s) ->
  palette artist <> [] -> 0 <= opacity artist ->
  Forall (good_particle (width s) (height s)) ps ->
  (0 <= i < Z.of_nat (length ps))%Z ->
  exists ps' cmd k',
    step_particle s artist (ps, out, k) i = Ok (ps', out ++ [cmd], k') /\
    length ps' = length ps /\
    Forall (good_particle (width s) (height s)) ps' /\
    faded artist cmd /\ is_arrow cmd = false.
Proof.
  intros Hs Hw Hh Hc Hr Hsh Hpal Hop Hps Hi.
  unfold step_particle.
  destruct (getitem_in_range ps i Hi) as [p [Ep Hnth]].
  rewrite Ep. cbn [bind].
  assert (Hgood : good_particle (width s) (height s) p).
  { rewrite Forall_forall in Hps. apply Hps.
    eapply nth_error_In; eassumption. }
  destruct Hgood as [_ [Hage [Hlive HL]]].
  assert (Hs0 : fis0 (of_int (scale s) : Q) = false)
    by (rewrite Q_fis0_of_int; now apply Z.eqb_neq).
  destruct (capstone_follow_total s p (field s) Hs0 Hc Hr Hsh)
    as [_ [_ [column [angle [_ [_ Ef]]]]]].
  rewrite Ef. cbn [bind].
  match goal with |- context [update s ?q] => set (p1 := q) end.
  destruct (update_on_canvas s p1 Hw Hh) as [Hbox [Eage Elife]].
  change (age p1) with (age p) in Eage.
  change (lifespan p1) with (lifespan p) in Elife.
  destruct (display_faded s (update s p1) artist) as [cmd [Ed [Hfade Harrow]]].
  { rewrite Eage. lia. }
  { rewrite Eage, Elife, inject_Z_plus. change (inject_Z 1) with 1. Lqa.lra. }
  { now rewrite Elife. }
  { exact Hop. }
  rewrite Ed. cbn [bind].
  destruct (is_dead (update s p1)) eqn:Edead.
  - destruct (reset_good (width s) (height s) artist k Hw Hh Hpal)
      as [fresh [k' [Er Hfresh]]].
    rewrite Er. cbn [bind].
    rewrite setitem_in_range by exact Hi. cbn [bind].
    exists (replace_nth ps (Z.to_nat i) fresh), cmd, k'.
    split; [reflexivity |].
    split; [apply replace_nth_length |].
    split; [now apply Forall_replace_nth |].
    split; assumption.
  - rewrite setitem_in_range by exact Hi. cbn [bind].
    exists (replace_nth ps (Z.to_nat i) (update s p1)), cmd, k.
    split; [reflexivity |].
    split; [apply replace_nth_length |].
    split; [| split; assumption].
    apply Forall_replace_nth; [assumption |].
    split; [exact Hbox |].
    unfold alive. rewrite Eage, Elife.
    split; [lia |]. split; [| exact HL].
    unfold is_dead, fgeb in Edead.
    apply Bool.negb_false_iff, Q_fltb_true in Edead.
    rewrite Eage, Elife in Edead. exact Edead.
Qed.

Lemma range_down_bounds (n i : Z) : In i (range_down n) -> (0 <= i < n)%Z.
Proof.
  unfold range_down. rewrite <- in_rev. apply range_bounds.
Qed.

Lemma arrows_faded (artist : profile Q) (out : list (draw_cmd Q)) :
  Forall (fun c => is_arrow c = true) out -> Forall (faded artist) out.
Proof.
  apply Forall_impl. intros [] H a E; cbn in *; discriminate.
Qed.

(** The overlay reads cells of the grid only. *)
Lemma draw_field_total (s : sketch Q) :
  well_shaped (cols s) (rows s) (field s) ->
  exists arrows, draw_field s = Ok arrows /\
                 Forall (fun c => is_arrow c = true) arrows.
Proof.
  intros Hsh. unfold draw_field.
  apply (for_each_invariant (Forall (fun c => is_arrow c = true)));
    [| constructor].
  intros out i Hi Hout.
  apply (for_each_invariant (Forall (fun c => is_arrow c = true)));
    [| exact Hout].
  intros out' j Hj Hout'.
  apply range_step2_bounds in Hi. apply range_step2_bounds in Hj.
  destruct (getitem2_in_range _ _ _ i j Hsh Hi Hj) as [column [a [_ [_ E]]]].
  rewrite E. cbn [bind]. eexists. split; [reflexivity |].
  apply Forall_app. split; [exact Hout' | repeat constructor].
Qed.

Lemma particle_loop_good (s : sketch Q) (artist : profile Q)
  (ps : list (ArtParticle Q)) (out : list (draw_cmd Q)) (k : nat) :
  scale s <> 0%Z -> (0 <= width s)%Z -> (0 <= height s)%Z ->
  (1 <= cols s)%Z -> (1 <= rows s)%Z ->
  well_shaped (cols s) (rows s) (field s) ->
  palette artist <> [] -> 0 <= opacity artist ->
  Forall (good_particle (width s) (height s)) ps ->
  Forall (faded artist) out ->
  exists ps' out' k',
    for_each (range_down (Z.of_nat (length ps))) (step_particle s artist)
      (ps, out, k) = Ok (ps', out', k') /\
    length ps' = length ps /\
    Forall (good_particle (width s) (height s)) ps' /\
    Forall (faded artist) out'.
Proof.
  intros Hs Hw Hh Hc Hr Hsh Hpal Hop Hps Hout.
  destruct (for_each_invariant
              (fun acc : list (ArtParticle Q) * list (draw_cmd Q) * nat =>
                 length (fst (fst acc)) = length ps /\
                 Forall (good_particle (width s) (height s)) (fst (fst acc)) /\
                 Forall (faded artist) (snd (fst acc)))
              (range_down (Z.of_nat (length ps)))
              (step_particle s artist) (ps, out, k))
    as [[[ps' out'] k'] [E [Hlen [Hgood Hfaded]]]].
  - intros [[ps0 out0] k0] i Hi [Hlen0 [Hgood0 Hfaded0]]. cbn [fst snd] in *.
    apply range_down_bounds in Hi.
    destruct (step_particle_good s artist ps0 out0 k0 i
                Hs Hw Hh Hc Hr Hsh Hpal Hop Hgood0)
      as [ps1 [cmd [k1 [E1 [Hlen1 [Hgood1 [Hfade1 _]]]]]]]; [lia |].
    exists (ps1, out0 ++ [cmd], k1). cbn [fst snd].
    split; [exact E1 |]. split; [congruence |]. split; [exact Hgood1 |].
    apply Forall_app. split; [exact Hfaded0 | now constructor].
  - cbn [fst snd]. auto.
  - exists ps', out', k'. cbn [fst snd] in *. auto.
Qed.

(** One frame from a ready sketch: it completes, and the sketch is ready
    for the next one with the same canvas and as many particles. *)
Lemma draw_ready (s : sketch Q) (artist : profile Q) :
  ready s artist ->
  exists s' out,
    draw s = Ok (s', out) /\ ready s' artist /\
    length (particles s') = length (particles s) /\
    max_particles s' = max_particles s /\
    width s' = width s /\ height s' = height s /\
    show_field s' = show_field s /\
    Forall (faded artist) out /\
    (particles s = [] -> show_field s = false -> out = []).
Proof.
  intros [Hs [Hw [Hh [Hc [Hr [Hsh [Hart [Hpal [Hop Hps]]]]]]]]].
  unfold draw. rewrite Hart. cbn [bind].
  unfold update_field.
  rewrite (fill_grid (cell_angle artist (z_offset s)) _ _ _ Hsh). cbn [bind].
  set (f := map _ (range (cols s))).
  assert (Hshf : well_shaped (cols s) (rows s) f) by apply well_shaped_map.
  set (s1 := with_canvas s _ _ _ _ _ f _ _).
  assert (Harrows : exists arrows,
             (if show_field s1 then draw_field s1 else Ok []) = Ok arrows /\
             Forall (fun c => is_arrow c = true) arrows /\
             (show_field s = false -> arrows = [])).
  { change (show_field s1) with (show_field s).
    destruct (show_field s).
    - destruct (draw_field_total s1 Hshf) as [arrows [E H]].
      exists arrows. split; [exact E |]. split; [exact H | discriminate].
    - exists []. split; [reflexivity |]. split; [constructor | reflexivity]. }
  destruct Harrows as [arrows [Ea [Harr Hnone]]].
  rewrite Ea. cbn [bind].
  destruct (particle_loop_good s1 artist (particles s) arrows (rng s)
              Hs Hw Hh Hc Hr Hshf Hpal Hop Hps (arrows_faded artist _ Harr))
    as [ps' [out' [k' [El [Hlen [Hgood Hfaded]]]]]].
  change (particles s1) with (particles s).
  change (rng s1) with (rng s).
  assert (Hempty : particles s = [] -> show_field s = false -> out' = []).
  { intros Hnil Hoff. rewrite Hnil in El. cbn in El.
    injection El as _ <- _. now apply Hnone. }
  rewrite El. cbn [bind].
  eexists. eexists. split; [reflexivity |].
  split; [| cbn; repeat split; auto].
  unfold ready. cbn. repeat split; auto; apply Hshf.
Qed.

Lemma frames_ready (s : sketch Q) (artist : profile Q) (n : nat) :
  ready s artist ->
  exists s' out,
    frames n s = Ok (s', out) /\ ready s' artist /\
    length (particles s') = length (particles s) /\
    max_particles s' = max_particles s /\
    width s' = width s /\ height s' = height s /\
    show_field s' = show_field s /\
    Forall (faded artist) out /\
    (particles s = [] -> show_field s = false -> out = []).
Proof.
  revert s. induction n as [| n IH]; intros s Hready.
  - exists s, []. cbn [frames]. split; [reflexivity |].
    split; [exact Hready |]. repeat split; auto.
  - destruct (draw_ready s artist Hready)
      as [s1 [out1 [E1 [Hr1 [Hl1 [Hm1 [Hw1 [Hh1 [Hf1 [Ho1 He1]]]]]]]]]].
    destruct (IH s1 Hr1)
      as [s2 [out2 [E2 [Hr2 [Hl2 [Hm2 [Hw2 [Hh2 [Hf2 [Ho2 He2]]]]]]]]]].
    exists s2, (out1 ++ out2). cbn [frames]. rewrite E1. cbn [bind].
    rewrite E2. cbn [bind].
    split; [reflexivity |]. split; [exact Hr2 |].
    repeat split; try congruence.
    + apply Forall_app. split; assumption.
    + intros Hnil Hoff. rewrite He1, He2; auto.
      * destruct (particles s1); [reflexivity |].
        rewrite Hnil in Hl1. discriminate.
      * congruence.
Qed.

(** The profile [init_artists] installs under each of its keys. *)
Lemma init_artists_builtin (d : list (string * profile Q)) (key : string) :
  builtin_artist key ->
  exists artist,
    dict_get (init_artists d) key = Ok artist /\
    palette artist <> [] /\ 0 <= opacity artist.
Proof.
  unfold builtin_artist, init_artists.
  intros [<- | [<- | [<- | [<- | []]]]].
  - exists monet.
    rewrite !dict_get_set_other by discriminate.
    rewrite dict_get_set_same. repeat split; discriminate.
  - exists vangogh.
    rewrite !dict_get_set_other by discriminate.
    rewrite dict_get_set_same. repeat split; discriminate.
  - exists seurat.
    rewrite !dict_get_set_other by discriminate.
    rewrite dict_get_set_same. repeat split; discriminate.
  - exists kandinsky.
    rewrite dict_get_set_same. repeat split; discriminate.
Qed.

(** [setup] on a canvas that is not negative, with a positive cell size
    and one of the four artists selected. *)
Lemma setup_ready (w h : Z) (s0 : sketch Q) :
  (0 <= w)%Z -> (0 <= h)%Z -> (0 < scale s0)%Z ->
  builtin_artist (current_artist s0) ->
  exists s artist,
    setup_size w h s0 = Ok s /\ ready s artist /\
    length (particles s) = Z.to_nat (max_particles s0) /\
    max_particles s = max_particles s0 /\
    width s = w /\ height s = h /\ scale s = scale s0 /\
    cols s = (w / scale s0 + 1)%Z /\ rows s = (h / scale s0 + 1)%Z /\
    show_field s = show_field s0.
Proof.
  intros Hw Hh Hs Hkey. unfold setup_size, pydiv.
  rewrite Q_fis0_of_int.
  destruct (Z.eqb_spec (scale s0) 0) as [E | _]; [lia |]. cbn [bind].
  rewrite !Q_to_int_div by assumption.
  destruct (init_artists_builtin (artists s0) _ Hkey)
    as [artist [Eart [Hpal Hop]]].
  rewrite Eart. cbn [bind].
  change (fun k0 : nat => reset w h artist k0) with (reset w h artist).
  destruct (comprehension_all (good_particle w h) (reset w h artist)
              (Z.to_nat (max_particles s0)) (rng s0))
    as [ps [k [Eps [Hlen Hgood]]]].
  { intros k. now apply reset_good. }
  rewrite Eps. cbn [bind].
  exists (with_canvas s0 w h (init_artists (artists s0))
            (w / scale s0 + 1) (h / scale s0 + 1)
            (zero_field (w / scale s0 + 1) (h / scale s0 + 1)) ps k), artist.
  split; [reflexivity |].
  assert (Hc : (0 <= w / scale s0)%Z) by (apply Z.div_pos; lia).
  assert (Hr : (0 <= h / scale s0)%Z) by (apply Z.div_pos; lia).
  split; [| cbn; repeat split; auto].
  unfold ready. cbn.
  split; [lia |]. split; [exact Hw |]. split; [exact Hh |].
  split; [lia |]. split; [lia |].
  split; [apply (well_shaped_map (fun _ _ => of_int 0)) |].
  auto.
Qed.

End CapstoneRun.

(** ** Lesson 07, frame after frame *)

Section FlowRun.
Import FlowFields FlowInv.
Context {py5 : Py5 Q}.
Hypothesis Hsamples : unit_samples py5.
Local Open Scope Q_scope.

Lemma flow_new_particle_on_canvas (s : sketch Q) (k : nat) :
  (0 <= width s)%Z -> (0 <= height s)%Z -> palette s <> [] ->
  exists p k', new_particle s k = Ok (p, k') /\
               on_canvas (width s) (height s) p.
Proof.
  intros Hw Hh Hpal. unfold new_particle, random1, random2.
  destruct (getitem_in_range (palette s)
              (to_int (fmul (of_int (Z.of_nat (length (palette s))))
                            (py5_uniform (S (S (S k)))))))
    as [c [Ec _]].
  { apply Q_index_in_range; [apply Hsamples |].
    destruct (palette s); [congruence | discriminate]. }
  rewrite Ec. cbn [bind]. eexists. eexists. split; [reflexivity |].
  split; cbn; (apply Q_scaled_sample; [assumption | apply Hsamples]).
Qed.

Lemma flow_update_on_canvas (s : sketch Q) (p : FlowParticle Q) :
  (0 <= width s)%Z -> (0 <= height s)%Z ->
  on_canvas (width s) (height s) (update s p).
Proof.
  intros Hw Hh.
  pose proof (wrap_in_closed_box (width s) (fadd (x p) (vx p)) (x p) Hw) as Hx.
  pose proof (wrap_in_closed_box (height s) (fadd (y p) (vy p)) (y p) Hh) as Hy.
  unfold update, on_canvas.
  destruct (wrap (width s) _ _), (wrap (height s) _ _). cbn in *. tauto.
Qed.

Lemma flow_draw_field_total (s : sketch Q) :
  well_shaped (cols s) (rows s) (field s) ->
  exists arrows, draw_field s = Ok arrows /\
                 Forall (fun c => is_arrow c = true) arrows.
Proof.
  intros Hsh. unfold draw_field.
  apply (for_each_invariant (Forall (fun c => is_arrow c = true)));
    [| constructor].
  intros out i Hi Hout.
  apply (for_each_invariant (Forall (fun c => is_arrow c = true)));
    [| exact Hout].
  intros out' j Hj Hout'.
  apply range_bounds in Hi. apply range_bounds in Hj.
  destruct (getitem2_in_range _ _ _ i j Hsh Hi Hj) as [column [a [_ [_ E]]]].
  rewrite E. cbn [bind]. eexists. split; [reflexivity |].
  apply Forall_app. split; [exact Hout' | repeat constructor].
Qed.

(** The particle loop moves every particle once and keeps them all. *)
Lemma flow_particle_loop (s : sketch Q) (l : list (FlowParticle Q))
  (acc : list (FlowParticle Q) * list (draw_cmd Q)) :
  scale s <> 0%Z -> (0 <= width s)%Z -> (0 <= height s)%Z ->
  (1 <= cols s)%Z -> (1 <= rows s)%Z ->
  well_shaped (cols s) (rows s) (field s) ->
  exists ps' out',
    for_each l (step_particle s) acc = Ok (fst acc ++ ps', snd acc ++ out') /\
    length ps' = length l /\ length out' = length l /\
    Forall (on_canvas (width s) (height s)) ps'.
Proof.
  intros Hs Hw Hh Hc Hr Hsh. revert acc.
  assert (Hs0 : fis0 (of_int (scale s) : Q) = false)
    by (rewrite Q_fis0_of_int; now apply Z.eqb_neq).
  induction l as [| p l IH]; intros acc.
  - exists [], []. cbn. rewrite !app_nil_r. destruct acc as [a b].
    repeat split. constructor.
  - cbn [for_each]. unfold step_particle at 1.
    destruct (flow_follow_total s p (field s) Hs0 Hc Hr Hsh)
      as [_ [_ [column [angle [_ [_ Ef]]]]]].
    rewrite Ef. cbn [bind].
    match goal with |- context [update s ?q] => set (p1 := q) end.
    destruct (IH (fst acc ++ [update s p1], snd acc ++ [display s (update s p1)]))
      as [ps' [out' [E [Hlen [Hlen' Hbox]]]]].
    exists (update s p1 :: ps'), (display s (update s p1) :: out').
    rewrite E. cbn [fst snd]. rewrite <- !app_assoc. cbn.
    repeat split; try congruence.
    constructor; [now apply flow_update_on_canvas | exact Hbox].
Qed.

Lemma flow_draw_ready (s : sketch Q) :
  ready s ->
  exists s' out,
    draw s = Ok (s', out) /\ ready s' /\
    length (particles s') = length (particles s) /\
    width s' = width s /\ height s' = height s /\
    show_field s' = show_field s /\
    (particles s = [] -> show_field s = false -> out = []).
Proof.
  intros [Hs [Hw [Hh [Hc [Hr [Hsh Hps]]]]]].
  unfold draw, update_field.
  rewrite (fill_grid (cell_angle (z_offset s)) _ _ _ Hsh). cbn [bind].
  set (f := map _ (range (cols s))).
  assert (Hshf : well_shaped (cols s) (rows s) f) by apply well_shaped_map.
  set (s1 := with_field s f).
  assert (Harrows : exists arrows,
             (if show_field s1 then draw_field s1 else Ok []) = Ok arrows /\
             (show_field s = false -> arrows = [])).
  { change (show_field s1) with (show_field s).
    destruct (show_field s).
    - destruct (flow_draw_field_total s1 Hshf) as [arrows [E H]].
      exists arrows. split; [exact E | discriminate].
    - exists []. split; reflexivity. }
  destruct Harrows as [arrows [Ea Hnone]].
  rewrite Ea. cbn [bind].
  destruct (flow_particle_loop s1 (particles s) ([], arrows)
              Hs Hw Hh Hc Hr Hshf)
    as [ps' [out' [El [Hlen [Hlen' Hbox]]]]].
  change (particles s1) with (particles s).
  rewrite El. cbn [bind fst snd app].
  eexists. eexists. split; [reflexivity |].
  split; [| cbn; repeat split; auto].
  - unfold ready. cbn. repeat split; auto; apply Hshf.
  - intros Hnil Hoff. rewrite Hnil in Hlen'.
    destruct out'; [| discriminate]. rewrite app_nil_r. now apply Hnone.
Qed.

Lemma flow_frames_ready (s : sketch Q) (n : nat) :
  ready s ->
  exists s' out,
    frames n s = Ok (s', out) /\ ready s' /\
    length (particles s') = length (particles s) /\
    width s' = width s /\ height s' = height s /\
    show_field s' = show_field s /\
    (particles s = [] -> show_field s = false -> out = []).
Proof.
  revert s. induction n as [| n IH]; intros s Hready.
  - exists s, []. cbn [frames]. split; [reflexivity |].
    split; [exact Hready |]. repeat split; auto.
  - destruct (flow_draw_ready s Hready)
      as [s1 [out1 [E1 [Hr1 [Hl1 [Hw1 [Hh1 [Hf1 He1]]]]]]]].
    destruct (IH s1 Hr1)
      as [s2 [out2 [E2 [Hr2 [Hl2 [Hw2 [Hh2 [Hf2 He2]]]]]]]].
    exists s2, (out1 ++ out2). cbn [frames]. rewrite E1. cbn [bind].
    rewrite E2. cbn [bind].
    split; [reflexivity |]. split; [exact Hr2 |].
    repeat split; try congruence.
    intros Hnil Hoff. rewrite He1, He2; auto.
    + destruct (particles s1); [reflexivity |].
      rewrite Hnil in Hl1. discriminate.
    + congruence.
Qed.

Lemma flow_setup_ready (w h : Z) (s0 : sketch Q) :
  (0 <= w)%Z -> (0 <= h)%Z -> (0 < scale s0)%Z ->
  exists s,
    setup_size w h s0 = Ok s /\ ready s /\
    length (particles s) = Z.to_nat (num_particles s0) /\
    width s = w /\ height s = h /\ scale s = scale s0 /\
    cols s = (w / scale s0 + 1)%Z /\ rows s = (h / scale s0 + 1)%Z /\
    show_field s = show_field s0.
Proof.
  intros Hw Hh Hs. unfold setup_size, pydiv.
  rewrite Q_fis0_of_int.
  destruct (Z.eqb_spec (scale s0) 0) as [E | _]; [lia |]. cbn [bind].
  rewrite !Q_to_int_div by assumption.
  cbn [num_particles rng scale].
  match goal with
  | |- context [comprehension _ (new_particle ?t) _] => set (s1 := t)
  end.
  destruct (comprehension_all (on_canvas w h) (new_particle s1)
              (Z.to_nat (num_particles s0)) (rng s0))
    as [ps [k [Eps [Hlen Hgood]]]].
  { intros k. apply (flow_new_particle_on_canvas s1 k); cbn;
      [assumption | assumption | discriminate]. }
  rewrite Eps. cbn [bind].
  eexists. split; [reflexivity |].
  assert (Hc : (0 <= w / scale s0)%Z) by (apply Z.div_pos; lia).
  assert (Hr : (0 <= h / scale s0)%Z) by (apply Z.div_pos; lia).
  split; [| cbn; repeat split; auto].
  unfold ready. cbn.
  split; [lia |]. split; [exact Hw |]. split; [exact Hh |].
  split; [lia |]. split; [lia |].
  split; [apply (well_shaped_map (fun _ _ => of_int 0)) |].
  exact Hgood.
Qed.

End FlowRun.

(** ** The size of the grid *)

Section GridSize.
Local Open Scope Q_scope.

(** The ceiling of a quotient of ints, next to the integer quotient. *)
Lemma spec_cells_div (w s : Z) :
  (0 < s)%Z ->
  spec_cells w s = (if (w mod s =? 0)%Z then w / s else w / s + 1)%Z.
Proof.
  intros Hs. unfold spec_cells, Qceiling.
  assert (E : - (inject_Z w / inject_Z s) == inject_Z (- w) / inject_Z s).
  { rewrite inject_Z_opp. unfold Qdiv. ring. }
  rewrite (Qfloor_comp _ _ E), <- Zdiv_Qdiv.
  destruct (Z.eqb_spec (w mod s) 0) as [Hm | Hm].
  - rewrite Z.div_opp_l_z by lia. lia.
  - rewrite Z.div_opp_l_nz by lia. lia.
Qed.

Lemma flow_setup_dims (w h : Z) (s0 s : FlowFields.sketch Q)
  {py5 : Py5 Q} :
  (0 <= w)%Z -> (0 <= h)%Z -> (0 < FlowFields.scale s0)%Z ->
  FlowFields.setup_size w h s0 = Ok s ->
  FlowFields.cols s = (w / FlowFields.scale s0 + 1)%Z /\
  FlowFields.rows s = (h / FlowFields.scale s0 + 1)%Z.
Proof.
  intros Hw Hh Hs. unfold FlowFields.setup_size, pydiv.
  rewrite Q_fis0_of_int.
  destruct (Z.eqb_spec (FlowFields.scale s0) 0) as [E | _]; [lia |].
  cbn [bind]. rewrite !Q_to_int_div by assumption.
  destruct (comprehension _ _ _) as [[ps k] |]; cbn [bind]; [| discriminate].
  intros E. injection E as <-. split; reflexivity.
Qed.

Lemma capstone_setup_dims (w h : Z) (s0 s : Capstone.sketch Q)
  {py5 : Py5 Q} :
  (0 <= w)%Z -> (0 <= h)%Z -> (0 < Capstone.scale s0)%Z ->
  Capstone.setup_size w h s0 = Ok s ->
  Capstone.cols s = (w / Capstone.scale s0 + 1)%Z /\
  Capstone.rows s = (h / Capstone.scale s0 + 1)%Z.
Proof.
  intros Hw Hh Hs. unfold Capstone.setup_size, pydiv.
  rewrite Q_fis0_of_int.
  destruct (Z.eqb_spec (Capstone.scale s0) 0) as [E | _]; [lia |].
  cbn [bind]. rewrite !Q_to_int_div by assumption.
  destruct (comprehension _ _ _) as [[ps k] |]; cbn [bind]; [| discriminate].
  intros E. injection E as <-. split; reflexivity.
Qed.

Lemma sized_by_quotient_intro (extent cell_size : Z) :
  (0 < cell_size)%Z ->
  sized_by_quotient extent cell_size (extent / cell_size + 1).
Proof.
  intros Hs. unfold sized_by_quotient.
  rewrite spec_cells_div by assumption.
  destruct (Z.eqb_spec (extent mod cell_size) 0); repeat split; lia.
Qed.

(** C4, as the code has it.  For a positive canvas and cell size, [setup]
    makes [cols = width // scale + 1] and [rows = height // scale + 1]:
    the ceiling of the quotient when the cell size does not divide the
    extent, and one more than the ceiling when it does. *)
Theorem grid_is_quotient_plus_one
  {py5 : Py5 Q} (w h : Z)
  (sf0 sf : FlowFields.sketch Q) (sc0 sc : Capstone.sketch Q) :
  (0 < w)%Z -> (0 < h)%Z ->
  (0 < FlowFields.scale sf0)%Z -> (0 < Capstone.scale sc0)%Z ->
  FlowFields.setup_size w h sf0 = Ok sf ->
  Capstone.setup_size w h sc0 = Ok sc ->
  sized_by_quotient w (FlowFields.scale sf0) (FlowFields.cols sf) /\
  sized_by_quotient h (FlowFields.scale sf0) (FlowFields.rows sf) /\
  sized_by_quotient w (Capstone.scale sc0) (Capstone.cols sc) /\
  sized_by_quotient h (Capstone.scale sc0) (Capstone.rows sc).
Proof.
  intros Hw Hh Hsf Hsc Ef Ec.
  destruct (flow_setup_dims w h sf0 sf) as [-> ->]; try assumption; try lia.
  destruct (capstone_setup_dims w h sc0 sc) as [-> ->];
    try assumption; try lia.
  repeat split; now apply sized_by_quotient_intro.
Qed.

(** One axis of C10. *)
Lemma unclamped_index_in_range (extent cell_size cells : Z) (c : Q) :
  (0 < cell_size)%Z ->
  cells = (to_int (fdiv (of_int extent) (of_int cell_size) : Q) + 1)%Z ->
  0 <= c <= inject_Z extent ->
  let i := to_int (fdiv c (of_int cell_size)) in
  (0 <= i <= cells - 1)%Z /\ constrain i 0 (cells - 1) = i.
Proof.
  intros Hs -> [Hc0 Hc1]. cbv zeta.
  assert (HS : 0 < inject_Z cell_size)
    by (change 0 with (inject_Z 0); now rewrite <- Zlt_Qlt).
  assert (Hq0 : 0 <= c / inject_Z cell_size).
  { apply Qle_shift_div_l; [exact HS |]. now rewrite Qmult_0_l. }
  assert (Hq1 : c / inject_Z cell_size <= inject_Z extent / inject_Z cell_size).
  { apply Qle_shift_div_r; [exact HS |].
    unfold Qdiv. rewrite <- Qmult_assoc, (Qmult_comm (/ _)).
    rewrite Qmult_inv_r by (intros E; rewrite E in HS; discriminate).
    now rewrite Qmult_1_r. }
  assert (Hi : (0 <= to_int (c / inject_Z cell_size)%Q
                <= to_int (inject_Z extent / inject_Z cell_size)%Q)%Z).
  { split; [now apply Q_to_int_nonneg | now apply Q_to_int_mono]. }
  cbn [fdiv of_int Q_num] in *.
  split; [lia |]. apply constrain_inside. lia.
Qed.

(** C10.  With the grid sized as [setup] sizes it, a position anywhere on
    the closed canvas, edges included, has raw indices that are already
    valid, so the clamping of [follow] leaves them alone. *)
Theorem clamping_is_idle_on_canvas
  (sf : FlowFields.sketch Q) (pf : FlowFields.FlowParticle Q)
  (sc : Capstone.sketch Q) (pc : Capstone.ArtParticle Q) :
  (0 < FlowFields.scale sf)%Z ->
  FlowFields.cols sf =
    (to_int (fdiv (of_int (FlowFields.width sf))
                  (of_int (FlowFields.scale sf)) : Q) + 1)%Z ->
  FlowFields.rows sf =
    (to_int (fdiv (of_int (FlowFields.height sf))
                  (of_int (FlowFields.scale sf)) : Q) + 1)%Z ->
  0 <= FlowFields.x pf <= inject_Z (FlowFields.width sf) ->
  0 <= FlowFields.y pf <= inject_Z (FlowFields.height sf) ->
  (0 < Capstone.scale sc)%Z ->
  Capstone.cols sc =
    (to_int (fdiv (of_int (Capstone.width sc))
                  (of_int (Capstone.scale sc)) : Q) + 1)%Z ->
  Capstone.rows sc =
    (to_int (fdiv (of_int (Capstone.height sc))
                  (of_int (Capstone.scale sc)) : Q) + 1)%Z ->
  0 <= Capstone.x pc <= inject_Z (Capstone.width sc) ->
  0 <= Capstone.y pc <= inject_Z (Capstone.height sc) ->
  (let col := to_int (fdiv (FlowFields.x pf) (of_int (FlowFields.scale sf))) in
   let row := to_int (fdiv (FlowFields.y pf) (of_int (FlowFields.scale sf))) in
   (0 <= col <= FlowFields.cols sf - 1)%Z /\
   (0 <= row <= FlowFields.rows sf - 1)%Z /\
   constrain col 0 (FlowFields.cols sf - 1) = col /\
   constrain row 0 (FlowFields.rows sf - 1) = row)
  /\
  (let col := to_int (fdiv (Capstone.x pc) (of_int (Capstone.scale sc))) in
   let row := to_int (fdiv (Capstone.y pc) (of_int (Capstone.scale sc))) in
   (0 <= col <= Capstone.cols sc - 1)%Z /\
   (0 <= row <= Capstone.rows sc - 1)%Z /\
   constrain col 0 (Capstone.cols sc - 1) = col /\
   constrain row 0 (Capstone.rows sc - 1) = row).
Proof.
  intros Hsf Hcf Hrf Hxf Hyf Hsc Hcc Hrc Hxc Hyc.
  destruct (unclamped_index_in_range _ _ _ _ Hsf Hcf Hxf) as [A1 A2].
  destruct (unclamped_index_in_range _ _ _ _ Hsf Hrf Hyf) as [A3 A4].
  destruct (unclamped_index_in_range _ _ _ _ Hsc Hcc Hxc) as [B1 B2].
  destruct (unclamped_index_in_range _ _ _ _ Hsc Hrc Hyc) as [B3 B4].
  cbv zeta. repeat split; try assumption; lia.
Qed.

End GridSize.

(** ** The pool of the capstone, for any number system *)

Section Pool.
Context {F : Type} {num : Num F} {py5 : Py5 F}.

Lemma step_particle_writes_one_slot (s : Capstone.sketch F)
  (artist : Capstone.profile F)
  (ps ps' : list (Capstone.ArtParticle F)) (out out' : list (draw_cmd F))
  (k k' : nat) (i : Z) :
  Capstone.step_particle s artist (ps, out, k) i = Ok (ps', out', k') ->
  (exists p', setitem ps i p' = Ok ps') /\ length ps' = length ps.
Proof.
  unfold Capstone.step_particle.
  destruct (getitem ps i) as [p |]; cbn [bind]; [| discriminate].
  destruct (Capstone.follow s p (Capstone.field s)) as [p1 |]; cbn [bind];
    [| discriminate].
  destruct (Capstone.display s _ artist) as [cmd |]; cbn [bind];
    [| discriminate].
  destruct (Capstone.is_dead _).
  - destruct (Capstone.reset _ _ _ _) as [[fresh k1] |]; cbn [bind];
      [| discriminate].
    destruct (setitem ps i fresh) as [ps1 |] eqn:E; cbn [bind];
      [| discriminate].
    intros H. injection H as <- _ _.
    split; [eauto | eapply setitem_length; eassumption].
  - destruct (setitem ps i _) as [ps1 |] eqn:E; cbn [bind];
      [| discriminate].
    intros H. injection H as <- _ _.
    split; [eauto | eapply setitem_length; eassumption].
Qed.

(** A round of the loop, slot by slot: the particle at [i] is read,
    steered and moved, and what is written back at [i] is that particle, or
    a fresh one when it has died. *)
Lemma step_particle_slot (s : Capstone.sketch F)
  (artist : Capstone.profile F)
  (ps ps' : list (Capstone.ArtParticle F)) (out out' : list (draw_cmd F))
  (k k' : nat) (i : Z) :
  Capstone.step_particle s artist (ps, out, k) i = Ok (ps', out', k') ->
  exists p q,
    getitem ps i = Ok p /\ moved_or_replaced s artist p q /\
    setitem ps i q = Ok ps'.
Proof.
  unfold Capstone.step_particle, moved_or_replaced.
  destruct (getitem ps i) as [p |]; cbn [bind]; [| discriminate].
  destruct (Capstone.follow s p (Capstone.field s)) as [p1 |] eqn:Ef;
    cbn [bind]; [| discriminate].
  destruct (Capstone.display s _ artist) as [cmd |]; cbn [bind];
    [| discriminate].
  destruct (Capstone.is_dead (Capstone.update s p1)) eqn:Edead.
  - destruct (Capstone.reset _ _ _ _) as [[fresh k1] |] eqn:Er; cbn [bind];
      [| discriminate].
    destruct (setitem ps i fresh) as [ps1 |] eqn:E; cbn [bind];
      [| discriminate].
    intros H. injection H as <- _ _.
    exists p, fresh. split; [reflexivity |]. split; [| exact E].
    exists p1. split; [exact Ef |]. rewrite Edead. eauto.
  - destruct (setitem ps i _) as [ps1 |] eqn:E; cbn [bind];
      [| discriminate].
    intros H. injection H as <- _ _.
    exists p, (Capstone.update s p1). split; [reflexivity |].
    split; [| exact E].
    exists p1. split; [exact Ef |]. now rewrite Edead.
Qed.

Lemma range_down_succ (m : nat) :
  range_down (Z.of_nat (S m)) = Z.of_nat m :: range_down (Z.of_nat m).
Proof.
  unfold range_down.
  replace (Z.of_nat (S m)) with (Z.of_nat m + 1) by lia.
  rewrite range_succ by lia. now rewrite rev_app_distr.
Qed.

(** The loop runs down the indices and passes every slot once: the slots
    it has not reached yet are as they were, the slots behind it are
    settled. *)
Lemma particle_loop_slots (s : Capstone.sketch F)
  (artist : Capstone.profile F) (m : nat) :
  forall (pre done : list (Capstone.ArtParticle F)) (out : list (draw_cmd F))
         (k : nat) ps' out' k',
    length pre = m ->
    for_each (range_down (Z.of_nat m)) (Capstone.step_particle s artist)
      (pre ++ done, out, k) = Ok (ps', out', k') ->
    exists pre', ps' = pre' ++ done /\
                 Forall2 (moved_or_replaced s artist) pre pre'.
Proof.
  induction m as [| m IH]; intros pre done out k ps' out' k' Hlen.
  - apply length_zero_iff_nil in Hlen. subst pre. cbn.
    intros E. injection E as <- _ _. exists []. split; [reflexivity | constructor].
  - destruct (exists_last (l := pre)) as [pre0 [p ->]];
      [intros ->; discriminate |].
    rewrite length_app in Hlen. cbn in Hlen.
    assert (Hlen0 : length pre0 = m) by lia.
    rewrite range_down_succ. cbn [for_each].
    destruct (Capstone.step_particle s artist _ _) as [[[ps1 out1] k1] |] eqn:E1;
      cbn [bind]; [| discriminate].
    apply step_particle_slot in E1. destruct E1 as [p0 [q [Eg [Hq Es]]]].
    rewrite <- app_assoc in Eg, Es. cbn [app] in Eg, Es.
    assert (Hi : 0 <= Z.of_nat m < Z.of_nat (length (pre0 ++ p :: done))).
    { rewrite length_app. cbn. lia. }
    destruct (getitem_in_range _ _ Hi) as [p' [Eg' Hn]].
    rewrite Nat2Z.id, nth_error_app2, Hlen0, Nat.sub_diag in Hn by lia.
    cbn in Hn. injection Hn as <-.
    assert (p0 = p) by congruence. subst p0.
    rewrite (setitem_in_range _ _ _ Hi), Nat2Z.id in Es.
    rewrite (replace_nth_app pre0 done p q m Hlen0) in Es.
    injection Es as <-.
    intros E. apply (IH pre0 (q :: done)) in E; [| exact Hlen0].
    destruct E as [pre0' [-> Hall]].
    exists (pre0' ++ [q]). split; [now rewrite <- app_assoc |].
    apply Forall2_app; [exact Hall | now constructor].
Qed.

(** A frame that returns has passed every slot of the pool once. *)
Lemma draw_settles_every_slot (s s' : Capstone.sketch F)
  (out : list (draw_cmd F)) :
  Capstone.draw s = Ok (s', out) ->
  exists artist,
    dict_get (Capstone.artists s) (Capstone.current_artist s) = Ok artist /\
    Forall2 (moved_or_replaced s' artist)
      (Capstone.particles s) (Capstone.particles s').
Proof.
  unfold Capstone.draw.
  destruct (dict_get _ _) as [artist |]; cbn [bind]; [| discriminate].
  destruct (Capstone.update_field s artist) as [f |]; cbn [bind];
    [| discriminate].
  set (s1 := Capstone.with_canvas s _ _ _ _ _ f _ _).
  destruct (if Capstone.show_field s1 then _ else _) as [arrows |];
    cbn [bind]; [| discriminate].
  destruct (for_each _ _ _) as [[[ps' out'] k'] |] eqn:E; cbn [bind];
    [| discriminate].
  intros H. injection H as <- _.
  exists artist. split; [reflexivity |].
  change (Capstone.particles s1) with (Capstone.particles s) in E.
  rewrite <- (app_nil_r (Capstone.particles s)) in E at 2.
  apply particle_loop_slots in E; [| reflexivity].
  destruct E as [pre' [-> Hall]]. cbn [Capstone.particles].
  rewrite app_nil_r. exact Hall.
Qed.

(** A frame that returns, returns a pool of the same length. *)
Lemma draw_keeps_pool_length (s s' : Capstone.sketch F)
  (out : list (draw_cmd F)) :
  Capstone.draw s = Ok (s', out) ->
  length (Capstone.particles s') = length (Capstone.particles s).
Proof.
  unfold Capstone.draw.
  destruct (dict_get _ _) as [artist |]; cbn [bind]; [| discriminate].
  destruct (Capstone.update_field s artist) as [f |]; cbn [bind];
    [| discriminate].
  set (s1 := Capstone.with_canvas s _ _ _ _ _ f _ _).
  destruct (if Capstone.show_field s1 then _ else _) as [arrows |];
    cbn [bind]; [| discriminate].
  destruct (for_each _ _ _) as [[[ps' out'] k'] |] eqn:E; cbn [bind];
    [| discriminate].
  intros H. injection H as <- _. cbn.
  change (Capstone.particles s1) with (Capstone.particles s) in E.
  apply (for_each_preserves
           (fun acc : list (Capstone.ArtParticle F) * list (draw_cmd F) * nat =>
              length (fst (fst acc)) = length (Capstone.particles s))) in E.
  - exact E.
  - intros [[ps0 out0] k0] i [[ps1 out1] k1] H0 Hstep. cbn [fst] in *.
    apply step_particle_writes_one_slot in Hstep. destruct Hstep as [_ Hlen].
    congruence.
  - reflexivity.
Qed.

Lemma frames_keep_pool_length (n : nat) (s s' : Capstone.sketch F)
  (out : list (draw_cmd F)) :
  Capstone.frames n s = Ok (s', out) ->
  length (Capstone.particles s') = length (Capstone.particles s).
Proof.
  revert s s' out. induction n as [| n IH]; intros s s' out; cbn [Capstone.frames].
  - intros E. now injection E as <- _.
  - destruct (Capstone.draw s) as [[s1 out1] |] eqn:E1; cbn [bind];
      [| discriminate].
    destruct (Capstone.frames n s1) as [[s2 out2] |] eqn:E2; cbn [bind];
      [| discriminate].
    intros E. injection E as <- _.
    apply draw_keeps_pool_length in E1. apply IH in E2. congruence.
Qed.

End Pool.

(** ** Running the sketches from [setup] *)

Section Runs.
Local Open Scope Q_scope.

(** C5, as the code has it.  From [setup] on a canvas that is not
    negative, every frame completes and leaves every particle on the
    closed canvas [[0, width] x [0, height]], and one more [update] of any
    particle lands there too.  (The far edges are reached: [update] wraps
    a coordinate below [0] to the extent itself.) *)
Theorem positions_stay_on_closed_canvas
  (py5 : Py5 Q) (w h : Z)
  (sf0 : FlowFields.sketch Q) (pf : FlowFields.FlowParticle Q)
  (sc0 : Capstone.sketch Q) (pc : Capstone.ArtParticle Q) (n : nat) :
  unit_samples py5 ->
  (0 <= w)%Z -> (0 <= h)%Z ->
  (0 < FlowFields.scale sf0)%Z -> (0 < Capstone.scale sc0)%Z ->
  builtin_artist (Capstone.current_artist sc0) ->
  (exists sf sf' out,
      FlowFields.setup_size w h sf0 = Ok sf /\
      FlowFields.frames n sf = Ok (sf', out) /\
      Forall (FlowInv.on_canvas w h) (FlowFields.particles sf') /\
      FlowInv.on_canvas w h (FlowFields.update sf' pf))
  /\
  (exists sc sc' out,
      Capstone.setup_size w h sc0 = Ok sc /\
      Capstone.frames n sc = Ok (sc', out) /\
      Forall (CapstoneInv.on_canvas w h) (Capstone.particles sc') /\
      CapstoneInv.on_canvas w h (Capstone.update sc' pc)).
Proof.
  intros Hu Hw Hh Hsf Hsc Hkey. split.
  - destruct (flow_setup_ready Hu w h sf0 Hw Hh Hsf)
      as [sf [E [Hready [_ [Ew [Eh _]]]]]].
    destruct (flow_frames_ready sf n Hready)
      as [sf' [out [E' [Hready' [_ [Ew' [Eh' _]]]]]]].
    exists sf, sf', out. split; [exact E | split; [exact E' |]].
    destruct Hready' as [_ [Hw' [Hh' [_ [_ [_ Hps]]]]]].
    rewrite Ew', Ew, Eh', Eh in Hps. split; [exact Hps |].
    rewrite <- Ew, <- Ew', <- Eh, <- Eh'.
    now apply flow_update_on_canvas.
  - destruct (setup_ready Hu w h sc0 Hw Hh Hsc Hkey)
      as [sc [artist [E [Hready [_ [_ [Ew [Eh _]]]]]]]].
    destruct (frames_ready Hu sc artist n Hready)
      as [sc' [out [E' [Hready' [_ [_ [Ew' [Eh' _]]]]]]]].
    exists sc, sc', out. split; [exact E | split; [exact E' |]].
    destruct Hready' as [_ [Hw' [Hh' [_ [_ [_ [_ [_ [_ Hps]]]]]]]]].
    rewrite Ew', Ew, Eh', Eh in Hps. split.
    + eapply Forall_impl; [| exact Hps]. intros p [Hp _]. exact Hp.
    + rewrite <- Ew, <- Ew', <- Eh, <- Eh'.
      now apply update_on_canvas.
Qed.

Lemma alive_is_not_dead (p : Capstone.ArtParticle Q) :
  CapstoneInv.alive p -> Capstone.is_dead p = false.
Proof.
  intros [_ [Hlive _]]. unfold Capstone.is_dead, fgeb.
  apply Bool.negb_false_iff, Q_fltb_true. exact Hlive.
Qed.

Lemma ready_pool_is_alive (s : Capstone.sketch Q) (artist : Capstone.profile Q) :
  CapstoneInv.ready s artist ->
  Forall (fun p => Capstone.is_dead p = false) (Capstone.particles s).
Proof.
  intros [_ [_ [_ [_ [_ [_ [_ [_ [_ Hps]]]]]]]]].
  eapply Forall_impl; [| exact Hps].
  intros p [_ Hp]. now apply alive_is_not_dead.
Qed.

(** C6.  From [setup], the pool holds [max_particles] particles, every
    frame completes, and after any number of frames the pool holds as many
    and none of them is dead.  One more frame passes every slot of the pool
    once: the particle in it is steered and moved, and if that leaves it
    dead ([age >= lifespan]) the slot gets a particle fresh from the
    constructor for the current artist; otherwise the moved particle stays.
    No slot is added or dropped.  In any state at all and for any number
    system, a frame that returns has done exactly that to every slot, each
    round of the loop reads slot [i] and assigns slot [i], and any number
    of frames that return leave the pool at its length. *)
Theorem pool_size_is_constant
  (py5 : Py5 Q) (w h : Z) (s0 : Capstone.sketch Q) (n : nat) :
  unit_samples py5 ->
  (0 <= w)%Z -> (0 <= h)%Z -> (0 < Capstone.scale s0)%Z ->
  builtin_artist (Capstone.current_artist s0) ->
  (exists s s' out,
      Capstone.setup_size w h s0 = Ok s /\
      length (Capstone.particles s) = Z.to_nat (Capstone.max_particles s0) /\
      Capstone.frames n s = Ok (s', out) /\
      length (Capstone.particles s') = Z.to_nat (Capstone.max_particles s0) /\
      Forall (fun p => Capstone.is_dead p = false) (Capstone.particles s') /\
      exists s'' out' artist,
        Capstone.draw s' = Ok (s'', out') /\
        dict_get (Capstone.artists s') (Capstone.current_artist s') = Ok artist /\
        Forall2 (moved_or_replaced s'' artist)
          (Capstone.particles s') (Capstone.particles s'') /\
        length (Capstone.particles s'')
        = Z.to_nat (Capstone.max_particles s0) /\
        Forall (fun p => Capstone.is_dead p = false) (Capstone.particles s''))
  /\
  (forall (F : Type) (num : Num F) (lib : Py5 F)
          (s s' : Capstone.sketch F) (out : list (draw_cmd F)),
      Capstone.draw s = Ok (s', out) ->
      exists artist,
        dict_get (Capstone.artists s) (Capstone.current_artist s) = Ok artist /\
        Forall2 (moved_or_replaced s' artist)
          (Capstone.particles s) (Capstone.particles s'))
  /\
  (forall s artist ps out k i ps' out' k',
      Capstone.step_particle s artist (ps, out, k) i = Ok (ps', out', k') ->
      (exists p q,
          getitem ps i = Ok p /\ moved_or_replaced s artist p q /\
          setitem ps i q = Ok ps') /\
      length ps' = length ps)
  /\
  (forall m s s' out,
      Capstone.frames m s = Ok (s', out) ->
      length (Capstone.particles s') = length (Capstone.particles s)).
Proof.
  intros Hu Hw Hh Hs Hkey. split; [| split; [| split]].
  - destruct (setup_ready Hu w h s0 Hw Hh Hs Hkey)
      as [s [artist [E [Hready [Hlen _]]]]].
    destruct (frames_ready Hu s artist n Hready)
      as [s' [out [E' [Hready' [Hlen' _]]]]].
    destruct (draw_ready Hu s' artist Hready')
      as [s'' [out' [E'' [Hready'' [Hlen'' _]]]]].
    exists s, s', out.
    split; [exact E |]. split; [exact Hlen |]. split; [exact E' |].
    split; [congruence |].
    split; [exact (ready_pool_is_alive s' artist Hready') |].
    destruct (draw_settles_every_slot s' s'' out' E'') as [a [Ea Hall]].
    exists s'', out', a.
    split; [exact E'' |]. split; [exact Ea |]. split; [exact Hall |].
    split; [congruence |].
    exact (ready_pool_is_alive s'' artist Hready'').
  - intros F num lib s s' out. apply draw_settles_every_slot.
  - intros s artist ps out k i ps' out' k' E.
    split; [now apply step_particle_slot in E |].
    apply step_particle_writes_one_slot in E. apply E.
  - intros m s s' out. apply frames_keep_pool_length.
Qed.

(** The fade on a particle that has not outlived its lifespan. *)
Lemma alpha_within_life (a : Z) (L op : Q) :
  (0 <= a)%Z -> 0 < L -> 0 <= op ->
  let v := (1 - inject_Z a / L) * op in
  v <= op /\ (inject_Z a <= L -> 0 <= v) /\
  (a = 0%Z -> v == op) /\ (inject_Z a == L -> v == 0).
Proof.
  intros Ha HL Hop. cbv zeta.
  assert (Ha' : 0 <= inject_Z a) by now apply Q_of_nonneg.
  assert (Hr0 : 0 <= inject_Z a / L).
  { apply Qle_shift_div_l; [exact HL | now rewrite Qmult_0_l]. }
  split; [| split; [| split]].
  - revert Hr0. generalize (inject_Z a / L). intros r Hr0. Lqa.nra.
  - intros HaL.
    assert (Hr1 : inject_Z a / L <= 1).
    { apply Qle_shift_div_r; [exact HL | now rewrite Qmult_1_l]. }
    revert Hr0 Hr1. generalize (inject_Z a / L). intros r Hr0 Hr1. Lqa.nra.
  - intros ->. change (inject_Z 0) with 0. unfold Qdiv.
    rewrite Qmult_0_l. ring.
  - intros E. rewrite E. unfold Qdiv.
    rewrite Qmult_inv_r by (intros E0; rewrite E0 in HL; discriminate).
    ring.
Qed.

(** C7, as the code has it.  [display] computes
    [alpha = (1 - age / lifespan) * opacity]: the profile's opacity at age
    [0], zero at [age = lifespan], between the two while
    [age <= lifespan].  From [setup], every draw request of every frame
    carries an alpha of at most the opacity and of at least
    [- opacity / 100]: the frame on which a particle's age first passes a
    lifespan that is not a whole number is still drawn, just below
    zero. *)
Theorem alpha_fades_linearly
  (py5 : Py5 Q) (w h : Z) (s0 : Capstone.sketch Q) (n : nat) :
  unit_samples py5 ->
  (0 <= w)%Z -> (0 <= h)%Z -> (0 < Capstone.scale s0)%Z ->
  builtin_artist (Capstone.current_artist s0) ->
  (forall p artist,
      (0 <= Capstone.age p)%Z -> 0 < Capstone.lifespan p ->
      0 <= Capstone.opacity artist ->
      exists a,
        Capstone.alpha p artist = Ok a /\
        a = (1 - inject_Z (Capstone.age p) / Capstone.lifespan p)
            * Capstone.opacity artist /\
        a <= Capstone.opacity artist /\
        (inject_Z (Capstone.age p) <= Capstone.lifespan p -> 0 <= a) /\
        (Capstone.age p = 0%Z -> a == Capstone.opacity artist) /\
        (inject_Z (Capstone.age p) == Capstone.lifespan p -> a == 0))
  /\
  (exists s artist s' out,
      Capstone.setup_size w h s0 = Ok s /\
      dict_get (Capstone.artists s) (Capstone.current_artist s) = Ok artist /\
      Capstone.frames n s = Ok (s', out) /\
      Forall (fun c => forall a, cmd_alpha c = Some a ->
                - (Capstone.opacity artist / 100) <= a
                <= Capstone.opacity artist) out).
Proof.
  intros Hu Hw Hh Hs Hkey. split.
  - intros p artist Ha HL Hop.
    exists ((1 - inject_Z (Capstone.age p) / Capstone.lifespan p)
            * Capstone.opacity artist).
    split; [apply alpha_value; Lqa.lra |]. split; [reflexivity |].
    apply alpha_within_life; assumption.
  - destruct (setup_ready Hu w h s0 Hw Hh Hs Hkey)
      as [s [artist [E [Hready _]]]].
    destruct (frames_ready Hu s artist n Hready)
      as [s' [out [E' [_ [_ [_ [_ [_ [_ [Hfaded _]]]]]]]]]].
    exists s, artist, s', out.
    split; [exact E |]. split; [apply Hready |]. split; [exact E' |].
    exact Hfaded.
Qed.

(** [setup] on any canvas at all: the pool is built whatever the sign of
    the size, since a particle needs only a palette to pick from. *)
Lemma reset_returns (py5 : Py5 Q) (w h : Z) (artist : Capstone.profile Q)
  (k : nat) :
  unit_samples py5 -> Capstone.palette artist <> [] ->
  exists p k', Capstone.reset w h artist k = Ok (p, k').
Proof.
  intros Hu Hpal. unfold Capstone.reset, random1, random2.
  destruct (getitem_in_range (Capstone.palette artist)
              (to_int (fmul (of_int (Z.of_nat (length (Capstone.palette artist))))
                            (py5_uniform (S (S k))))))
    as [c [Ec _]].
  { apply Q_index_in_range; [apply Hu |].
    destruct (Capstone.palette artist); [congruence | discriminate]. }
  rewrite Ec. cbn [bind]. eexists. eexists. reflexivity.
Qed.

Lemma new_particle_returns (py5 : Py5 Q) (s : FlowFields.sketch Q) (k : nat) :
  unit_samples py5 -> FlowFields.palette s <> [] ->
  exists p k', FlowFields.new_particle s k = Ok (p, k').
Proof.
  intros Hu Hpal. unfold FlowFields.new_particle, random1, random2.
  destruct (getitem_in_range (FlowFields.palette s)
              (to_int (fmul (of_int (Z.of_nat (length (FlowFields.palette s))))
                            (py5_uniform (S (S (S k)))))))
    as [c [Ec _]].
  { apply Q_index_in_range; [apply Hu |].
    destruct (FlowFields.palette s); [congruence | discriminate]. }
  rewrite Ec. cbn [bind]. eexists. eexists. reflexivity.
Qed.

Lemma flow_setup_any_canvas (py5 : Py5 Q) (w h : Z) (s0 : FlowFields.sketch Q) :
  unit_samples py5 -> FlowFields.scale s0 <> 0%Z ->
  exists s, FlowFields.setup_size w h s0 = Ok s /\
            FlowFields.width s = w /\ FlowFields.height s = h.
Proof.
  intros Hu Hs. unfold FlowFields.setup_size, pydiv.
  rewrite Q_fis0_of_int.
  destruct (Z.eqb_spec (FlowFields.scale s0) 0) as [E | _]; [contradiction |].
  cbn [bind].
  match goal with
  | |- context [comprehension ?n ?make ?k] =>
      destruct (comprehension_all (fun _ => True) make n k)
        as [ps [k' [E _]]]
  end.
  { intros k.
    match goal with
    | |- context [FlowFields.new_particle ?s1 k] =>
        destruct (new_particle_returns py5 s1 k Hu) as [q [k' E]]
    end; [cbn; discriminate | eauto]. }
  rewrite E. cbn [bind]. eexists. split; [reflexivity |]. split; reflexivity.
Qed.

Lemma capstone_setup_any_canvas (py5 : Py5 Q) (w h : Z)
  (s0 : Capstone.sketch Q) :
  unit_samples py5 -> Capstone.scale s0 <> 0%Z ->
  builtin_artist (Capstone.current_artist s0) ->
  exists s, Capstone.setup_size w h s0 = Ok s /\
            Capstone.width s = w /\ Capstone.height s = h.
Proof.
  intros Hu Hs Hkey. unfold Capstone.setup_size, pydiv.
  rewrite Q_fis0_of_int.
  destruct (Z.eqb_spec (Capstone.scale s0) 0) as [E | _]; [contradiction |].
  cbn [bind].
  destruct (init_artists_builtin (Capstone.artists s0) _ Hkey)
    as [artist [Eart [Hpal _]]].
  rewrite Eart. cbn [bind].
  match goal with
  | |- context [comprehension ?n ?make ?k] =>
      destruct (comprehension_all (fun _ => True) make n k)
        as [ps [k' [E _]]]
  end.
  { intros k. destruct (reset_returns py5 w h artist k Hu Hpal) as [q [k' E]].
    eauto. }
  rewrite E. cbn [bind]. eexists. split; [reflexivity |]. split; reflexivity.
Qed.

(** C8, as the code has it.  The statements of [setup] check nothing.  A
    cell size of [0] stops them with [ZeroDivisionError]; with any other
    cell size they run to the end on every canvas size, zero and negative
    sizes included (in the capstone: with one of the four artists
    selected, as the module selects one); so the only exception they raise
    is that [ZeroDivisionError].  On a canvas that is not negative, with a
    positive cell size, [setup] completes and so does every later frame;
    with an empty pool and the overlay off, a frame issues no draw request
    and the pool stays empty. *)
Theorem setup_checks_nothing_and_draw_never_raises
  (py5 : Py5 Q) (w h : Z)
  (sf0 : FlowFields.sketch Q) (sc0 : Capstone.sketch Q) (n : nat) :
  unit_samples py5 ->
  (FlowFields.scale sf0 = 0%Z ->
   FlowFields.setup_size w h sf0 = Raise ZeroDivisionError) /\
  (Capstone.scale sc0 = 0%Z ->
   Capstone.setup_size w h sc0 = Raise ZeroDivisionError) /\
  (FlowFields.scale sf0 <> 0%Z ->
   exists sf, FlowFields.setup_size w h sf0 = Ok sf /\
              FlowFields.width sf = w /\ FlowFields.height sf = h) /\
  (Capstone.scale sc0 <> 0%Z ->
   builtin_artist (Capstone.current_artist sc0) ->
   exists sc, Capstone.setup_size w h sc0 = Ok sc /\
              Capstone.width sc = w /\ Capstone.height sc = h) /\
  (forall e, FlowFields.setup_size w h sf0 = Raise e ->
             e = ZeroDivisionError /\ FlowFields.scale sf0 = 0%Z) /\
  (forall e, builtin_artist (Capstone.current_artist sc0) ->
             Capstone.setup_size w h sc0 = Raise e ->
             e = ZeroDivisionError /\ Capstone.scale sc0 = 0%Z) /\
  ((0 <= w)%Z -> (0 <= h)%Z -> (0 < FlowFields.scale sf0)%Z ->
   exists sf sf' out,
     FlowFields.setup_size w h sf0 = Ok sf /\
     FlowFields.frames n sf = Ok (sf', out) /\
     ((FlowFields.num_particles sf0 <= 0)%Z ->
      FlowFields.show_field sf0 = false ->
      out = [] /\ FlowFields.particles sf' = [])) /\
  ((0 <= w)%Z -> (0 <= h)%Z -> (0 < Capstone.scale sc0)%Z ->
   builtin_artist (Capstone.current_artist sc0) ->
   exists sc sc' out,
     Capstone.setup_size w h sc0 = Ok sc /\
     Capstone.frames n sc = Ok (sc', out) /\
     ((Capstone.max_particles sc0 <= 0)%Z ->
      Capstone.show_field sc0 = false ->
      out = [] /\ Capstone.particles sc' = [])).
Proof.
  intros Hu.
  assert (Zf : FlowFields.scale sf0 = 0%Z ->
               FlowFields.setup_size w h sf0 = Raise ZeroDivisionError).
  { intros E. unfold FlowFields.setup_size, pydiv.
    rewrite Q_fis0_of_int, E. reflexivity. }
  assert (Zc : Capstone.scale sc0 = 0%Z ->
               Capstone.setup_size w h sc0 = Raise ZeroDivisionError).
  { intros E. unfold Capstone.setup_size, pydiv.
    rewrite Q_fis0_of_int, E. reflexivity. }
  split; [exact Zf |]. split; [exact Zc |].
  split; [now apply flow_setup_any_canvas |].
  split; [now apply capstone_setup_any_canvas |].
  split; [| split; [| split]].
  - intros e E.
    destruct (Z.eq_dec (FlowFields.scale sf0) 0) as [E0 | N0].
    + rewrite (Zf E0) in E. injection E as <-. auto.
    + destruct (flow_setup_any_canvas py5 w h sf0 Hu N0) as [sf [E' _]].
      congruence.
  - intros e Hkey E.
    destruct (Z.eq_dec (Capstone.scale sc0) 0) as [E0 | N0].
    + rewrite (Zc E0) in E. injection E as <-. auto.
    + destruct (capstone_setup_any_canvas py5 w h sc0 Hu N0 Hkey)
        as [sc [E' _]].
      congruence.
  - intros Hw Hh Hs.
    destruct (flow_setup_ready Hu w h sf0 Hw Hh Hs)
      as [sf [E [Hready [Hlen [_ [_ [_ [_ [_ Hshow]]]]]]]]].
    destruct (flow_frames_ready sf n Hready)
      as [sf' [out [E' [_ [Hlen' [_ [_ [_ Hempty]]]]]]]].
    exists sf, sf', out. split; [exact E | split; [exact E' |]].
    intros Hnone Hoff.
    assert (Hnil : FlowFields.particles sf = []).
    { destruct (FlowFields.particles sf); [reflexivity |].
      cbn in Hlen. lia. }
    split; [apply Hempty; congruence |].
    destruct (FlowFields.particles sf'); [reflexivity |].
    rewrite Hnil in Hlen'. discriminate.
  - intros Hw Hh Hs Hkey.
    destruct (setup_ready Hu w h sc0 Hw Hh Hs Hkey)
      as [sc [artist [E [Hready [Hlen [_ [_ [_ [_ [_ [_ Hshow]]]]]]]]]]].
    destruct (frames_ready Hu sc artist n Hready)
      as [sc' [out [E' [_ [Hlen' [_ [_ [_ [_ [_ Hempty]]]]]]]]]].
    exists sc, sc', out. split; [exact E | split; [exact E' |]].
    intros Hnone Hoff.
    assert (Hnil : Capstone.particles sc = []).
    { destruct (Capstone.particles sc); [reflexivity |].
      cbn in Hlen. lia. }
    split; [apply Hempty; congruence |].
    destruct (Capstone.particles sc'); [reflexivity |].
    rewrite Hnil in Hlen'. discriminate.
Qed.

End Runs.

(** ** The speed after [follow], over the reals *)

Section RealSpeed.
Variable noise : R -> R -> R -> R.
Variable uniform : nat -> R.
Local Open Scope R_scope.

Lemma unit_vector_scaled (angle speed : R) :
  cos angle * speed * (cos angle * speed)
  + sin angle * speed * (sin angle * speed) = speed * speed.
Proof.
  pose proof (sin2_cos2 angle) as H. unfold Rsqr in H.
  replace (cos angle * speed * (cos angle * speed)
           + sin angle * speed * (sin angle * speed))
    with ((sin angle * sin angle + cos angle * cos angle) * (speed * speed))
    by ring.
  rewrite H. ring.
Qed.

Lemma R_fis0_of_int (z : Z) : z <> 0%Z -> fis0 (of_int z : R) = false.
Proof.
  intros Hz. cbn. destruct (Req_dec_T (IZR z) 0) as [E | _]; [| reflexivity].
  apply eq_IZR_R0 in E. contradiction.
Qed.

(** What [follow] assigns, in any number system: the two products of the
    sketch, on the angle of the clamped cell. *)
Lemma flow_follow_assigns {F : Type} {num : Num F} {lib : Py5 F}
  (s : FlowFields.sketch F) (p p' : FlowFields.FlowParticle F)
  (f : list (list F)) :
  FlowFields.follow s p f = Ok p' ->
  exists qx qy angle,
    pydiv (FlowFields.x p) (of_int (FlowFields.scale s)) = Ok qx /\
    pydiv (FlowFields.y p) (of_int (FlowFields.scale s)) = Ok qy /\
    getitem2 f (constrain (to_int qx) 0 (FlowFields.cols s - 1))
               (constrain (to_int qy) 0 (FlowFields.rows s - 1)) = Ok angle /\
    FlowFields.vx p' = fmul (py5_cos angle) (FlowFields.max_speed p) /\
    FlowFields.vy p' = fmul (py5_sin angle) (FlowFields.max_speed p) /\
    FlowFields.max_speed p' = FlowFields.max_speed p /\
    FlowFields.x p' = FlowFields.x p /\ FlowFields.y p' = FlowFields.y p.
Proof.
  unfold FlowFields.follow.
  destruct (pydiv (FlowFields.x p) _) as [qx |] eqn:Ex; cbn [bind];
    [| discriminate].
  destruct (pydiv (FlowFields.y p) _) as [qy |] eqn:Ey; cbn [bind];
    [| discriminate].
  destruct (getitem2 _ _ _) as [angle |] eqn:Ea; cbn [bind]; [| discriminate].
  intros E. injection E as <-. exists qx, qy, angle. cbn. auto 10.
Qed.

Lemma capstone_follow_assigns {F : Type} {num : Num F} {lib : Py5 F}
  (s : Capstone.sketch F) (p p' : Capstone.ArtParticle F)
  (f : list (list F)) :
  Capstone.follow s p f = Ok p' ->
  exists qx qy angle,
    pydiv (Capstone.x p) (of_int (Capstone.scale s)) = Ok qx /\
    pydiv (Capstone.y p) (of_int (Capstone.scale s)) = Ok qy /\
    getitem2 f (constrain (to_int qx) 0 (Capstone.cols s - 1))
               (constrain (to_int qy) 0 (Capstone.rows s - 1)) = Ok angle /\
    Capstone.vx p' = fmul (py5_cos angle) (Capstone.max_speed p) /\
    Capstone.vy p' = fmul (py5_sin angle) (Capstone.max_speed p) /\
    Capstone.max_speed p' = Capstone.max_speed p /\
    Capstone.x p' = Capstone.x p /\ Capstone.y p' = Capstone.y p.
Proof.
  unfold Capstone.follow.
  destruct (pydiv (Capstone.x p) _) as [qx |] eqn:Ex; cbn [bind];
    [| discriminate].
  destruct (pydiv (Capstone.y p) _) as [qy |] eqn:Ey; cbn [bind];
    [| discriminate].
  destruct (getitem2 _ _ _) as [angle |] eqn:Ea; cbn [bind]; [| discriminate].
  intros E. injection E as <-. exists qx, qy, angle. cbn. auto 10.
Qed.

(** C9, as the code has it.  In any number system, binary64 included,
    [follow] sets [vx = cos(angle) * max_speed] and
    [vy = sin(angle) * max_speed], each the one product of that number
    system, for the angle held by the clamped cell, and leaves [max_speed]
    and the position alone.  Read in exact arithmetic, with [cos] and [sin]
    the real cosine and sine, that is a velocity of length [max_speed]:
    [vx^2 + vy^2 = max_speed^2] whatever the angle; and on a well-shaped
    grid [follow] does return. *)
Theorem follow_sets_speed_to_max_speed
  (sf : FlowFields.sketch R) (pf : FlowFields.FlowParticle R)
  (sc : Capstone.sketch R) (pc : Capstone.ArtParticle R)
  (ff fc : list (list R)) :
  (forall (F : Type) (num : Num F) (lib : Py5 F)
          (s : FlowFields.sketch F) (p p' : FlowFields.FlowParticle F)
          (f : list (list F)),
      FlowFields.follow s p f = Ok p' ->
      exists qx qy angle,
        pydiv (FlowFields.x p) (of_int (FlowFields.scale s)) = Ok qx /\
        pydiv (FlowFields.y p) (of_int (FlowFields.scale s)) = Ok qy /\
        getitem2 f (constrain (to_int qx) 0 (FlowFields.cols s - 1))
                   (constrain (to_int qy) 0 (FlowFields.rows s - 1))
        = Ok angle /\
        FlowFields.vx p' = fmul (py5_cos angle) (FlowFields.max_speed p) /\
        FlowFields.vy p' = fmul (py5_sin angle) (FlowFields.max_speed p) /\
        FlowFields.max_speed p' = FlowFields.max_speed p /\
        FlowFields.x p' = FlowFields.x p /\ FlowFields.y p' = FlowFields.y p) /\
  (forall (F : Type) (num : Num F) (lib : Py5 F)
          (s : Capstone.sketch F) (p p' : Capstone.ArtParticle F)
          (f : list (list F)),
      Capstone.follow s p f = Ok p' ->
      exists qx qy angle,
        pydiv (Capstone.x p) (of_int (Capstone.scale s)) = Ok qx /\
        pydiv (Capstone.y p) (of_int (Capstone.scale s)) = Ok qy /\
        getitem2 f (constrain (to_int qx) 0 (Capstone.cols s - 1))
                   (constrain (to_int qy) 0 (Capstone.rows s - 1))
        = Ok angle /\
        Capstone.vx p' = fmul (py5_cos angle) (Capstone.max_speed p) /\
        Capstone.vy p' = fmul (py5_sin angle) (Capstone.max_speed p) /\
        Capstone.max_speed p' = Capstone.max_speed p /\
        Capstone.x p' = Capstone.x p /\ Capstone.y p' = Capstone.y p) /\
  (forall p', @FlowFields.follow R R_num (R_py5 noise uniform) sf pf ff = Ok p' ->
     FlowFields.vx p' * FlowFields.vx p' + FlowFields.vy p' * FlowFields.vy p'
     = FlowFields.max_speed p' * FlowFields.max_speed p' /\
     FlowFields.max_speed p' = FlowFields.max_speed pf) /\
  (forall q', @Capstone.follow R R_num (R_py5 noise uniform) sc pc fc = Ok q' ->
     Capstone.vx q' * Capstone.vx q' + Capstone.vy q' * Capstone.vy q'
     = Capstone.max_speed q' * Capstone.max_speed q' /\
     Capstone.max_speed q' = Capstone.max_speed pc) /\
  (FlowFields.scale sf <> 0%Z ->
   (1 <= FlowFields.cols sf)%Z -> (1 <= FlowFields.rows sf)%Z ->
   well_shaped (FlowFields.cols sf) (FlowFields.rows sf) ff ->
   exists p', @FlowFields.follow R R_num (R_py5 noise uniform) sf pf ff = Ok p') /\
  (Capstone.scale sc <> 0%Z ->
   (1 <= Capstone.cols sc)%Z -> (1 <= Capstone.rows sc)%Z ->
   well_shaped (Capstone.cols sc) (Capstone.rows sc) fc ->
   exists q', @Capstone.follow R R_num (R_py5 noise uniform) sc pc fc = Ok q').
Proof.
  split; [| split; [| split; [| split; [| split]]]].
  - intros F num lib s p p' f. apply flow_follow_assigns.
  - intros F num lib s p p' f. apply capstone_follow_assigns.
  - intros p'. unfold FlowFields.follow.
    destruct (pydiv _ _) as [qx |]; cbn [bind]; [| discriminate].
    destruct (pydiv _ _) as [qy |]; cbn [bind]; [| discriminate].
    destruct (getitem2 _ _ _) as [angle |]; cbn [bind]; [| discriminate].
    intros E. injection E as <-. cbn.
    split; [apply unit_vector_scaled | reflexivity].
  - intros q'. unfold Capstone.follow.
    destruct (pydiv _ _) as [qx |]; cbn [bind]; [| discriminate].
    destruct (pydiv _ _) as [qy |]; cbn [bind]; [| discriminate].
    destruct (getitem2 _ _ _) as [angle |]; cbn [bind]; [| discriminate].
    intros E. injection E as <-. cbn.
    split; [apply unit_vector_scaled | reflexivity].
  - intros Hs Hc Hr Hsh.
    destruct (@flow_follow_total R R_num (R_py5 noise uniform) sf pf ff
            (R_fis0_of_int _ Hs) Hc Hr Hsh)
      as [_ [_ [column [angle [_ [_ E]]]]]].
    eexists. exact E.
  - intros Hs Hc Hr Hsh.
    destruct (@capstone_follow_total R R_num (R_py5 noise uniform) sc pc fc
            (R_fis0_of_int _ Hs) Hc Hr Hsh)
      as [_ [_ [column [angle [_ [_ E]]]]]].
    eexists. exact E.
Qed.

End RealSpeed.

(** ** The theorems on concrete sketches, and where the specification
       departs from the code *)

Section Concrete.
Local Open Scope Q_scope.

Lemma flat_unit_samples : unit_samples Fixtures.flat.
Proof. intros k. cbn. split; [discriminate | reflexivity]. Qed.

Lemma monet_is_builtin : builtin_artist "monet".
Proof. left. reflexivity. Qed.

Lemma wrap_resets_previous_position_witness :
  (0 < FlowFields.width Fixtures.flow)%Z /\
  FlowFields.x Fixtures.flow_particle
    == inject_Z (FlowFields.width Fixtures.flow) - 1 /\
  FlowFields.vx Fixtures.flow_particle == 10 /\
  FlowFields.x (FlowFields.update Fixtures.flow Fixtures.flow_particle) = 0 /\
  FlowFields.prev_x (FlowFields.update Fixtures.flow Fixtures.flow_particle) = 0.
Proof.
  assert (Hw : (0 < FlowFields.width Fixtures.flow)%Z) by reflexivity.
  assert (Hx : FlowFields.x Fixtures.flow_particle
               == inject_Z (FlowFields.width Fixtures.flow) - 1)
    by reflexivity.
  assert (Hv : FlowFields.vx Fixtures.flow_particle == 10) by reflexivity.
  split; [exact Hw | split; [exact Hx | split; [exact Hv |]]].
  destruct (wrap_resets_previous_position Fixtures.flow Fixtures.flow_particle
              Fixtures.capstone Fixtures.art_particle)
    as [[_ [_ Htest]] _].
  exact (Htest Hw Hx Hv).
Defined.

(** C4 as the specification words it fails on the very sketches: lesson 07
    on its 800 by 600 canvas with cells of 20 gets 41 columns, and the
    ceiling of [800 / 20] is 40. *)
Lemma grid_is_not_the_ceiling :
  match @FlowFields.setup Q Q_num Fixtures.flat FlowFields.globals with
  | Ok s =>
      FlowFields.cols s = 41%Z /\
      spec_cells (FlowFields.width s) (FlowFields.scale s) = 40%Z
  | Raise _ => False
  end.
Proof. vm_compute. split; reflexivity. Qed.

Lemma grid_is_quotient_plus_one_witness :
  exists sf sc,
    @FlowFields.setup_size Q Q_num Fixtures.flat 40 30
      Fixtures.flow_globals_one = Ok sf /\
    @Capstone.setup_size Q Q_num Fixtures.flat 40 30
      Fixtures.capstone_globals_one = Ok sc /\
    sized_by_quotient 40 20 (FlowFields.cols sf) /\
    sized_by_quotient 30 20 (FlowFields.rows sf) /\
    sized_by_quotient 40 15 (Capstone.cols sc) /\
    sized_by_quotient 30 15 (Capstone.rows sc).
Proof.
  eexists. eexists.
  split; [vm_compute; reflexivity |].
  split; [vm_compute; reflexivity |].
  apply (@grid_is_quotient_plus_one Fixtures.flat 40 30
           Fixtures.flow_globals_one _ Fixtures.capstone_globals_one _);
    reflexivity.
Defined.

Lemma clamping_is_idle_on_canvas_witness :
  (let col := to_int (fdiv (FlowFields.x Fixtures.flow_particle)
                           (of_int (FlowFields.scale Fixtures.flow))) in
   (0 <= col <= FlowFields.cols Fixtures.flow - 1)%Z /\
   constrain col 0 (FlowFields.cols Fixtures.flow - 1) = col) /\
  (let col := to_int (fdiv (Capstone.x Fixtures.art_particle)
                           (of_int (Capstone.scale Fixtures.capstone))) in
   (0 <= col <= Capstone.cols Fixtures.capstone - 1)%Z /\
   constrain col 0 (Capstone.cols Fixtures.capstone - 1) = col).
Proof.
  destruct (clamping_is_idle_on_canvas Fixtures.flow Fixtures.flow_particle
              Fixtures.capstone Fixtures.art_particle)
    as [[A1 [_ [A2 _]]] [B1 [_ [B2 _]]]];
    try reflexivity; try (split; discriminate).
  split; split; assumption.
Defined.

(** C5 as the specification words it fails: a particle one unit from the
    left edge moving left by three is wrapped to the extent itself, which
    the half-open box excludes. *)
Lemma wrapped_left_lands_on_the_far_edge :
  FlowFields.x (FlowFields.update Fixtures.flow Fixtures.flow_particle_left)
  = inject_Z (FlowFields.width Fixtures.flow) /\
  ~ (FlowFields.x (FlowFields.update Fixtures.flow Fixtures.flow_particle_left)
     < inject_Z (FlowFields.width Fixtures.flow)).
Proof. split; [reflexivity | discriminate]. Qed.

Lemma positions_stay_on_closed_canvas_witness :
  unit_samples Fixtures.flat /\
  builtin_artist (Capstone.current_artist Fixtures.capstone_globals_one) /\
  (exists sf sf' out,
      @FlowFields.setup_size Q Q_num Fixtures.flat 40 30
        Fixtures.flow_globals_one = Ok sf /\
      @FlowFields.frames Q Q_num Fixtures.flat 2 sf = Ok (sf', out) /\
      Forall (FlowInv.on_canvas 40 30) (FlowFields.particles sf') /\
      FlowInv.on_canvas 40 30
        (FlowFields.update sf' Fixtures.flow_particle_left)) /\
  (exists sc sc' out,
      @Capstone.setup_size Q Q_num Fixtures.flat 40 30
        Fixtures.capstone_globals_one = Ok sc /\
      @Capstone.frames Q Q_num Fixtures.flat 2 sc = Ok (sc', out) /\
      Forall (CapstoneInv.on_canvas 40 30) (Capstone.particles sc') /\
      CapstoneInv.on_canvas 40 30
        (Capstone.update sc' Fixtures.art_particle)).
Proof.
  split; [exact flat_unit_samples |]. split; [exact monet_is_builtin |].
  apply (positions_stay_on_closed_canvas Fixtures.flat 40 30
           Fixtures.flow_globals_one Fixtures.flow_particle_left
           Fixtures.capstone_globals_one Fixtures.art_particle 2
           flat_unit_samples);
    try reflexivity; try discriminate.
  exact monet_is_builtin.
Defined.

Lemma pool_size_is_constant_witness :
  exists s s' out,
    @Capstone.setup_size Q Q_num Fixtures.flat 30 30
      Fixtures.capstone_globals_one = Ok s /\
    length (Capstone.particles s) = 1%nat /\
    @Capstone.frames Q Q_num Fixtures.flat 3 s = Ok (s', out) /\
    length (Capstone.particles s') = 1%nat /\
    Forall (fun p => Capstone.is_dead p = false) (Capstone.particles s').
Proof.
  destruct (pool_size_is_constant Fixtures.flat 30 30
              Fixtures.capstone_globals_one 3 flat_unit_samples)
    as [[s [s' [out [E [Hlen [E' [Hlen' [Halive _]]]]]]]] _];
    try reflexivity; try discriminate.
  - exact monet_is_builtin.
  - exists s, s', out. auto.
Defined.

(** C7 as the specification words it fails: with every lifespan drawn at
    [100.5], the one particle of the pool is drawn on its frame 101 with
    a negative alpha. *)
Lemma last_frame_alpha_is_negative :
  match bind (@Capstone.setup_size Q Q_num Fixtures.flat_short_lived 30 30
                Fixtures.capstone_globals_one)
             (@Capstone.frames Q Q_num Fixtures.flat_short_lived 101) with
  | Ok (_, out) =>
      exists a, cmd_alpha (last out (Arrow 0 0 0)) = Some a /\ a < 0
  | Raise _ => False
  end.
Proof. vm_compute. eexists. split; reflexivity. Qed.

Lemma alpha_fades_linearly_witness :
  exists s artist s' out,
    @Capstone.setup_size Q Q_num Fixtures.flat 30 30
      Fixtures.capstone_globals_one = Ok s /\
    dict_get (Capstone.artists s) (Capstone.current_artist s) = Ok artist /\
    @Capstone.frames Q Q_num Fixtures.flat 3 s = Ok (s', out) /\
    Forall (fun c => forall a, cmd_alpha c = Some a ->
              - (Capstone.opacity artist / 100) <= a
              <= Capstone.opacity artist) out.
Proof.
  destruct (alpha_fades_linearly Fixtures.flat 30 30
              Fixtures.capstone_globals_one 3 flat_unit_samples)
    as [_ H]; try reflexivity; try discriminate.
  - exact monet_is_builtin.
  - exact H.
Defined.

(** C8 as the specification words it fails twice.  [setup] accepts a
    canvas of 0 by 0 in both sketches; and it accepts a canvas of -1200
    by 800, after which the first frame raises [IndexError]. *)
Lemma any_canvas_is_accepted :
  is_ok (@Capstone.setup_size Q Q_num Fixtures.flat 0 0 Capstone.globals)
  = true /\
  is_ok (@FlowFields.setup_size Q Q_num Fixtures.flat 0 0 FlowFields.globals)
  = true /\
  is_ok (@Capstone.setup_size Q Q_num Fixtures.flat (-1200) 800
           Capstone.globals) = true /\
  bind (@Capstone.setup_size Q Q_num Fixtures.flat (-1200) 800
          Capstone.globals)
       (@Capstone.draw Q Q_num Fixtures.flat) = Raise IndexError.
Proof. repeat split; vm_compute; reflexivity. Qed.

Lemma setup_checks_nothing_and_draw_never_raises_witness :
  unit_samples Fixtures.flat /\
  (exists sf sf' out,
      @FlowFields.setup_size Q Q_num Fixtures.flat 40 30
        Fixtures.flow_globals_one = Ok sf /\
      @FlowFields.frames Q Q_num Fixtures.flat 3 sf = Ok (sf', out)) /\
  (exists sc sc' out,
      @Capstone.setup_size Q Q_num Fixtures.flat 40 30
        Fixtures.capstone_globals_one = Ok sc /\
      @Capstone.frames Q Q_num Fixtures.flat 3 sc = Ok (sc', out)) /\
  (exists sf,
      @FlowFields.setup_size Q Q_num Fixtures.flat (-800) (-600)
        FlowFields.globals = Ok sf /\
      FlowFields.width sf = (-800)%Z /\ FlowFields.height sf = (-600)%Z) /\
  (exists sc,
      @Capstone.setup_size Q Q_num Fixtures.flat (-1200) 800
        Capstone.globals = Ok sc /\
      Capstone.width sc = (-1200)%Z /\ Capstone.height sc = 800%Z).
Proof.
  split; [exact flat_unit_samples |].
  destruct (setup_checks_nothing_and_draw_never_raises Fixtures.flat 40 30
              Fixtures.flow_globals_one Fixtures.capstone_globals_one 3
              flat_unit_samples)
    as [_ [_ [_ [_ [_ [_ [Hf Hc]]]]]]].
  destruct (setup_checks_nothing_and_draw_never_raises Fixtures.flat
              (-800) (-600) FlowFields.globals Capstone.globals 0
              flat_unit_samples)
    as [_ [_ [Hnf _]]].
  destruct (setup_checks_nothing_and_draw_never_raises Fixtures.flat
              (-1200) 800 FlowFields.globals Capstone.globals 0
              flat_unit_samples)
    as [_ [_ [_ [Hnc _]]]].
  split; [| split; [| split]].
  - destruct Hf as [sf [sf' [out [E [E' _]]]]];
      try reflexivity; try discriminate.
    exists sf, sf', out. split; assumption.
  - destruct Hc as [sc [sc' [out [E [E' _]]]]];
      try reflexivity; try discriminate; try exact monet_is_builtin.
    exists sc, sc', out. split; assumption.
  - apply Hnf. discriminate.
  - apply Hnc; [discriminate | exact monet_is_builtin].
Defined.

End Concrete.

Section ConcreteReal.
Local Open Scope R_scope.

Lemma follow_sets_speed_to_max_speed_witness :
  exists p' q',
    @FlowFields.follow R R_num Fixtures.real_py5 Fixtures.real_flow
      Fixtures.real_flow_particle (FlowFields.field Fixtures.real_flow)
    = Ok p' /\
    FlowFields.vx p' * FlowFields.vx p' + FlowFields.vy p' * FlowFields.vy p'
    = 3 * 3 /\
    @Capstone.follow R R_num Fixtures.real_py5 Fixtures.real_capstone
      Fixtures.real_art_particle (Capstone.field Fixtures.real_capstone)
    = Ok q' /\
    Capstone.vx q' * Capstone.vx q' + Capstone.vy q' * Capstone.vy q'
    = 2 * 2.
Proof.
  destruct (follow_sets_speed_to_max_speed
              (fun _ _ _ => 0) (fun _ => 0)
              Fixtures.real_flow Fixtures.real_flow_particle
              Fixtures.real_capstone Fixtures.real_art_particle
              (FlowFields.field Fixtures.real_flow)
              (Capstone.field Fixtures.real_capstone))
    as [_ [_ [Hf [Hc [Tf Tc]]]]].
  destruct Tf as [p' Ep].
  { discriminate. }
  { cbn; lia. }
  { cbn; lia. }
  { split; [reflexivity | repeat constructor]. }
  destruct Tc as [q' Eq].
  { discriminate. }
  { cbn; lia. }
  { cbn; lia. }
  { split; [reflexivity | repeat constructor]. }
  exists p', q'.
  destruct (Hf p' Ep) as [Hspeed Hmax].
  destruct (Hc q' Eq) as [Hspeed' Hmax'].
  split; [exact Ep |].
  split; [rewrite Hspeed, Hmax; reflexivity |].
  split; [exact Eq |].
  rewrite Hspeed', Hmax'. reflexivity.
Defined.

End ConcreteReal.

(** C9 as it is worded fails in the arithmetic the sketches run in.  A
    particle of speed [2.0] in a cell holding the angle [3.0] gets
    [vx = cos(3.0) * 2.0 = -1.9799849932008908] and
    [vy = sin(3.0) * 2.0 = 0.2822400161197344]; the sum of their squares,
    computed in binary64, is [3.9999999999999996] and not [4.0], and the
    exact sum of the squares of these two floats is below 4 as well. *)
Lemma follow_speed_is_rounded :
  match @FlowFields.follow PrimFloat.float B64_num B64_py5_at_3
          Fixtures.binary64_flow Fixtures.binary64_flow_particle
          (FlowFields.field Fixtures.binary64_flow),
        @Capstone.follow PrimFloat.float B64_num B64_py5_at_3
          Fixtures.binary64_capstone Fixtures.binary64_art_particle
          (Capstone.field Fixtures.binary64_capstone)
  with
  | Ok p', Ok q' =>
      FlowFields.vx p' = B64_literal true 8917059677578706 (-52) /\
      FlowFields.vy p' = B64_literal false 5084384125703515 (-54) /\
      FlowFields.max_speed p' = B64_of_int 2 /\
      fadd (fmul (FlowFields.vx p') (FlowFields.vx p'))
           (fmul (FlowFields.vy p') (FlowFields.vy p'))
      = B64_literal false 9007199254740991 (-51) /\
      fmul (FlowFields.max_speed p') (FlowFields.max_speed p') = B64_of_int 4 /\
      PrimFloat.eqb
        (fadd (fmul (FlowFields.vx p') (FlowFields.vx p'))
              (fmul (FlowFields.vy p') (FlowFields.vy p')))
        (fmul (FlowFields.max_speed p') (FlowFields.max_speed p')) = false /\
      (B64_value (FlowFields.vx p') * B64_value (FlowFields.vx p')
       + B64_value (FlowFields.vy p') * B64_value (FlowFields.vy p')
       < B64_value (FlowFields.max_speed p')
         * B64_value (FlowFields.max_speed p'))%Q /\
      PrimFloat.eqb
        (fadd (fmul (Capstone.vx q') (Capstone.vx q'))
              (fmul (Capstone.vy q') (Capstone.vy q')))
        (fmul (Capstone.max_speed q') (Capstone.max_speed q')) = false /\
      (B64_value (Capstone.vx q') * B64_value (Capstone.vx q')
       + B64_value (Capstone.vy q') * B64_value (Capstone.vy q')
       < B64_value (Capstone.max_speed q')
         * B64_value (Capstone.max_speed q'))%Q
  | _, _ => False
  end.
Proof. vm_compute. repeat split. Qed.

(** * Further properties *)

(** ** [update], case by case *)

Section UpdateCases.
Local Open Scope Q_scope.

Ltac lra_over_extent w :=
  exfalso;
  repeat match goal with
         | H : context [inject_Z w] |- _ => revert H
         end;
  generalize (inject_Z w); intros; Lqa.lra.

Lemma wrap_moved_or_wrapped (w : Z) (c v : Q) :
  moved_or_wrapped w c v (fst (wrap w (c + v) c)) (snd (wrap w (c + v) c)).
Proof.
  unfold moved_or_wrapped, wrap.
  destruct (fltb (c + v) (of_int 0)) eqn:E0.
  - apply Q_fltb_true in E0. change (of_int 0 : Q) with 0 in E0.
    assert (E1 : fgtb (of_int w : Q) (of_int w) = false)
      by (apply Q_fltb_false; apply Qle_refl).
    rewrite E1. cbn [fst snd].
    split; [| split]; intros;
      first [split; reflexivity | lra_over_extent w].
  - apply Q_fltb_false in E0. change (of_int 0 : Q) with 0 in E0.
    destruct (fgtb (c + v) (of_int w)) eqn:E1.
    + apply Q_fltb_true in E1. change (of_int w : Q) with (inject_Z w) in E1.
      cbn [fst snd].
      split; [| split]; intros;
        first [split; reflexivity | lra_over_extent w].
    + apply Q_fltb_false in E1. change (of_int w : Q) with (inject_Z w) in E1.
      cbn [fst snd].
      split; [| split]; intros;
        first [split; reflexivity | lra_over_extent w].
Qed.

(** X1.  On each axis and in both sketches [update] does one of three
    things.  A step that stays on the closed canvas, edges included, is
    taken as it is, and the previous coordinate is the old one.  A step
    past the far edge lands on [0].  A step below [0] lands on the far
    edge itself: the overshoot is dropped, not carried over. *)
Theorem update_moves_or_wraps
  (sf : FlowFields.sketch Q) (pf : FlowFields.FlowParticle Q)
  (sc : Capstone.sketch Q) (pc : Capstone.ArtParticle Q) :
  moved_or_wrapped (FlowFields.width sf) (FlowFields.x pf) (FlowFields.vx pf)
    (FlowFields.x (FlowFields.update sf pf))
    (FlowFields.prev_x (FlowFields.update sf pf)) /\
  moved_or_wrapped (FlowFields.height sf) (FlowFields.y pf) (FlowFields.vy pf)
    (FlowFields.y (FlowFields.update sf pf))
    (FlowFields.prev_y (FlowFields.update sf pf)) /\
  moved_or_wrapped (Capstone.width sc) (Capstone.x pc) (Capstone.vx pc)
    (Capstone.x (Capstone.update sc pc))
    (Capstone.prev_x (Capstone.update sc pc)) /\
  moved_or_wrapped (Capstone.height sc) (Capstone.y pc) (Capstone.vy pc)
    (Capstone.y (Capstone.update sc pc))
    (Capstone.prev_y (Capstone.update sc pc)).
Proof.
  pose proof (wrap_moved_or_wrapped (FlowFields.width sf) (FlowFields.x pf)
                (FlowFields.vx pf)) as H1.
  pose proof (wrap_moved_or_wrapped (FlowFields.height sf) (FlowFields.y pf)
                (FlowFields.vy pf)) as H2.
  pose proof (wrap_moved_or_wrapped (Capstone.width sc) (Capstone.x pc)
                (Capstone.vx pc)) as H3.
  pose proof (wrap_moved_or_wrapped (Capstone.height sc) (Capstone.y pc)
                (Capstone.vy pc)) as H4.
  unfold FlowFields.update, Capstone.update.
  cbn [fadd Q_num] in *.
  destruct (wrap (FlowFields.width sf) _ _), (wrap (FlowFields.height sf) _ _),
    (wrap (Capstone.width sc) _ _), (wrap (Capstone.height sc) _ _).
  cbn in *. auto.
Qed.

Lemma update_moves_or_wraps_witness :
  FlowFields.x (FlowFields.update Fixtures.flow Fixtures.flow_particle_left)
  = inject_Z (FlowFields.width Fixtures.flow) /\
  Capstone.x (Capstone.update Fixtures.capstone Fixtures.art_particle) = 0.
Proof.
  destruct (update_moves_or_wraps Fixtures.flow Fixtures.flow_particle_left
              Fixtures.capstone Fixtures.art_particle)
    as [[Hleft _] [_ [[_ [Hright _]] _]]].
  split.
  - apply Hleft. reflexivity.
  - apply Hright; [discriminate | reflexivity].
Defined.

End UpdateCases.

(** ** Ageing *)

Section Ageing.
Local Open Scope Q_scope.

Lemma updates_age (s : Capstone.sketch Q) (p : Capstone.ArtParticle Q) (k : nat) :
  Capstone.age (Nat.iter k (Capstone.update s) p)
  = (Capstone.age p + Z.of_nat k)%Z /\
  Capstone.lifespan (Nat.iter k (Capstone.update s) p) = Capstone.lifespan p.
Proof.
  induction k as [| k [IHa IHl]].
  - cbn. split; [lia | reflexivity].
  - rewrite Nat.iter_succ.
    set (q := Nat.iter k (Capstone.update s) p) in *.
    unfold Capstone.update.
    destruct (wrap (Capstone.width s) _ _), (wrap (Capstone.height s) _ _).
    cbn. split; [lia | assumption].
Qed.

(** X2.  [is_dead] after [k] calls of [update] says exactly whether the
    lifespan has been reached: it is true when and only when
    [lifespan <= age + k], so a particle that is dead stays dead, and a
    fresh particle ([age = 0]) dies on the first tick that is not below its
    lifespan. *)
Theorem dead_exactly_from_lifespan_on
  (s : Capstone.sketch Q) (p : Capstone.ArtParticle Q) (k m : nat) :
  (Capstone.is_dead (Nat.iter k (Capstone.update s) p) = true <->
   Capstone.lifespan p <= inject_Z (Capstone.age p + Z.of_nat k)) /\
  (Capstone.is_dead (Nat.iter k (Capstone.update s) p) = true ->
   Capstone.is_dead (Nat.iter (k + m) (Capstone.update s) p) = true).
Proof.
  assert (Hdead : forall j,
             Capstone.is_dead (Nat.iter j (Capstone.update s) p) = true <->
             Capstone.lifespan p <= inject_Z (Capstone.age p + Z.of_nat j)).
  { intros j. destruct (updates_age s p j) as [Ea El].
    unfold Capstone.is_dead, fgeb. rewrite Ea, El.
    rewrite Bool.negb_true_iff. apply Q_fltb_false. }
  split; [apply Hdead |].
  intros H. apply Hdead in H. apply Hdead.
  eapply Qle_trans; [exact H |].
  rewrite <- Zle_Qle. lia.
Qed.

End Ageing.

(** ** Fresh particles *)

Section Fresh.
Context {py5 : Py5 Q}.
Hypothesis Hsamples : unit_samples py5.
Local Open Scope Q_scope.

(** [py5.random(low, high)] for an ordered range. *)
Lemma Q_ranged_sample (lo hi u : Q) :
  lo <= hi -> 0 <= u < 1 -> lo <= lo + (hi - lo) * u <= hi.
Proof. intros H [H0 H1]. split; Lqa.nra. Qed.

Lemma getitem_member {A : Type} (l : list A) (i : Z) (a : A) :
  getitem l i = Ok a -> In a l.
Proof.
  unfold getitem. destruct (_ || _); [discriminate |].
  destruct (nth_error l _) eqn:E; [| discriminate].
  intros H. injection H as <-. eapply nth_error_In; eassumption.
Qed.

Lemma reset_fresh (w h : Z) (artist : Capstone.profile Q) (k : nat) :
  (0 <= w)%Z -> (0 <= h)%Z ->
  Capstone.palette artist <> [] ->
  fst (Capstone.speed_range artist) <= snd (Capstone.speed_range artist) ->
  fst (Capstone.stroke_weight_range artist)
  <= snd (Capstone.stroke_weight_range artist) ->
  exists p,
    Capstone.reset w h artist k = Ok (p, (k + 6)%nat) /\
    In (Capstone.col p) (Capstone.palette artist) /\
    fst (Capstone.speed_range artist) <= Capstone.max_speed p
    <= snd (Capstone.speed_range artist) /\
    fst (Capstone.stroke_weight_range artist) <= Capstone.stroke_weight p
    <= snd (Capstone.stroke_weight_range artist) /\
    100 <= Capstone.lifespan p < 300 /\
    Capstone.age p = 0%Z /\
    Capstone.vx p = 0 /\ Capstone.vy p = 0 /\
    Capstone.prev_x p = Capstone.x p /\ Capstone.prev_y p = Capstone.y p /\
    0 <= Capstone.x p <= inject_Z w /\ 0 <= Capstone.y p <= inject_Z h.
Proof.
  intros Hw Hh Hpal Hspeed Hweight.
  unfold Capstone.reset, random1, random2.
  destruct (getitem_in_range (Capstone.palette artist)
              (to_int (fmul (of_int (Z.of_nat (length (Capstone.palette artist))))
                            (py5_uniform (S (S k))))))
    as [c [Ec Hc]].
  { apply Q_index_in_range; [apply Hsamples |].
    destruct (Capstone.palette artist); [congruence | discriminate]. }
  rewrite Ec. cbn [bind]. eexists.
  split; [replace (k + 6)%nat with (S (S (S (S (S (S k)))))) by lia;
          reflexivity |].
  cbn.
  split; [eapply nth_error_In; exact Hc |].
  split; [apply Q_ranged_sample; [exact Hspeed | apply Hsamples] |].
  split; [apply Q_ranged_sample; [exact Hweight | apply Hsamples] |].
  split; [change (inject_Z 100) with 100; change (inject_Z 300) with 300;
          apply Q_lifespan_sample; apply Hsamples |].
  repeat split; try reflexivity;
    apply Q_scaled_sample; try assumption; apply Hsamples.
Qed.

Lemma new_particle_fresh (sf : FlowFields.sketch Q) (k : nat) :
  (0 <= FlowFields.width sf)%Z -> (0 <= FlowFields.height sf)%Z ->
  FlowFields.palette sf <> [] ->
  exists p,
    FlowFields.new_particle sf k = Ok (p, (k + 4)%nat) /\
    In (FlowFields.col p) (FlowFields.palette sf) /\
    2 <= FlowFields.max_speed p < 4 /\
    FlowFields.vx p = 0 /\ FlowFields.vy p = 0 /\
    FlowFields.prev_x p = FlowFields.x p /\
    FlowFields.prev_y p = FlowFields.y p /\
    0 <= FlowFields.x p <= inject_Z (FlowFields.width sf) /\
    0 <= FlowFields.y p <= inject_Z (FlowFields.height sf).
Proof.
  intros Hwf Hhf Hpalf.
  unfold FlowFields.new_particle, random1, random2.
  destruct (getitem_in_range (FlowFields.palette sf)
              (to_int (fmul (of_int (Z.of_nat (length (FlowFields.palette sf))))
                            (py5_uniform (S (S (S k)))))))
    as [c [Ec Hc]].
  { apply Q_index_in_range; [apply Hsamples |].
    destruct (FlowFields.palette sf); [congruence | discriminate]. }
  rewrite Ec. cbn [bind]. eexists.
  split; [replace (k + 4)%nat with (S (S (S (S k)))) by lia; reflexivity |].
  cbn.
  split; [eapply nth_error_In; exact Hc |].
  split.
  { destruct (Hsamples (S (S k))) as [H0 H1].
    change (inject_Z 2) with 2. change (inject_Z 4) with 4.
    split; Lqa.lra. }
  repeat split; try reflexivity;
    apply Q_scaled_sample; try assumption; apply Hsamples.
Qed.

(** X3.  A particle fresh from the constructor stands still on the canvas
    with its previous position on itself, and carries what the profile
    allows: a colour of the palette, a speed and (capstone) a stroke weight
    within the profile's ranges, age [0] and a lifespan in [[100, 300)];
    lesson 07 draws the speed from [[2, 4)].  The capstone takes six
    samples from the generator for it, lesson 07 four. *)
Theorem fresh_particle_is_within_profile
  (w h : Z) (artist : Capstone.profile Q) (sf : FlowFields.sketch Q) (k : nat) :
  (0 <= w)%Z -> (0 <= h)%Z ->
  Capstone.palette artist <> [] ->
  fst (Capstone.speed_range artist) <= snd (Capstone.speed_range artist) ->
  fst (Capstone.stroke_weight_range artist)
  <= snd (Capstone.stroke_weight_range artist) ->
  (0 <= FlowFields.width sf)%Z -> (0 <= FlowFields.height sf)%Z ->
  FlowFields.palette sf <> [] ->
  (exists p,
      Capstone.reset w h artist k = Ok (p, (k + 6)%nat) /\
      In (Capstone.col p) (Capstone.palette artist) /\
      fst (Capstone.speed_range artist) <= Capstone.max_speed p
      <= snd (Capstone.speed_range artist) /\
      fst (Capstone.stroke_weight_range artist) <= Capstone.stroke_weight p
      <= snd (Capstone.stroke_weight_range artist) /\
      100 <= Capstone.lifespan p < 300 /\
      Capstone.age p = 0%Z /\
      Capstone.vx p = 0 /\ Capstone.vy p = 0 /\
      Capstone.prev_x p = Capstone.x p /\ Capstone.prev_y p = Capstone.y p /\
      0 <= Capstone.x p <= inject_Z w /\ 0 <= Capstone.y p <= inject_Z h)
  /\
  (exists p,
      FlowFields.new_particle sf k = Ok (p, (k + 4)%nat) /\
      In (FlowFields.col p) (FlowFields.palette sf) /\
      2 <= FlowFields.max_speed p < 4 /\
      FlowFields.vx p = 0 /\ FlowFields.vy p = 0 /\
      FlowFields.prev_x p = FlowFields.x p /\
      FlowFields.prev_y p = FlowFields.y p /\
      0 <= FlowFields.x p <= inject_Z (FlowFields.width sf) /\
      0 <= FlowFields.y p <= inject_Z (FlowFields.height sf)).
Proof.
  intros Hw Hh Hpal Hspeed Hweight Hwf Hhf Hpalf. split.
  - now apply reset_fresh.
  - now apply new_particle_fresh.
Qed.

End Fresh.

(** ** What a frame keeps of a particle *)

Lemma getitem_nil {A : Type} (i : Z) : getitem (@nil A) i = Raise IndexError.
Proof.
  unfold getitem. cbn.
  destruct (i <? 0) eqn:E.
  - replace (i + 0) with i by lia. now rewrite E.
  - destruct (Z.leb_spec 0 i) as [_ | H]; [now rewrite orb_true_r |].
    apply Z.ltb_ge in E. lia.
Qed.

Lemma dict_get_raises_key_error {A : Type} (d : list (string * A))
  (key : string) (e : exn) :
  dict_get d key = Raise e -> e = KeyError.
Proof.
  induction d as [| [k a] d IH]; cbn.
  - intros H. now injection H as <-.
  - destruct (String.eqb k key); [discriminate | exact IH].
Qed.

Lemma dict_get_missing {A : Type} (d : list (string * A)) (key : string) :
  (forall a, ~ In (key, a) d) -> dict_get d key = Raise KeyError.
Proof.
  induction d as [| [k a] d IH]; cbn; intros H; [reflexivity |].
  destruct (String.eqb_spec k key) as [-> | _].
  - exfalso. apply (H a). now left.
  - apply IH. intros b Hb. apply (H b). now right.
Qed.

Lemma comprehension_each {A : Type} (P : A -> Prop)
  (make : nat -> result (A * nat)) (n k k' : nat) (l : list A) :
  (forall k a k', make k = Ok (a, k') -> P a) ->
  comprehension n make k = Ok (l, k') ->
  length l = n /\ Forall P l.
Proof.
  intros Hmake. revert k k' l. induction n as [| n IH]; intros k k' l; cbn.
  - intros E. injection E as <- _. split; [reflexivity | constructor].
  - destruct (make k) as [[a k1] |] eqn:E1; [| discriminate].
    destruct (comprehension n make k1) as [[l1 k2] |] eqn:E2; [| discriminate].
    intros E. injection E as <- _.
    destruct (IH _ _ _ E2) as [Hlen Hl].
    split; [cbn; congruence | constructor; eauto].
Qed.

Section Attributes.
Context {F : Type} {num : Num F} {py5 : Py5 F}.

Lemma capstone_follow_keeps (s : Capstone.sketch F)
  (p p1 : Capstone.ArtParticle F) (f : list (list F)) :
  Capstone.follow s p f = Ok p1 ->
  Capstone.col p1 = Capstone.col p /\
  Capstone.max_speed p1 = Capstone.max_speed p /\
  Capstone.stroke_weight p1 = Capstone.stroke_weight p /\
  Capstone.lifespan p1 = Capstone.lifespan p.
Proof.
  unfold Capstone.follow.
  destruct (pydiv _ _) as [qx |]; cbn [bind]; [| discriminate].
  destruct (pydiv _ _) as [qy |]; cbn [bind]; [| discriminate].
  destruct (getitem2 _ _ _) as [angle |]; cbn [bind]; [| discriminate].
  intros E. injection E as <-. cbn. auto.
Qed.

Lemma capstone_update_keeps (s : Capstone.sketch F) (p : Capstone.ArtParticle F) :
  Capstone.col (Capstone.update s p) = Capstone.col p /\
  Capstone.max_speed (Capstone.update s p) = Capstone.max_speed p /\
  Capstone.stroke_weight (Capstone.update s p) = Capstone.stroke_weight p /\
  Capstone.lifespan (Capstone.update s p) = Capstone.lifespan p.
Proof.
  unfold Capstone.update.
  destruct (wrap (Capstone.width s) _ _), (wrap (Capstone.height s) _ _).
  cbn. auto.
Qed.

Lemma flow_follow_keeps (s : FlowFields.sketch F)
  (p p1 : FlowFields.FlowParticle F) (f : list (list F)) :
  FlowFields.follow s p f = Ok p1 ->
  FlowFields.col p1 = FlowFields.col p /\
  FlowFields.max_speed p1 = FlowFields.max_speed p.
Proof.
  unfold FlowFields.follow.
  destruct (pydiv _ _) as [qx |]; cbn [bind]; [| discriminate].
  destruct (pydiv _ _) as [qy |]; cbn [bind]; [| discriminate].
  destruct (getitem2 _ _ _) as [angle |]; cbn [bind]; [| discriminate].
  intros E. injection E as <-. cbn. auto.
Qed.

Lemma flow_update_keeps (s : FlowFields.sketch F) (p : FlowFields.FlowParticle F) :
  FlowFields.col (FlowFields.update s p) = FlowFields.col p /\
  FlowFields.max_speed (FlowFields.update s p) = FlowFields.max_speed p.
Proof.
  unfold FlowFields.update.
  destruct (wrap (FlowFields.width s) _ _), (wrap (FlowFields.height s) _ _).
  cbn. auto.
Qed.

(** A round of the capstone loop keeps any property of the pool that
    [follow] and [update] keep and that fresh particles have. *)
Lemma step_particle_keeps (P : Capstone.ArtParticle F -> Prop)
  (s : Capstone.sketch F) (artist : Capstone.profile F)
  (ps ps' : list (Capstone.ArtParticle F)) (out out' : list (draw_cmd F))
  (k k' : nat) (i : Z) :
  (forall p p1, P p -> Capstone.follow s p (Capstone.field s) = Ok p1 ->
                P (Capstone.update s p1)) ->
  (forall k p k',
      Capstone.reset (Capstone.width s) (Capstone.height s) artist k
      = Ok (p, k') -> P p) ->
  Forall P ps ->
  Capstone.step_particle s artist (ps, out, k) i = Ok (ps', out', k') ->
  Forall P ps'.
Proof.
  intros Hmove Hfresh Hps. unfold Capstone.step_particle.
  destruct (getitem ps i) as [p |] eqn:Ep; cbn [bind]; [| discriminate].
  assert (Hp : P p).
  { rewrite Forall_forall in Hps. apply Hps.
    unfold getitem in Ep. destruct (_ || _); [discriminate |].
    destruct (nth_error ps _) eqn:E; [| discriminate].
    injection Ep as <-. eapply nth_error_In; eassumption. }
  destruct (Capstone.follow s p (Capstone.field s)) as [p1 |] eqn:Ef;
    cbn [bind]; [| discriminate].
  destruct (Capstone.display s _ artist) as [cmd |]; cbn [bind];
    [| discriminate].
  destruct (Capstone.is_dead _).
  - destruct (Capstone.reset _ _ _ _) as [[fresh k1] |] eqn:Er; cbn [bind];
      [| discriminate].
    unfold setitem. destruct (_ || _); cbn [bind]; [discriminate |].
    intros H. injection H as <- _ _.
    apply Forall_replace_nth; [exact Hps | eauto].
  - unfold setitem. destruct (_ || _); cbn [bind]; [discriminate |].
    intros H. injection H as <- _ _.
    apply Forall_replace_nth; [exact Hps | eauto].
Qed.

(** What [draw] of the capstone leaves alone, and what it keeps of the
    pool. *)
Lemma capstone_draw_keeps (P : Capstone.ArtParticle F -> Prop)
  (s s' : Capstone.sketch F) (artist : Capstone.profile F)
  (out : list (draw_cmd F)) :
  dict_get (Capstone.artists s) (Capstone.current_artist s) = Ok artist ->
  (forall s1 p p1 f, P p -> Capstone.follow s1 p f = Ok p1 ->
                     P (Capstone.update s1 p1)) ->
  (forall k p k',
      Capstone.reset (Capstone.width s) (Capstone.height s) artist k
      = Ok (p, k') -> P p) ->
  Forall P (Capstone.particles s) ->
  Capstone.draw s = Ok (s', out) ->
  Forall P (Capstone.particles s') /\
  Capstone.artists s' = Capstone.artists s /\
  Capstone.current_artist s' = Capstone.current_artist s /\
  Capstone.max_particles s' = Capstone.max_particles s /\
  Capstone.cols s' = Capstone.cols s /\ Capstone.rows s' = Capstone.rows s /\
  Capstone.scale s' = Capstone.scale s.
Proof.
  intros Hart Hmove Hfresh Hps. unfold Capstone.draw.
  rewrite Hart. cbn [bind].
  destruct (Capstone.update_field s artist) as [f |]; cbn [bind];
    [| discriminate].
  set (s1 := Capstone.with_canvas s _ _ _ _ _ f _ _).
  destruct (if Capstone.show_field s1 then _ else _) as [arrows |];
    cbn [bind]; [| discriminate].
  destruct (for_each _ _ _) as [[[ps' out'] k'] |] eqn:E; cbn [bind];
    [| discriminate].
  intros H. injection H as <- _. cbn.
  split; [| repeat split].
  apply (for_each_preserves
           (fun acc : list (Capstone.ArtParticle F) * list (draw_cmd F) * nat =>
              Forall P (fst (fst acc)))) in E.
  - exact E.
  - intros [[ps0 out0] k0] i [[ps1 out1] k1] H0 Hstep. cbn [fst] in *.
    eapply (step_particle_keeps P s1 artist); try eassumption.
    intros p p1. apply Hmove.
  - exact Hps.
Qed.

(** The particle loop of lesson 07, spelled out: every particle is followed
    and updated in pool order, and drawn as it then is. *)
Lemma flow_loop_spelled_out (s : FlowFields.sketch F)
  (l : list (FlowFields.FlowParticle F))
  (acc acc' : list (FlowFields.FlowParticle F) * list (draw_cmd F)) :
  for_each l (FlowFields.step_particle s) acc = Ok acc' ->
  exists ps',
    acc' = (fst acc ++ ps', snd acc ++ map (FlowFields.display s) ps') /\
    Forall2 (fun p p' =>
               exists p1, FlowFields.follow s p (FlowFields.field s) = Ok p1 /\
                          p' = FlowFields.update s p1) l ps'.
Proof.
  revert acc. induction l as [| p l IH]; intros acc; cbn [for_each].
  - intros E. injection E as <-. exists []. cbn. rewrite !app_nil_r.
    destruct acc. split; [reflexivity | constructor].
  - unfold FlowFields.step_particle at 1.
    destruct (FlowFields.follow s p (FlowFields.field s)) as [p1 |] eqn:Ef;
      cbn [bind]; [| discriminate].
    intros E. apply IH in E. destruct E as [ps' [-> Hall]]. cbn [fst snd].
    exists (FlowFields.update s p1 :: ps'). cbn [map].
    rewrite <- !app_assoc. split; [reflexivity |].
    constructor; [eauto | exact Hall].
Qed.

End Attributes.

(** ** The capstone under any session *)

Section CapstoneSessions.
Import Capstone CapstoneInv.
Context {py5 : Py5 Q}.
Hypothesis Hsamples : unit_samples py5.
Local Open Scope Q_scope.

Lemma reset_within (w h : Z) (artist : profile Q) (k k' : nat)
  (p : ArtParticle Q) :
  (0 <= w)%Z -> (0 <= h)%Z -> usable_profile artist ->
  reset w h artist k = Ok (p, k') ->
  within_profile artist p /\ good_particle w h p /\ age p = 0%Z.
Proof.
  intros Hw Hh [Hpal [_ [Hspeed Hweight]]] E.
  destruct (reset_fresh Hsamples w h artist k Hw Hh Hpal Hspeed Hweight)
    as [q [Eq [Hcol [Hsp [Hsw [[HL0 HL1] [Hage [_ [_ [_ [_ [Hx Hy]]]]]]]]]]]].
  rewrite Eq in E. injection E as <- _.
  split; [unfold within_profile; auto |].
  split; [| exact Hage].
  split; [split; assumption |].
  unfold alive. rewrite Hage. change (inject_Z 0) with 0.
  split; [lia | split; [Lqa.lra | exact HL0]].
Qed.

Lemma within_profile_moves (artist : profile Q) (s : sketch Q)
  (p p1 : ArtParticle Q) (f : list (list Q)) :
  within_profile artist p -> follow s p f = Ok p1 ->
  within_profile artist (update s p1).
Proof.
  intros Hp Ef.
  destruct (capstone_follow_keeps s p p1 f Ef) as [E1 [E2 [E3 E4]]].
  destruct (capstone_update_keeps s p1) as [U1 [U2 [U3 U4]]].
  unfold within_profile in *. rewrite U1, U2, U3, U4, E1, E2, E3, E4.
  exact Hp.
Qed.

Lemma draw_steady (s : sketch Q) :
  steady s ->
  exists s' out, draw s = Ok (s', out) /\ steady s' /\ same_canvas s s' /\
                 current_artist s' = current_artist s.
Proof.
  intros [Hstock [artist [Hready [Huse [Hwithin Hlen]]]]].
  destruct (draw_ready Hsamples s artist Hready)
    as [s' [out [E [Hready' [Hlen' [Hmax [Ew [Eh _]]]]]]]].
  assert (Hart : dict_get (artists s) (current_artist s) = Ok artist)
    by apply Hready.
  destruct (capstone_draw_keeps (within_profile artist) s s' artist out Hart)
    as [Hwithin' [Ea [Ec [_ [Ecols [Erows Escale]]]]]]; try assumption.
  { intros s1 p p1 f. apply within_profile_moves. }
  { intros k p k' Er.
    destruct (reset_within (width s) (height s) artist k k' p) as [H _];
      try assumption; apply Hready. }
  exists s', out. split; [exact E |].
  split; [| split; [unfold same_canvas; auto 10 | exact Ec]].
  split; [now rewrite Ea |].
  exists artist.
  split; [exact Hready' | split; [exact Huse | split; [exact Hwithin' |]]].
  congruence.
Qed.

(** A pool made afresh for an artist on the canvas of a steady sketch. *)
Lemma fresh_pool (s : sketch Q) (artist : profile Q) :
  (0 <= width s)%Z -> (0 <= height s)%Z -> usable_profile artist ->
  exists ps k,
    comprehension (Z.to_nat (max_particles s))
      (reset (width s) (height s) artist) (rng s) = Ok (ps, k) /\
    length ps = Z.to_nat (max_particles s) /\
    Forall (fun p => within_profile artist p /\
                     good_particle (width s) (height s) p /\ age p = 0%Z) ps.
Proof.
  intros Hw Hh Huse.
  destruct (comprehension_all
              (fun p => within_profile artist p /\
                        good_particle (width s) (height s) p /\ age p = 0%Z)
              (reset (width s) (height s) artist)
              (Z.to_nat (max_particles s)) (rng s))
    as [ps [k [E [Hlen Hall]]]].
  - intros k. destruct Huse as [Hpal [Hop [Hspeed Hweight]]].
    destruct (reset_fresh Hsamples (width s) (height s) artist k
                Hw Hh Hpal Hspeed Hweight) as [p [Ep _]].
    exists p, (k + 6)%nat. split; [exact Ep |].
    eapply reset_within; try eassumption. repeat split; assumption.
  - exists ps, k. auto.
Qed.

Lemma steady_with_pool (s : sketch Q) (key : string) (artist : profile Q)
  (ps : list (ArtParticle Q)) (k : nat) :
  steady s ->
  dict_get (artists s) key = Ok artist -> usable_profile artist ->
  length ps = Z.to_nat (max_particles s) ->
  Forall (fun p => within_profile artist p /\
                   good_particle (width s) (height s) p /\ age p = 0%Z) ps ->
  steady (with_pool s key ps k).
Proof.
  intros [Hstock [a0 [Hready _]]] Hart Huse Hlen Hall.
  split; [exact Hstock |]. exists artist.
  destruct Hready as [Hs [Hw [Hh [Hc [Hr [Hsh _]]]]]].
  split; [| split; [exact Huse | split]].
  - unfold ready. cbn. destruct Huse as [Hpal [Hop _]].
    repeat split; try assumption; try apply Hsh.
    eapply Forall_impl; [| exact Hall]. intros p [_ [Hg _]]. exact Hg.
  - cbn. eapply Forall_impl; [| exact Hall]. intros p [Hp _]. exact Hp.
  - cbn. exact Hlen.
Qed.

Lemma steady_with_flags (s : sketch Q) (f tr i : bool) :
  steady s -> steady (with_flags s f tr i).
Proof.
  intros [Hstock [artist [Hready [Huse [Hwithin Hlen]]]]].
  split; [exact Hstock |]. exists artist.
  split; [| split; [exact Huse | split; [exact Hwithin | exact Hlen]]].
  unfold ready in *. cbn. exact Hready.
Qed.

Lemma same_canvas_refl (s : sketch Q) : same_canvas s s.
Proof. unfold same_canvas. auto 10. Qed.

Lemma same_canvas_trans (s1 s2 s3 : sketch Q) :
  same_canvas s1 s2 -> same_canvas s2 s3 -> same_canvas s1 s3.
Proof.
  unfold same_canvas. intros [A1 [A2 [A3 [A4 [A5 A6]]]]] [B1 [B2 [B3 [B4 [B5 B6]]]]].
  repeat split; congruence.
Qed.

Lemma switch_artist_steady (s : sketch Q) (key : string) :
  steady s -> builtin_artist key ->
  exists s' ev, switch_artist key s = Ok (s', ev) /\ steady s' /\
                same_canvas s s' /\ current_artist s' = key.
Proof.
  intros Hsteady Hkey.
  pose proof Hsteady as [Hstock [a0 [Hready _]]].
  destruct (Hstock key Hkey) as [artist [Hart Huse]].
  destruct Hready as [_ [Hw [Hh _]]].
  destruct (fresh_pool s artist Hw Hh Huse) as [ps [k [E [Hlen Hall]]]].
  unfold switch_artist. rewrite Hart. cbn [bind]. rewrite E. cbn [bind].
  eexists. eexists. split; [reflexivity |].
  split; [now apply (steady_with_pool s key artist) |].
  split; [unfold same_canvas; cbn; auto 10 | reflexivity].
Qed.

Lemma key_pressed_steady (key : string) (clock : Z) (s : sketch Q) :
  steady s ->
  exists s' ev, key_pressed key clock s = Ok (s', ev) /\ steady s' /\
                same_canvas s s'.
Proof.
  intros Hsteady.
  pose proof Hsteady as [Hstock [artist [Hready [Huse _]]]].
  assert (Hart : dict_get (artists s) (current_artist s) = Ok artist)
    by apply Hready.
  unfold key_pressed.
  destruct (String.eqb key "1").
  { destruct (switch_artist_steady s "monet" Hsteady)
      as [s' [ev [E [H [Hc _]]]]]; [left; reflexivity | eauto]. }
  destruct (String.eqb key "2").
  { destruct (switch_artist_steady s "vangogh" Hsteady)
      as [s' [ev [E [H [Hc _]]]]]; [right; left; reflexivity | eauto]. }
  destruct (String.eqb key "3").
  { destruct (switch_artist_steady s "seurat" Hsteady)
      as [s' [ev [E [H [Hc _]]]]]; [right; right; left; reflexivity | eauto]. }
  destruct (String.eqb key "4").
  { destruct (switch_artist_steady s "kandinsky" Hsteady)
      as [s' [ev [E [H [Hc _]]]]];
      [right; right; right; left; reflexivity | eauto]. }
  destruct (String.eqb key "f").
  { eexists. eexists. split; [reflexivity |].
    split; [now apply steady_with_flags | unfold same_canvas; cbn; auto 10]. }
  destruct (String.eqb key "t").
  { cbn [artists current_artist with_flags]. rewrite Hart. cbn [bind].
    eexists. eexists. split; [reflexivity |].
    split; [now apply steady_with_flags | unfold same_canvas; cbn; auto 10]. }
  destruct (String.eqb key "i").
  { eexists. eexists. split; [reflexivity |].
    split; [now apply steady_with_flags | unfold same_canvas; cbn; auto 10]. }
  destruct (String.eqb key "r").
  { destruct Hready as [_ [Hw [Hh _]]].
    destruct (fresh_pool s artist Hw Hh Huse) as [ps [k [E [Hlen Hall]]]].
    rewrite Hart. cbn [bind].
    change (fun k0 : nat => reset (width s) (height s) artist k0)
      with (reset (width s) (height s) artist).
    rewrite E. cbn [bind].
    eexists. eexists. split; [reflexivity |].
    split; [now apply (steady_with_pool s (current_artist s) artist) |].
    unfold same_canvas; cbn; auto 10. }
  destruct (String.eqb key " ").
  { rewrite Hart. cbn [bind]. eexists. eexists.
    split; [reflexivity | split; [exact Hsteady | unfold same_canvas; cbn; auto 10]]. }
  destruct (String.eqb key "s").
  { unfold save_image. rewrite Hart. cbn [bind]. eexists. eexists.
    split; [reflexivity | split; [exact Hsteady | unfold same_canvas; cbn; auto 10]]. }
  eexists. eexists.
  split; [reflexivity | split; [exact Hsteady | unfold same_canvas; cbn; auto 10]].
Qed.

Lemma session_steady (inputs : list input) (s : sketch Q) :
  steady s ->
  exists s' out ev,
    CapstoneSession.session inputs s = Ok (s', out, ev) /\ steady s' /\
    same_canvas s s'.
Proof.
  revert s. induction inputs as [| i inputs IH]; intros s Hsteady.
  - exists s, [], []. split; [reflexivity |].
    split; [exact Hsteady | apply same_canvas_refl].
  - cbn [CapstoneSession.session].
    assert (Hstep : exists s1 out1 ev1,
               CapstoneSession.handle i s = Ok (s1, out1, ev1) /\ steady s1 /\
               same_canvas s s1).
    { destruct i as [| key clock]; cbn [CapstoneSession.handle].
      - destruct (draw_steady s Hsteady) as [s1 [out1 [E [H [Hc _]]]]].
        rewrite E. cbn [bind]. eauto 10.
      - destruct (key_pressed_steady key clock s Hsteady)
          as [s1 [ev1 [E [H Hc]]]].
        rewrite E. cbn [bind]. eauto 10. }
    destruct Hstep as [s1 [out1 [ev1 [E1 [H1 C1]]]]].
    destruct (IH s1 H1) as [s2 [out2 [ev2 [E2 [H2 C2]]]]].
    rewrite E1. cbn [bind]. rewrite E2. cbn [bind].
    eexists. eexists. eexists. split; [reflexivity |].
    split; [exact H2 | eapply same_canvas_trans; eassumption].
Qed.

Lemma init_artists_stocked (d : list (string * profile Q)) :
  stocked (init_artists d).
Proof.
  unfold stocked, builtin_artist, init_artists.
  intros key [<- | [<- | [<- | [<- | []]]]].
  - exists monet.
    rewrite !dict_get_set_other by discriminate.
    rewrite dict_get_set_same. split; [reflexivity |].
    repeat split; discriminate.
  - exists vangogh.
    rewrite !dict_get_set_other by discriminate.
    rewrite dict_get_set_same. split; [reflexivity |].
    repeat split; discriminate.
  - exists seurat.
    rewrite !dict_get_set_other by discriminate.
    rewrite dict_get_set_same. split; [reflexivity |].
    repeat split; discriminate.
  - exists kandinsky.
    rewrite dict_get_set_same. split; [reflexivity |].
    repeat split; discriminate.
Qed.

Lemma setup_steady (w h : Z) (s0 : sketch Q) :
  (0 <= w)%Z -> (0 <= h)%Z -> (0 < scale s0)%Z ->
  builtin_artist (current_artist s0) ->
  exists s,
    setup_size w h s0 = Ok s /\ steady s /\
    width s = w /\ height s = h /\ max_particles s = max_particles s0 /\
    current_artist s = current_artist s0.
Proof.
  intros Hw Hh Hs Hkey.
  destruct (setup_ready Hsamples w h s0 Hw Hh Hs Hkey)
    as [s [artist [E [Hready [Hlen [Hmax [Ew [Eh _]]]]]]]].
  exists s. split; [exact E |].
  assert (Hart : dict_get (artists s) (current_artist s) = Ok artist)
    by apply Hready.
  revert E. unfold setup_size, pydiv. rewrite Q_fis0_of_int.
  destruct (Z.eqb_spec (scale s0) 0) as [E0 | _]; [lia |]. cbn [bind].
  destruct (init_artists_stocked (artists s0) _ Hkey) as [a [Ea Huse]].
  rewrite Ea. cbn [bind].
  change (fun k0 : nat => reset w h a k0) with (reset w h a).
  destruct (comprehension _ _ _) as [[ps k] |] eqn:Ec; cbn [bind];
    [| discriminate].
  intros E. injection E as <-. cbn in *.
  assert (a = artist) by congruence. subst a.
  split; [| auto].
  split; [apply init_artists_stocked |].
  exists artist.
  split; [exact Hready | split; [exact Huse | split; [| exact Hlen]]].
  apply (comprehension_each (within_profile artist)) in Ec; [apply Ec |].
  intros k0 p k' Er.
  destruct (reset_within w h artist k0 k' p Hw Hh Huse Er) as [H _]. exact H.
Qed.

End CapstoneSessions.

Section CapstoneSessionTheorems.
Import Capstone CapstoneInv.
Local Open Scope Q_scope.

(** X4.  After [setup] on a canvas that is not negative, with a positive
    cell size and one of the four artists selected, no sequence of frames
    and key presses, whatever the keys, ever raises; and after it the pool
    still holds [max_particles] particles, the canvas and the grid
    dimensions are those of [setup], and the grid has its shape. *)
Theorem capstone_session_never_raises
  (py5 : Py5 Q) (w h : Z) (s0 : sketch Q) (inputs : list input) :
  unit_samples py5 ->
  (0 <= w)%Z -> (0 <= h)%Z -> (0 < scale s0)%Z ->
  builtin_artist (current_artist s0) ->
  exists s s' out ev,
    setup_size w h s0 = Ok s /\
    CapstoneSession.session inputs s = Ok (s', out, ev) /\
    length (particles s') = Z.to_nat (max_particles s0) /\
    width s' = w /\ height s' = h /\
    cols s' = cols s /\ rows s' = rows s /\
    well_shaped (cols s') (rows s') (field s').
Proof.
  intros Hu Hw Hh Hs Hkey.
  destruct (setup_steady Hu w h s0 Hw Hh Hs Hkey)
    as [s [E [Hsteady [Ew [Eh [Emax _]]]]]].
  destruct (session_steady Hu inputs s Hsteady)
    as [s' [out [ev [E' [Hsteady' [Cw [Ch [Cm [Cc [Cr _]]]]]]]]]].
  exists s, s', out, ev.
  destruct Hsteady' as [_ [artist [Hready [_ [_ Hlen]]]]].
  split; [exact E | split; [exact E' |]].
  split; [congruence |]. split; [congruence |]. split; [congruence |].
  split; [exact Cc | split; [exact Cr |]].
  apply Hready.
Qed.

(** X5.  Under the same conditions and after any such session, every
    particle of the pool belongs to the artist now selected: its colour is
    one of that palette, its speed and stroke weight lie in that profile's
    ranges; it is on the closed canvas, not dead, and younger than 300
    frames.  No particle of an earlier artist survives a switch. *)
Theorem capstone_pool_belongs_to_current_artist
  (py5 : Py5 Q) (w h : Z) (s0 : sketch Q) (inputs : list input) :
  unit_samples py5 ->
  (0 <= w)%Z -> (0 <= h)%Z -> (0 < scale s0)%Z ->
  builtin_artist (current_artist s0) ->
  exists s s' out ev artist,
    setup_size w h s0 = Ok s /\
    CapstoneSession.session inputs s = Ok (s', out, ev) /\
    dict_get (artists s') (current_artist s') = Ok artist /\
    Forall (fun p =>
              In (col p) (palette artist) /\
              fst (speed_range artist) <= max_speed p
              <= snd (speed_range artist) /\
              fst (stroke_weight_range artist) <= stroke_weight p
              <= snd (stroke_weight_range artist) /\
              on_canvas w h p /\
              (0 <= age p < 300)%Z /\ inject_Z (age p) < lifespan p /\
              lifespan p < 300)
           (particles s').
Proof.
  intros Hu Hw Hh Hs Hkey.
  destruct (setup_steady Hu w h s0 Hw Hh Hs Hkey)
    as [s [E [Hsteady [Ew [Eh _]]]]].
  destruct (session_steady Hu inputs s Hsteady)
    as [s' [out [ev [E' [Hsteady' [Cw [Ch _]]]]]]].
  destruct Hsteady' as [_ [artist [Hready [_ [Hwithin _]]]]].
  exists s, s', out, ev, artist.
  split; [exact E | split; [exact E' | split; [apply Hready |]]].
  destruct Hready as [_ [_ [_ [_ [_ [_ [_ [_ [_ Hgood]]]]]]]]].
  rewrite Cw, Ew, Ch, Eh in Hgood.
  rewrite Forall_forall in *. intros p Hp.
  destruct (Hwithin p Hp) as [Hcol [Hsp [Hsw HL]]].
  destruct (Hgood p Hp) as [Hbox [Hage [Hlive _]]].
  repeat split; try assumption; try apply Hsp; try apply Hsw; try apply Hbox.
  rewrite Zlt_Qlt. change (inject_Z 300) with 300. Lqa.lra.
Qed.

(** X6.  [switch_artist] for a key of [artists] bound to a usable profile
    makes that key the current one and replaces the whole pool:
    [max_particles] new particles of age [0], standing still, each with a
    colour of the new palette; the grid, the clock, the three display flags,
    [artists] and the sizes are left as they were, the canvas is repainted
    with the profile's background and the artist's name is printed.  For a
    key that [artists] does not hold, whatever else [artists] holds, it
    raises [KeyError]. *)
Theorem switch_artist_rebuilds_the_pool (py5 : Py5 Q) (s : sketch Q) :
  (forall artist_id artist,
      unit_samples py5 ->
      (0 <= width s)%Z -> (0 <= height s)%Z ->
      dict_get (artists s) artist_id = Ok artist -> usable_profile artist ->
      exists s',
        switch_artist artist_id s
        = Ok (s', [Background (background artist);
                   Print ("Artist: " ++ name artist)%string]) /\
        current_artist s' = artist_id /\
        length (particles s') = Z.to_nat (max_particles s) /\
        Forall (fun p => In (col p) (palette artist) /\ age p = 0%Z /\
                         vx p = 0 /\ vy p = 0 /\
                         on_canvas (width s) (height s) p)
               (particles s') /\
        field s' = field s /\ z_offset s' = z_offset s /\ t s' = t s /\
        show_field s' = show_field s /\ show_trails s' = show_trails s /\
        show_info s' = show_info s /\
        artists s' = artists s /\ max_particles s' = max_particles s /\
        width s' = width s /\ height s' = height s /\
        cols s' = cols s /\ rows s' = rows s /\ scale s' = scale s)
  /\
  (forall other_id,
      (forall a, ~ In (other_id, a) (artists s)) ->
      switch_artist other_id s = Raise KeyError)
  /\
  (forall other_id e,
      dict_get (artists s) other_id = Raise e ->
      switch_artist other_id s = Raise KeyError).
Proof.
  split; [| split].
  - intros artist_id artist Hu Hw Hh Hart Huse.
    destruct Huse as [Hpal [Hop [Hspeed Hweight]]].
    destruct (comprehension_all
                (fun p => In (col p) (palette artist) /\ age p = 0%Z /\
                          vx p = 0 /\ vy p = 0 /\
                          on_canvas (width s) (height s) p)
                (reset (width s) (height s) artist)
                (Z.to_nat (max_particles s)) (rng s))
      as [ps [k [E [Hlen Hall]]]].
    { intros k.
      destruct (reset_fresh Hu (width s) (height s) artist k
                  Hw Hh Hpal Hspeed Hweight)
        as [p [Ep [Hcol [_ [_ [_ [Hage [Hvx [Hvy [_ [_ [Hx Hy]]]]]]]]]]]].
      exists p, (k + 6)%nat. split; [exact Ep |].
      repeat split; try assumption; try apply Hx; apply Hy. }
    unfold switch_artist. rewrite Hart. cbn [bind]. rewrite E. cbn [bind].
    eexists. split; [reflexivity |]. cbn.
    split; [reflexivity |]. split; [exact Hlen |]. split; [exact Hall |].
    repeat split.
  - intros other_id Hmissing. unfold switch_artist.
    rewrite (dict_get_missing _ _ Hmissing). reflexivity.
  - intros other_id e He. unfold switch_artist. rewrite He. cbn [bind].
    now rewrite (dict_get_raises_key_error _ _ _ He).
Qed.

End CapstoneSessionTheorems.

Section EmptyPalette.
Context {F : Type} {num : Num F} {py5 : Py5 F}.

(** X7.  A profile with an empty palette cannot make a particle: [reset]
    raises [IndexError] on it (and so does the constructor of lesson 07 when
    the palette is empty).  [switch_artist] to such a profile raises
    [IndexError] as soon as the pool is to hold one particle, and goes
    through with an empty pool when [max_particles] is not positive. *)
Theorem empty_palette_raises_index_error
  (w h : Z) (artist : Capstone.profile F) (k : nat)
  (sc : Capstone.sketch F) (artist_id : string) (sf : FlowFields.sketch F) :
  Capstone.palette artist = [] ->
  dict_get (Capstone.artists sc) artist_id = Ok artist ->
  FlowFields.palette sf = [] ->
  Capstone.reset w h artist k = Raise IndexError /\
  (1 <= Capstone.max_particles sc ->
   Capstone.switch_artist artist_id sc = Raise IndexError) /\
  (Capstone.max_particles sc <= 0 ->
   exists s' ev, Capstone.switch_artist artist_id sc = Ok (s', ev) /\
                 Capstone.particles s' = [] /\
                 Capstone.current_artist s' = artist_id) /\
  FlowFields.new_particle sf k = Raise IndexError.
Proof.
  intros Hpal Hart Hpalf.
  assert (Hreset : forall w h k, Capstone.reset w h artist k = Raise IndexError).
  { intros w0 h0 k0. unfold Capstone.reset, random1, random2.
    rewrite Hpal, getitem_nil. reflexivity. }
  split; [apply Hreset |]. split; [| split].
  - intros Hmax. unfold Capstone.switch_artist. rewrite Hart. cbn [bind].
    destruct (Z.to_nat (Capstone.max_particles sc)) as [| n] eqn:En; [lia |].
    cbn [comprehension]. rewrite Hreset. reflexivity.
  - intros Hmax. unfold Capstone.switch_artist. rewrite Hart. cbn [bind].
    replace (Z.to_nat (Capstone.max_particles sc)) with O by lia.
    cbn [comprehension bind]. eexists. eexists.
    split; [reflexivity | split; reflexivity].
  - unfold FlowFields.new_particle, random1, random2.
    rewrite Hpalf, getitem_nil. reflexivity.
Qed.

End EmptyPalette.

(** ** A frame of lesson 07, spelled out *)

Section FlowFrame.
Context {F : Type} {num : Num F} {py5 : Py5 F}.
Import FlowFields.

Lemma flow_draw_spelled_out (s s' : sketch F) (out : list (draw_cmd F)) :
  draw s = Ok (s', out) ->
  exists f arrows,
    update_field s = Ok f /\
    (if show_field s then draw_field (with_field s f) else Ok []) = Ok arrows /\
    field s' = f /\
    Forall2 (fun p p' =>
               exists p1, follow (with_field s f) p f = Ok p1 /\
                          p' = update (with_field s f) p1)
            (particles s) (particles s') /\
    out = arrows ++ map (display (with_field s f)) (particles s') /\
    z_offset s' = fadd (z_offset s) (fdiv (of_int 3) (of_int 1000)) /\
    width s' = width s /\ height s' = height s /\
    num_particles s' = num_particles s /\
    cols s' = cols s /\ rows s' = rows s /\ scale s' = scale s /\
    palette s' = palette s /\ rng s' = rng s /\
    show_field s' = show_field s /\ show_trails s' = show_trails s.
Proof.
  unfold draw.
  destruct (update_field s) as [f |]; cbn [bind]; [| discriminate].
  change (show_field (with_field s f)) with (show_field s).
  destruct (if show_field s then _ else _) as [arrows |] eqn:Ea; cbn [bind];
    [| discriminate].
  destruct (for_each _ _ _) as [[ps out'] |] eqn:El; cbn [bind];
    [| discriminate].
  intros E. injection E as <- <-.
  apply flow_loop_spelled_out in El. destruct El as [ps' [Eacc Hall]].
  cbn [fst snd app] in Eacc. injection Eacc as -> ->.
  exists f, arrows.
  split; [reflexivity | split; [exact Ea | split; [reflexivity |]]].
  split; [exact Hall |]. cbn. repeat split; reflexivity.
Qed.

End FlowFrame.

(** ** Lesson 07 under any session *)

Section FlowSessions.
Import FlowFields FlowInv.
Context {py5 : Py5 Q}.
Hypothesis Hsamples : unit_samples py5.
Local Open Scope Q_scope.

Lemma flow_within_moves (pal : list color) (s : sketch Q)
  (p p1 : FlowParticle Q) (f : list (list Q)) :
  flow_within pal p -> follow s p f = Ok p1 -> flow_within pal (update s p1).
Proof.
  intros Hp Ef.
  destruct (flow_follow_keeps s p p1 f Ef) as [E1 E2].
  destruct (flow_update_keeps s p1) as [U1 U2].
  unfold flow_within in *. rewrite U1, U2, E1, E2. exact Hp.
Qed.

Lemma flow_draw_steady (s : sketch Q) :
  flow_steady s ->
  exists s' out, draw s = Ok (s', out) /\ flow_steady s' /\
                 flow_same_canvas s s'.
Proof.
  intros [Hready [Hpal [Hwithin Hlen]]].
  destruct (flow_draw_ready s Hready)
    as [s' [out [E [Hready' [Hlen' _]]]]].
  destruct (flow_draw_spelled_out s s' out E)
    as [f [arrows [_ [_ [_ [Hall [_ [_ [Ew [Eh [En [Ec [Er [Es [Ep _]]]]]]]]]]]]]]].
  exists s', out. split; [exact E |].
  split; [| unfold flow_same_canvas; auto 10].
  split; [exact Hready' |]. rewrite Ep. split; [exact Hpal |].
  split; [| congruence].
  clear - Hall Hwithin. induction Hall as [| p p' l l' [p1 [Ef ->]] Hall IH].
  - constructor.
  - inversion Hwithin; subst. constructor; [| now apply IH].
    eapply flow_within_moves; eassumption.
Qed.

Lemma flow_fresh_pool (s : sketch Q) :
  (0 <= width s)%Z -> (0 <= height s)%Z -> palette s <> [] ->
  exists ps k,
    comprehension (Z.to_nat (num_particles s)) (new_particle s) (rng s)
    = Ok (ps, k) /\
    length ps = Z.to_nat (num_particles s) /\
    Forall (fun p => flow_within (palette s) p /\
                     on_canvas (width s) (height s) p) ps.
Proof.
  intros Hw Hh Hpal.
  apply comprehension_all. intros k.
  destruct (new_particle_fresh Hsamples s k Hw Hh Hpal)
    as [p [Ep [Hcol [Hsp [_ [_ [_ [_ [Hx Hy]]]]]]]]].
  exists p, (k + 4)%nat. split; [exact Ep |].
  split; split; assumption.
Qed.

Lemma flow_key_pressed_steady (key : string) (clock : Z) (s : sketch Q) :
  flow_steady s ->
  exists s' ev, key_pressed key clock s = Ok (s', ev) /\ flow_steady s' /\
                flow_same_canvas s s'.
Proof.
  intros Hsteady.
  pose proof Hsteady as [Hready [Hpal [Hwithin Hlen]]].
  unfold key_pressed.
  destruct (String.eqb key "f").
  { eexists. eexists. split; [reflexivity |].
    split; [| unfold flow_same_canvas; cbn; auto 10].
    unfold flow_steady, ready in *. cbn. tauto. }
  destruct (String.eqb key "t").
  { eexists. eexists. split; [reflexivity |].
    split; [| unfold flow_same_canvas; cbn; auto 10].
    unfold flow_steady, ready in *. cbn. tauto. }
  destruct (String.eqb key "r").
  { destruct Hready as [Hs [Hw [Hh [Hc [Hr [Hsh _]]]]]].
    destruct (flow_fresh_pool s Hw Hh Hpal) as [ps [k [E [Hl Hall]]]].
    rewrite E. cbn [bind].
    eexists. eexists. split; [reflexivity |].
    split; [| unfold flow_same_canvas; cbn; auto 10].
    unfold flow_steady, ready. cbn.
    repeat split; try assumption; try apply Hsh.
    - eapply Forall_impl; [| exact Hall]. intros p [_ Hb]. exact Hb.
    - eapply Forall_impl; [| exact Hall]. intros p [Hb _]. exact Hb. }
  destruct (String.eqb key "s").
  { eexists. eexists. split; [reflexivity |].
    split; [exact Hsteady | unfold flow_same_canvas; auto 10]. }
  eexists. eexists. split; [reflexivity |].
  split; [exact Hsteady | unfold flow_same_canvas; auto 10].
Qed.

Lemma flow_same_canvas_trans (s1 s2 s3 : sketch Q) :
  flow_same_canvas s1 s2 -> flow_same_canvas s2 s3 -> flow_same_canvas s1 s3.
Proof.
  unfold flow_same_canvas.
  intros [A1 [A2 [A3 [A4 [A5 [A6 A7]]]]]] [B1 [B2 [B3 [B4 [B5 [B6 B7]]]]]].
  repeat split; congruence.
Qed.

Lemma flow_session_steady (inputs : list input) (s : sketch Q) :
  flow_steady s ->
  exists s' out ev,
    FlowSession.session inputs s = Ok (s', out, ev) /\ flow_steady s' /\
    flow_same_canvas s s'.
Proof.
  revert s. induction inputs as [| i inputs IH]; intros s Hsteady.
  - exists s, [], []. split; [reflexivity |].
    split; [exact Hsteady | unfold flow_same_canvas; auto 10].
  - cbn [FlowSession.session].
    assert (Hstep : exists s1 out1 ev1,
               FlowSession.handle i s = Ok (s1, out1, ev1) /\ flow_steady s1 /\
               flow_same_canvas s s1).
    { destruct i as [| key clock]; cbn [FlowSession.handle].
      - destruct (flow_draw_steady s Hsteady) as [s1 [out1 [E [H Hc]]]].
        rewrite E. cbn [bind]. eauto 10.
      - destruct (flow_key_pressed_steady key clock s Hsteady)
          as [s1 [ev1 [E [H Hc]]]].
        rewrite E. cbn [bind]. eauto 10. }
    destruct Hstep as [s1 [out1 [ev1 [E1 [H1 C1]]]]].
    destruct (IH s1 H1) as [s2 [out2 [ev2 [E2 [H2 C2]]]]].
    rewrite E1. cbn [bind]. rewrite E2. cbn [bind].
    eexists. eexists. eexists. split; [reflexivity |].
    split; [exact H2 | eapply flow_same_canvas_trans; eassumption].
Qed.

Lemma flow_setup_steady (w h : Z) (s0 : sketch Q) :
  (0 <= w)%Z -> (0 <= h)%Z -> (0 < scale s0)%Z ->
  exists s,
    setup_size w h s0 = Ok s /\ flow_steady s /\
    width s = w /\ height s = h /\ num_particles s = num_particles s0 /\
    palette s = the_palette.
Proof.
  intros Hw Hh Hs.
  destruct (flow_setup_ready Hsamples w h s0 Hw Hh Hs)
    as [s [E [Hready [Hlen [Ew [Eh _]]]]]].
  exists s. split; [exact E |].
  revert E. unfold setup_size, pydiv. rewrite Q_fis0_of_int.
  destruct (Z.eqb_spec (scale s0) 0) as [E0 | _]; [lia |]. cbn [bind].
  cbn [num_particles rng scale].
  match goal with
  | |- context [comprehension _ (new_particle ?t) _] => set (s1 := t)
  end.
  destruct (comprehension _ _ _) as [[ps k] |] eqn:Ec; cbn [bind];
    [| discriminate].
  intros E. injection E as <-. cbn in *.
  split; [| auto].
  split; [exact Hready |]. split; [discriminate |].
  split; [| exact Hlen].
  apply (comprehension_each (flow_within the_palette)) in Ec; [apply Ec |].
  intros k0 p k' Ep.
  destruct (new_particle_fresh Hsamples s1 k0) as [q [Eq [Hcol [Hsp _]]]];
    try assumption; try discriminate.
  rewrite Eq in Ep. injection Ep as <- _. split; assumption.
Qed.

End FlowSessions.

Section FlowSessionTheorems.
Import FlowFields FlowInv.
Local Open Scope Q_scope.

(** X8.  After [setup] of lesson 07 on a canvas that is not negative, with
    a positive cell size, no sequence of frames and key presses ever
    raises.  After it the pool holds [num_particles] particles, all on the
    closed canvas; every particle has a colour of the palette and a top
    speed in [[2, 4)], as when it was made; and the canvas and the grid
    dimensions are those of [setup]. *)
Theorem flow_session_never_raises
  (py5 : Py5 Q) (w h : Z) (s0 : sketch Q) (inputs : list input) :
  unit_samples py5 ->
  (0 <= w)%Z -> (0 <= h)%Z -> (0 < scale s0)%Z ->
  exists s s' out ev,
    setup_size w h s0 = Ok s /\
    FlowSession.session inputs s = Ok (s', out, ev) /\
    length (particles s') = Z.to_nat (num_particles s0) /\
    Forall (fun p => on_canvas w h p /\ In (col p) the_palette /\
                     2 <= max_speed p < 4)
           (particles s') /\
    width s' = w /\ height s' = h /\
    cols s' = cols s /\ rows s' = rows s /\
    well_shaped (cols s') (rows s') (field s').
Proof.
  intros Hu Hw Hh Hs.
  destruct (flow_setup_steady Hu w h s0 Hw Hh Hs)
    as [s [E [Hsteady [Ew [Eh [En Ep]]]]]].
  destruct (flow_session_steady Hu inputs s Hsteady)
    as [s' [out [ev [E' [Hsteady' [Cw [Ch [Cn [Cc [Cr [_ Cp]]]]]]]]]]].
  exists s, s', out, ev.
  destruct Hsteady' as [Hready [_ [Hwithin Hlen]]].
  split; [exact E | split; [exact E' |]].
  split; [congruence |].
  split.
  - destruct Hready as [_ [_ [_ [_ [_ [_ Hbox]]]]]].
    rewrite Cw, Ew, Ch, Eh in Hbox. rewrite Cp, Ep in Hwithin.
    rewrite Forall_forall in *. intros p Hp.
    destruct (Hwithin p Hp) as [Hcol Hsp].
    split; [apply Hbox, Hp | split; assumption].
  - split; [congruence |]. split; [congruence |].
    split; [exact Cc | split; [exact Cr | apply Hready]].
Qed.

End FlowSessionTheorems.

(** ** The field overlay *)

Lemma for_each_collect {A B S : Type} (l : list A) (f : A -> result S)
  (h : A -> S) (g : A -> S -> B) (out0 : list B) :
  (forall a, In a l -> f a = Ok (h a)) ->
  for_each l (fun out a => bind (f a) (fun x => Ok (out ++ [g a x]))) out0
  = Ok (out0 ++ map (fun a => g a (h a)) l).
Proof.
  revert out0. induction l as [| a l IH]; intros out0 Hf; cbn [for_each map].
  - now rewrite app_nil_r.
  - rewrite (Hf a) by now left. cbn [bind].
    rewrite IH by (intros b Hb; apply Hf; now right).
    now rewrite <- app_assoc.
Qed.

Lemma for_each_flat {A B : Type} (l : list A)
  (body : list B -> A -> result (list B)) (k : A -> list B) (out0 : list B) :
  (forall a out, In a l -> body out a = Ok (out ++ k a)) ->
  for_each l body out0 = Ok (out0 ++ flat_map k l).
Proof.
  revert out0. induction l as [| a l IH]; intros out0 Hb;
    cbn [for_each flat_map].
  - now rewrite app_nil_r.
  - rewrite (Hb a) by now left. cbn [bind].
    rewrite IH by (intros b out Hin; apply Hb; now right).
    now rewrite <- app_assoc.
Qed.

Section Overlay.
Context {F : Type} {num : Num F} {py5 : Py5 F}.

Lemma getitem2_cell (cols rows : Z) (field : list (list F)) (i j : Z) :
  well_shaped cols rows field ->
  0 <= i < cols -> 0 <= j < rows ->
  getitem2 field i j = Ok (cell field i j).
Proof.
  intros Hsh Hi Hj.
  destruct (getitem2_in_range cols rows field i j Hsh Hi Hj)
    as [column [a [Hc [Ha E]]]].
  rewrite E. unfold cell.
  rewrite (nth_error_nth _ _ _ Hc), (nth_error_nth _ _ _ Ha). reflexivity.
Qed.

Lemma flow_draw_field_spelled_out (sf : FlowFields.sketch F) :
  well_shaped (FlowFields.cols sf) (FlowFields.rows sf) (FlowFields.field sf) ->
  FlowFields.draw_field sf
  = Ok (flat_map
          (fun i => map (fun j => Arrow i j (cell (FlowFields.field sf) i j))
                        (range (FlowFields.rows sf)))
          (range (FlowFields.cols sf))).
Proof.
  intros Hf. unfold FlowFields.draw_field.
  rewrite (for_each_flat _ _
             (fun i => map (fun j => Arrow i j (cell (FlowFields.field sf) i j))
                           (range (FlowFields.rows sf)))); [reflexivity |].
  intros i out Hi. apply range_bounds in Hi.
  apply (for_each_collect (range (FlowFields.rows sf))
           (fun j => getitem2 (FlowFields.field sf) i j)
           (fun j => cell (FlowFields.field sf) i j)
           (fun j angle => Arrow i j angle)).
  intros j Hj. apply range_bounds in Hj.
  eapply getitem2_cell; eassumption.
Qed.

Lemma capstone_draw_field_spelled_out (sc : Capstone.sketch F) :
  well_shaped (Capstone.cols sc) (Capstone.rows sc) (Capstone.field sc) ->
  Capstone.draw_field sc
  = Ok (flat_map
          (fun i => map (fun j => Arrow i j (cell (Capstone.field sc) i j))
                        (range_step2 (Capstone.rows sc)))
          (range_step2 (Capstone.cols sc))).
Proof.
  intros Hc. unfold Capstone.draw_field.
  rewrite (for_each_flat _ _
             (fun i => map (fun j => Arrow i j (cell (Capstone.field sc) i j))
                           (range_step2 (Capstone.rows sc)))); [reflexivity |].
  intros i out Hi. apply range_step2_bounds in Hi.
  apply (for_each_collect (range_step2 (Capstone.rows sc))
           (fun j => getitem2 (Capstone.field sc) i j)
           (fun j => cell (Capstone.field sc) i j)
           (fun j angle => Arrow i j angle)).
  intros j Hj. apply range_step2_bounds in Hj.
  eapply getitem2_cell; eassumption.
Qed.

(** X9.  On a well-shaped grid [draw_field] never raises and issues its
    arrows column by column: in lesson 07 one for every cell, in the
    capstone one for every cell whose two indices are even, each carrying
    the angle stored in its cell. *)
Theorem draw_field_draws_the_stored_angles
  (sf : FlowFields.sketch F) (sc : Capstone.sketch F) :
  well_shaped (FlowFields.cols sf) (FlowFields.rows sf) (FlowFields.field sf) ->
  well_shaped (Capstone.cols sc) (Capstone.rows sc) (Capstone.field sc) ->
  FlowFields.draw_field sf
  = Ok (flat_map
          (fun i => map (fun j => Arrow i j (cell (FlowFields.field sf) i j))
                        (range (FlowFields.rows sf)))
          (range (FlowFields.cols sf))) /\
  Capstone.draw_field sc
  = Ok (flat_map
          (fun i => map (fun j => Arrow i j (cell (Capstone.field sc) i j))
                        (range_step2 (Capstone.rows sc)))
          (range_step2 (Capstone.cols sc))).
Proof.
  intros Hf Hc. split.
  - now apply flow_draw_field_spelled_out.
  - now apply capstone_draw_field_spelled_out.
Qed.

End Overlay.

(** ** One frame, step by step *)

Section Frames.
Context {F : Type} {num : Num F} {py5 : Py5 F}.

(** X10.  A frame of lesson 07 on a well-shaped grid, whenever it returns:
    the grid is first recomputed for the current [z_offset]; every
    particle is then steered by that new grid and moved; the draw requests
    are the overlay arrows of the new grid (when shown) followed by one
    request per particle, in pool order, displaying the particle as the
    frame leaves it; and [z_offset] has advanced by [0.003]. *)
Theorem lesson07_frame_step_by_step
  (s s' : FlowFields.sketch F) (out : list (draw_cmd F)) :
  well_shaped (FlowFields.cols s) (FlowFields.rows s) (FlowFields.field s) ->
  FlowFields.draw s = Ok (s', out) ->
  (forall i j, 0 <= i < FlowFields.cols s -> 0 <= j < FlowFields.rows s ->
     let noise_scale := fdiv (of_int 1) (of_int 10) in
     getitem2 (FlowFields.field s') i j =
     Ok (fmul (fmul (py5_noise (fmul (of_int i) noise_scale)
                               (fmul (of_int j) noise_scale)
                               (FlowFields.z_offset s))
                    TWO_PI)
              (of_int 2))) /\
  Forall2 (fun p p' =>
             exists p1,
               FlowFields.follow s p (FlowFields.field s') = Ok p1 /\
               p' = FlowFields.update s p1)
          (FlowFields.particles s) (FlowFields.particles s') /\
  out =
    (if FlowFields.show_field s
     then flat_map
            (fun i => map (fun j => Arrow i j (cell (FlowFields.field s') i j))
                          (range (FlowFields.rows s)))
            (range (FlowFields.cols s))
     else [])
    ++ map (FlowFields.display s) (FlowFields.particles s') /\
  FlowFields.z_offset s'
  = fadd (FlowFields.z_offset s) (fdiv (of_int 3) (of_int 1000)).
Proof.
  intros Hsh E.
  destruct (flow_draw_spelled_out s s' out E)
    as [f [arrows [Ef [Ea [Efield [Hall [Eout [Ez _]]]]]]]].
  unfold FlowFields.update_field in Ef.
  rewrite (fill_grid (FlowFields.cell_angle (FlowFields.z_offset s)) _ _ _ Hsh)
    in Ef.
  injection Ef as <-. rewrite Efield.
  split; [| split; [exact Hall | split; [| exact Ez]]].
  - intros i j Hi Hj. cbv zeta. rewrite getitem2_map by assumption. reflexivity.
  - rewrite Eout. f_equal.
    destruct (FlowFields.show_field s); [| now injection Ea as <-].
    rewrite flow_draw_field_spelled_out in Ea
      by (cbn; apply well_shaped_map).
    now injection Ea as <-.
Qed.

Lemma capstone_step_adds_one_request (s : Capstone.sketch F)
  (artist : Capstone.profile F)
  (ps ps' : list (Capstone.ArtParticle F)) (out out' : list (draw_cmd F))
  (k k' : nat) (i : Z) :
  Capstone.step_particle s artist (ps, out, k) i = Ok (ps', out', k') ->
  exists cmd, out' = out ++ [cmd] /\ is_arrow cmd = false /\ (k <= k')%nat.
Proof.
  unfold Capstone.step_particle.
  destruct (getitem ps i) as [p |]; cbn [bind]; [| discriminate].
  destruct (Capstone.follow s p (Capstone.field s)) as [p1 |]; cbn [bind];
    [| discriminate].
  destruct (Capstone.display s _ artist) as [cmd |] eqn:Ed; cbn [bind];
    [| discriminate].
  assert (Hcmd : is_arrow cmd = false).
  { unfold Capstone.display in Ed.
    destruct (Capstone.alpha _ artist); cbn [bind] in Ed; [| discriminate].
    destruct (Capstone.show_trails s); injection Ed as <-; reflexivity. }
  destruct (Capstone.is_dead _).
  - destruct (Capstone.reset _ _ _ _) as [[fresh k1] |] eqn:Er; cbn [bind];
      [| discriminate].
    destruct (setitem ps i fresh); cbn [bind]; [| discriminate].
    intros H. injection H as _ <- <-. exists cmd.
    split; [reflexivity | split; [exact Hcmd |]].
    unfold Capstone.reset, random1, random2 in Er.
    destruct (getitem _ _); cbn [bind] in Er; [| discriminate].
    injection Er as _ <-. lia.
  - destruct (setitem ps i _); cbn [bind]; [| discriminate].
    intros H. injection H as _ <- <-. exists cmd. auto.
Qed.

Lemma capstone_loop_adds_requests (s : Capstone.sketch F)
  (artist : Capstone.profile F) (l : list Z)
  (ps ps' : list (Capstone.ArtParticle F)) (out out' : list (draw_cmd F))
  (k k' : nat) :
  for_each l (Capstone.step_particle s artist) (ps, out, k)
  = Ok (ps', out', k') ->
  exists requests,
    out' = out ++ requests /\ length requests = length l /\
    Forall (fun c => is_arrow c = false) requests /\ (k <= k')%nat.
Proof.
  revert ps out k. induction l as [| i l IH]; intros ps out k; cbn [for_each].
  - intros E. injection E as _ <- <-. exists []. rewrite app_nil_r.
    repeat split; [constructor | lia].
  - destruct (Capstone.step_particle s artist (ps, out, k) i)
      as [[[ps1 out1] k1] |] eqn:E1; cbn [bind]; [| discriminate].
    intros E. apply IH in E. destruct E as [reqs [-> [Hlen [Hall Hk]]]].
    apply capstone_step_adds_one_request in E1.
    destruct E1 as [cmd [-> [Hcmd Hk1]]].
    exists (cmd :: reqs). rewrite <- app_assoc. cbn.
    repeat split; [congruence | now constructor | lia].
Qed.

(** X11.  A frame of the capstone on a well-shaped grid, whenever it
    returns: the grid holds, in every cell, the angle of the current artist
    for the [z_offset] the frame started with; the draw requests are the
    overlay arrows of that new grid (when shown) followed by exactly one
    request per particle of the pool, none of them an arrow; [z_offset] has
    advanced by [0.002] and [t] by [0.01]; and the generator has only moved
    forward. *)
Theorem capstone_frame_step_by_step
  (s s' : Capstone.sketch F) (artist : Capstone.profile F)
  (out : list (draw_cmd F)) :
  well_shaped (Capstone.cols s) (Capstone.rows s) (Capstone.field s) ->
  dict_get (Capstone.artists s) (Capstone.current_artist s) = Ok artist ->
  Capstone.draw s = Ok (s', out) ->
  (forall i j, 0 <= i < Capstone.cols s -> 0 <= j < Capstone.rows s ->
     getitem2 (Capstone.field s') i j =
     Ok (fmul (fmul (py5_noise
                       (fmul (fmul (of_int i) (Capstone.flow_scale artist))
                             (of_int 10))
                       (fmul (fmul (of_int j) (Capstone.flow_scale artist))
                             (of_int 10))
                       (Capstone.z_offset s))
                    TWO_PI)
              (Capstone.flow_multiplier artist))) /\
  (exists requests,
      out =
        (if Capstone.show_field s
         then flat_map
                (fun i => map (fun j => Arrow i j (cell (Capstone.field s') i j))
                              (range_step2 (Capstone.rows s)))
                (range_step2 (Capstone.cols s))
         else [])
        ++ requests /\
      length requests = length (Capstone.particles s) /\
      Forall (fun c => is_arrow c = false) requests) /\
  Capstone.z_offset s'
  = fadd (Capstone.z_offset s) (fdiv (of_int 2) (of_int 1000)) /\
  Capstone.t s' = fadd (Capstone.t s) (fdiv (of_int 1) (of_int 100)) /\
  (Capstone.rng s <= Capstone.rng s')%nat.
Proof.
  intros Hsh Hart. unfold Capstone.draw. rewrite Hart. cbn [bind].
  unfold Capstone.update_field.
  rewrite (fill_grid (Capstone.cell_angle artist (Capstone.z_offset s))
             _ _ _ Hsh). cbn [bind].
  set (f := map _ (range (Capstone.cols s))).
  set (s1 := Capstone.with_canvas s _ _ _ _ _ f _ _).
  change (Capstone.show_field s1) with (Capstone.show_field s).
  destruct (if Capstone.show_field s then _ else _) as [arrows |] eqn:Ea;
    cbn [bind]; [| discriminate].
  destruct (for_each _ _ _) as [[[ps' out'] k'] |] eqn:El; cbn [bind];
    [| discriminate].
  intros E. injection E as <- <-. cbn.
  apply capstone_loop_adds_requests in El.
  destruct El as [reqs [-> [Hlen [Hall Hk]]]].
  split; [| split; [| auto]].
  - intros i j Hi Hj. unfold f. rewrite getitem2_map by assumption. reflexivity.
  - exists reqs. split; [| split; [| exact Hall]].
    + f_equal. destruct (Capstone.show_field s); [| now injection Ea as <-].
      rewrite capstone_draw_field_spelled_out in Ea
        by (cbn; apply well_shaped_map).
      now injection Ea as <-.
    + rewrite Hlen. unfold range_down. rewrite length_rev, range_length.
      cbn. lia.
Qed.

End Frames.

(** ** Keys *)

Section Strings.
Local Open Scope string_scope.

Lemma append_cancel_l (a b c : string) : a ++ b = a ++ c -> b = c.
Proof.
  induction a as [| ch a IH]; cbn; [auto |].
  intros E. injection E as E. auto.
Qed.

Lemma append_length (a b : string) :
  String.length (a ++ b) = (String.length a + String.length b)%nat.
Proof. induction a as [| ch a IH]; cbn; [reflexivity | now rewrite IH]. Qed.

Lemma append_cancel_r (a b t : string) : a ++ t = b ++ t -> a = b.
Proof.
  intros E.
  assert (Hlen : String.length a = String.length b).
  { apply (f_equal String.length) in E. rewrite !append_length in E. lia. }
  revert b E Hlen. induction a as [| ch a IH]; intros [| ch' b]; cbn;
    try discriminate; [reflexivity |].
  intros E Hlen. injection E as -> E. f_equal. apply IH; [exact E | lia].
Qed.

Lemma py_str_inj (a b : Z) : py_str a = py_str b -> a = b.
Proof.
  unfold py_str. intros E.
  apply (f_equal NilZero.int_of_string) in E.
  assert (Hnn : forall z, Z.to_int z <> Decimal.Pos Decimal.Nil /\
                          Z.to_int z <> Decimal.Neg Decimal.Nil).
  { intros [| p | p]; cbn; split; try discriminate;
      intros H; injection H as H; now apply DecimalPos.Unsigned.to_uint_nonnil in H. }
  rewrite !NilZero.isi in E by apply Hnn.
  injection E as E. now apply DecimalZ.to_int_inj.
Qed.

Lemma no_space_append (a b : string) :
  no_space a -> no_space b -> no_space (a ++ b).
Proof.
  induction a as [| ch a IH]; cbn; [auto |].
  intros [H1 H2] Hb. split; auto.
Qed.

Lemma no_space_replace (s : string) : no_space (str_replace " " "_" s).
Proof.
  induction s as [| ch s IH]; cbn; [exact I |].
  split; [| exact IH].
  destruct (Ascii.eqb ch " ") eqn:E; [discriminate |].
  now apply Ascii.eqb_neq.
Qed.

Lemma no_space_uint (d : Decimal.uint) : no_space (NilEmpty.string_of_uint d).
Proof. induction d; cbn; try exact I; (split; [discriminate | assumption]). Qed.

Lemma no_space_py_str (z : Z) : no_space (py_str z).
Proof.
  assert (H : forall d, no_space (NilZero.string_of_uint d)).
  { intros d. destruct d; try apply no_space_uint.
    cbn. split; [discriminate | exact I]. }
  unfold py_str. destruct (Z.to_int z) as [d | d]; cbn.
  - apply H.
  - split; [discriminate | apply H].
Qed.

End Strings.

Section Keys.
Context {F : Type} {num : Num F} {py5 : Py5 F}.
Local Open Scope string_scope.

(** X12.  Saving never overwrites and never needs quoting.  In the
    capstone the key [s] saves to [export/<name>_<millis>.png] with every
    blank of the artist's name replaced: the file name has no blank
    whatever the name is, and two saves at different clock values get
    different names.  In lesson 07 the key [s] saves to
    [flowfield_<frame_count>.png], again blank-free and different for
    different frame numbers.  Neither changes the sketch. *)
Theorem saved_files_are_blank_free_and_distinct
  (sc : Capstone.sketch F) (artist : Capstone.profile F)
  (sf : FlowFields.sketch F) (clock clock' : Z) :
  dict_get (Capstone.artists sc) (Capstone.current_artist sc) = Ok artist ->
  (exists filename,
      Capstone.key_pressed "s" clock sc
      = Ok (sc, [Save filename; Print ("Saved: " ++ filename)]) /\
      filename = "export/" ++ str_replace " " "_" (Capstone.name artist)
                 ++ "_" ++ py_str clock ++ ".png" /\
      no_space filename /\
      (Capstone.key_pressed "s" clock' sc = Capstone.key_pressed "s" clock sc ->
       clock' = clock))
  /\
  (exists filename,
      FlowFields.key_pressed "s" clock sf
      = Ok (sf, [Save filename; Print ("Saved: " ++ filename)]) /\
      filename = "flowfield_" ++ py_str clock ++ ".png" /\
      no_space filename /\
      (FlowFields.key_pressed "s" clock' sf = FlowFields.key_pressed "s" clock sf ->
       clock' = clock)).
Proof.
  intros Hart. split.
  - eexists. cbn. unfold Capstone.save_image. rewrite Hart. cbn [bind].
    split; [reflexivity |]. split; [reflexivity |]. split.
    + cbn. repeat (split; [discriminate |]).
      apply no_space_append; [apply no_space_replace |].
      cbn. split; [discriminate |].
      apply no_space_append; [apply no_space_py_str |].
      cbn. repeat split; discriminate.
    + intros E. injection E as E _.
      apply append_cancel_l in E. injection E as E.
      apply append_cancel_r in E. now apply py_str_inj.
  - eexists. cbn.
    split; [reflexivity |]. split; [reflexivity |]. split.
    + cbn. repeat (split; [discriminate |]).
      apply no_space_append; [apply no_space_py_str |].
      cbn. repeat split; discriminate.
    + intros E. injection E as E _.
      apply append_cancel_r in E. now apply py_str_inj.
Qed.

(** X13.  The display keys undo themselves, and an unknown key does
    nothing.  In the capstone pressing [f] or [i] twice gives back the very
    sketch it started from and sends nothing out, whatever [artists] holds;
    pressing [t] twice does so as long as the current artist is in
    [artists], each press repainting the background.  In lesson 07 the same
    holds of [f] and [t].  A key that is none of those a handler names
    (ten keys in the capstone, the four keys [f], [t], [r], [s] in lesson
    07) leaves that sketch as it is and sends nothing out. *)
Theorem display_keys_undo_themselves
  (sc : Capstone.sketch F) (sf : FlowFields.sketch F) (c1 c2 : Z) :
  (forall k, In k ["f"; "i"] ->
     exists s1,
       Capstone.key_pressed k c1 sc = Ok (s1, []) /\
       Capstone.key_pressed k c2 s1 = Ok (sc, [])) /\
  (forall artist,
     dict_get (Capstone.artists sc) (Capstone.current_artist sc) = Ok artist ->
     exists s1,
       Capstone.key_pressed "t" c1 sc
       = Ok (s1, [Background (Capstone.background artist)]) /\
       Capstone.key_pressed "t" c2 s1
       = Ok (sc, [Background (Capstone.background artist)])) /\
  (forall k, In k ["f"; "t"] ->
     exists s1 ev1 ev2,
       FlowFields.key_pressed k c1 sf = Ok (s1, ev1) /\
       FlowFields.key_pressed k c2 s1 = Ok (sf, ev2)) /\
  (forall key,
     ~ In key ["1"; "2"; "3"; "4"; "f"; "t"; "i"; "r"; " "; "s"] ->
     Capstone.key_pressed key c1 sc = Ok (sc, [])) /\
  (forall key,
     ~ In key ["f"; "t"; "r"; "s"] ->
     FlowFields.key_pressed key c1 sf = Ok (sf, [])).
Proof.
  split; [| split; [| split; [| split]]].
  - intros k [<- | [<- | []]]; destruct sc; cbn in *.
    + eexists. split; [reflexivity |].
      cbn. now rewrite Bool.negb_involutive.
    + eexists. split; [reflexivity |].
      cbn. now rewrite Bool.negb_involutive.
  - intros artist Hart. destruct sc; cbn in *.
    rewrite Hart. cbn [bind].
    eexists. split; [reflexivity |].
    cbn. rewrite Hart. cbn [bind]. now rewrite Bool.negb_involutive.
  - intros k [<- | [<- | []]]; destruct sf; cbn in *.
    + eexists. eexists. eexists. split; [reflexivity |].
      cbn. now rewrite Bool.negb_involutive.
    + eexists. eexists. eexists. split; [reflexivity |].
      cbn. now rewrite Bool.negb_involutive.
  - intros key Hkey.
    assert (Hneq : forall k,
               In k ["1"; "2"; "3"; "4"; "f"; "t"; "i"; "r"; " "; "s"] ->
               String.eqb key k = false).
    { intros k Hk. apply String.eqb_neq. intros ->. contradiction. }
    unfold Capstone.key_pressed.
    rewrite !Hneq by (cbn; tauto). reflexivity.
  - intros key Hkey.
    assert (Hneq : forall k, In k ["f"; "t"; "r"; "s"] ->
                             String.eqb key k = false).
    { intros k Hk. apply String.eqb_neq. intros ->. contradiction. }
    unfold FlowFields.key_pressed.
    rewrite !Hneq by (cbn; tauto). reflexivity.
Qed.

End Keys.

(** ** The further properties on concrete inputs *)

Section FurtherConcrete.
Local Open Scope Q_scope.

Lemma dead_exactly_from_lifespan_on_witness :
  Capstone.lifespan Fixtures.art_particle
  <= inject_Z (Capstone.age Fixtures.art_particle + Z.of_nat 143) /\
  Capstone.is_dead
    (Nat.iter 143 (Capstone.update Fixtures.capstone) Fixtures.art_particle)
  = true /\
  Capstone.is_dead
    (Nat.iter (143 + 5) (Capstone.update Fixtures.capstone)
       Fixtures.art_particle)
  = true.
Proof.
  assert (H : Capstone.lifespan Fixtures.art_particle
              <= inject_Z (Capstone.age Fixtures.art_particle + Z.of_nat 143))
    by discriminate.
  destruct (dead_exactly_from_lifespan_on Fixtures.capstone
              Fixtures.art_particle 143 5) as [[_ Hdead] Hstays].
  split; [exact H |]. split; [exact (Hdead H) | exact (Hstays (Hdead H))].
Defined.

Lemma monet_is_usable : usable_profile (@Capstone.monet Q Q_num).
Proof. repeat split; discriminate. Qed.

Lemma fresh_particle_is_within_profile_witness :
  exists p q,
    @Capstone.reset Q Q_num Fixtures.flat 30 30 Capstone.monet 0 = Ok (p, 6%nat) /\
    In (Capstone.col p) (Capstone.palette (@Capstone.monet Q Q_num)) /\
    100 <= Capstone.lifespan p < 300 /\
    @FlowFields.new_particle Q Q_num Fixtures.flat Fixtures.flow 0 = Ok (q, 4%nat) /\
    2 <= FlowFields.max_speed q < 4.
Proof.
  destruct (@fresh_particle_is_within_profile Fixtures.flat flat_unit_samples
              30 30 Capstone.monet Fixtures.flow 0)
    as [[p [Ep [Hcol [_ [_ [HL _]]]]]] [q [Eq [_ [Hs _]]]]];
    try discriminate.
  exists p, q. auto.
Defined.

Lemma capstone_session_never_raises_witness :
  exists s s' out ev,
    @Capstone.setup_size Q Q_num Fixtures.flat 30 30
      Fixtures.capstone_globals_one = Ok s /\
    @CapstoneSession.session Q Q_num Fixtures.flat Scenes.inputs s
    = Ok (s', out, ev) /\
    length (Capstone.particles s') = 1%nat.
Proof.
  destruct (capstone_session_never_raises Fixtures.flat 30 30
              Fixtures.capstone_globals_one Scenes.inputs flat_unit_samples)
    as [s [s' [out [ev [E [E' [Hlen _]]]]]]];
    try reflexivity; try discriminate.
  - exact monet_is_builtin.
  - exists s, s', out, ev. auto.
Defined.

Lemma capstone_pool_belongs_to_current_artist_witness :
  exists s s' out ev artist,
    @Capstone.setup_size Q Q_num Fixtures.flat 30 30
      Fixtures.capstone_globals_one = Ok s /\
    @CapstoneSession.session Q Q_num Fixtures.flat Scenes.inputs s
    = Ok (s', out, ev) /\
    dict_get (Capstone.artists s') (Capstone.current_artist s') = Ok artist /\
    Forall (fun p => In (Capstone.col p) (Capstone.palette artist))
           (Capstone.particles s').
Proof.
  destruct (capstone_pool_belongs_to_current_artist Fixtures.flat 30 30
              Fixtures.capstone_globals_one Scenes.inputs flat_unit_samples)
    as [s [s' [out [ev [artist [E [E' [Hart Hall]]]]]]]];
    try reflexivity; try discriminate.
  - exact monet_is_builtin.
  - exists s, s', out, ev, artist.
    split; [exact E | split; [exact E' | split; [exact Hart |]]].
    eapply Forall_impl; [| exact Hall]. intros p [H _]. exact H.
Defined.

Lemma vangogh_is_usable : usable_profile (@Capstone.vangogh Q Q_num).
Proof. repeat split; discriminate. Qed.

Lemma switch_artist_rebuilds_the_pool_witness :
  (exists s',
      @Capstone.switch_artist Q Q_num Fixtures.flat "vangogh" Fixtures.capstone
      = Ok (s', [Background (25, 35, 55)%Z; Print "Artist: Vincent van Gogh"]) /\
      Capstone.current_artist s' = "vangogh"%string /\
      length (Capstone.particles s') = 1%nat /\
      Capstone.show_info s' = true) /\
  @Capstone.switch_artist Q Q_num Fixtures.flat "renoir" Fixtures.capstone
  = Raise KeyError /\
  @Capstone.switch_artist Q Q_num Fixtures.flat "monet" Fixtures.capstone_globals_one
  = Raise KeyError.
Proof.
  destruct (switch_artist_rebuilds_the_pool Fixtures.flat Fixtures.capstone)
    as [Hknown [Hmissing _]].
  destruct (Hknown "vangogh"%string Capstone.vangogh flat_unit_samples)
    as [s' [E [Hc [Hlen [_ [_ [_ [_ [_ [_ [Hinfo _]]]]]]]]]]];
    try reflexivity; try discriminate.
  - exact vangogh_is_usable.
  - split; [exists s'; auto |]. split.
    + apply Hmissing. intros a H. cbn in H.
      repeat (destruct H as [H | H]; [discriminate |]). exact H.
    + destruct (switch_artist_rebuilds_the_pool Fixtures.flat
                  Fixtures.capstone_globals_one) as [_ [Hnone _]].
      apply Hnone. intros a H. exact H.
Defined.

Lemma empty_palette_raises_index_error_witness :
  @Capstone.reset Q Q_num Fixtures.flat 30 30 Scenes.bare_profile 0
  = Raise IndexError /\
  @Capstone.switch_artist Q Q_num Fixtures.flat "bare" Scenes.with_bare
  = Raise IndexError /\
  @FlowFields.new_particle Q Q_num Fixtures.flat Fixtures.flow_globals_one 0
  = Raise IndexError.
Proof.
  destruct (@empty_palette_raises_index_error Q Q_num Fixtures.flat 30 30
              Scenes.bare_profile 0 Scenes.with_bare "bare"
              Fixtures.flow_globals_one)
    as [Hreset [Hswitch [_ Hflow]]]; try reflexivity.
  split; [exact Hreset | split; [| exact Hflow]].
  apply Hswitch. discriminate.
Defined.

Lemma flow_session_never_raises_witness :
  exists s s' out ev,
    @FlowFields.setup_size Q Q_num Fixtures.flat 40 30
      Fixtures.flow_globals_one = Ok s /\
    @FlowSession.session Q Q_num Fixtures.flat Scenes.inputs s
    = Ok (s', out, ev) /\
    length (FlowFields.particles s') = 1%nat.
Proof.
  destruct (flow_session_never_raises Fixtures.flat 40 30
              Fixtures.flow_globals_one Scenes.inputs flat_unit_samples)
    as [s [s' [out [ev [E [E' [Hlen _]]]]]]];
    try reflexivity; try discriminate.
  exists s, s', out, ev. auto.
Defined.

Lemma draw_field_draws_the_stored_angles_witness :
  length (match @FlowFields.draw_field Q Fixtures.flow with
          | Ok arrows => arrows
          | Raise _ => []
          end) = 9%nat /\
  length (match @Capstone.draw_field Q Fixtures.capstone with
          | Ok arrows => arrows
          | Raise _ => []
          end) = 4%nat.
Proof.
  destruct (@draw_field_draws_the_stored_angles Q Q_num
              Fixtures.flow Fixtures.capstone
              well_shaped_flow_fixture well_shaped_capstone_fixture)
    as [Ef Ec].
  rewrite Ef, Ec. split; reflexivity.
Defined.

Lemma lesson07_frame_step_by_step_witness :
  exists s' out,
    @FlowFields.draw Q Q_num Fixtures.flat Fixtures.flow = Ok (s', out) /\
    out = map (FlowFields.display Fixtures.flow) (FlowFields.particles s') /\
    FlowFields.z_offset s' = FlowFields.z_offset Fixtures.flow + 3 / 1000.
Proof.
  eexists. eexists. split; [vm_compute; reflexivity |].
  match goal with
  | |- context [FlowFields.particles ?t] =>
      destruct (@lesson07_frame_step_by_step Q Q_num Fixtures.flat
                  Fixtures.flow t
                  (map (FlowFields.display Fixtures.flow) (FlowFields.particles t))
                  well_shaped_flow_fixture)
        as [_ [_ [Hout Hz]]]
  end.
  - vm_compute. reflexivity.
  - split; [reflexivity | exact Hz].
Defined.

Lemma capstone_frame_step_by_step_witness :
  exists s' out,
    @Capstone.draw Q Q_num Fixtures.flat Fixtures.capstone = Ok (s', out) /\
    length out = 1%nat /\
    Capstone.t s' = Capstone.t Fixtures.capstone + 1 / 100.
Proof.
  destruct (@Capstone.draw Q Q_num Fixtures.flat Fixtures.capstone)
    as [[s' out] |] eqn:E; [| vm_compute in E; discriminate].
  exists s', out. split; [reflexivity |].
  destruct (@capstone_frame_step_by_step Q Q_num Fixtures.flat
              Fixtures.capstone s' Capstone.monet out
              well_shaped_capstone_fixture eq_refl E)
    as [_ [[reqs [Hout [Hlen _]]] [_ [Ht _]]]].
  split; [| exact Ht].
  rewrite Hout. cbn [Capstone.show_field Fixtures.capstone app].
  exact Hlen.
Defined.

Lemma saved_files_are_blank_free_and_distinct_witness :
  @Capstone.key_pressed Q Q_num Fixtures.flat "s" 1234 Fixtures.capstone
  = Ok (Fixtures.capstone,
        [Save "export/Claude_Monet_1234.png";
         Print "Saved: export/Claude_Monet_1234.png"]) /\
  no_space "export/Claude_Monet_1234.png" /\
  @FlowFields.key_pressed Q Q_num Fixtures.flat "s" 77 Fixtures.flow
  = Ok (Fixtures.flow,
        [Save "flowfield_77.png"; Print "Saved: flowfield_77.png"]).
Proof.
  destruct (@saved_files_are_blank_free_and_distinct Q Q_num Fixtures.flat
              Fixtures.capstone Capstone.monet Fixtures.flow 1234 77 eq_refl)
    as [[fc [Ec [Hfc [Hns _]]]] _].
  destruct (@saved_files_are_blank_free_and_distinct Q Q_num Fixtures.flat
              Fixtures.capstone Capstone.monet Fixtures.flow 77 1234 eq_refl)
    as [_ [ff [Ef [Hff _]]]].
  subst fc ff. split; [exact Ec | split; [exact Hns | exact Ef]].
Defined.

Lemma display_keys_undo_themselves_witness :
  (exists s1,
      @Capstone.key_pressed Q Q_num Fixtures.flat "t" 0 Fixtures.capstone
      = Ok (s1, [Background (210, 220, 230)%Z]) /\
      @Capstone.key_pressed Q Q_num Fixtures.flat "t" 1 s1
      = Ok (Fixtures.capstone, [Background (210, 220, 230)%Z])) /\
  (exists s1,
      @Capstone.key_pressed Q Q_num Fixtures.flat "i" 0
        Fixtures.capstone_globals_one = Ok (s1, []) /\
      @Capstone.key_pressed Q Q_num Fixtures.flat "i" 1 s1
      = Ok (Fixtures.capstone_globals_one, [])) /\
  @Capstone.key_pressed Q Q_num Fixtures.flat "x" 0 Fixtures.capstone
  = Ok (Fixtures.capstone, []) /\
  @FlowFields.key_pressed Q Q_num Fixtures.flat "4" 0 Fixtures.flow
  = Ok (Fixtures.flow, []).
Proof.
  destruct (@display_keys_undo_themselves Q Q_num Fixtures.flat
              Fixtures.capstone Fixtures.flow 0 1)
    as [_ [Ht [_ [Hc Hf]]]].
  destruct (@display_keys_undo_themselves Q Q_num Fixtures.flat
              Fixtures.capstone_globals_one Fixtures.flow 0 1)
    as [Hi _].
  split; [exact (Ht Capstone.monet eq_refl) |].
  split; [apply Hi; right; left; reflexivity |].
  split.
  - apply Hc. cbn. intros H.
    repeat (destruct H as [H | H]; [discriminate |]). exact H.
  - apply Hf. cbn. intros H.
    repeat (destruct H as [H | H]; [discriminate |]). exact H.
Defined.

End FurtherConcrete.
